(** * reading-levels: readability metrics, article extraction and aggregation

    A shallow embedding of [rl/metrics.py], [rl/parsing.py] and
    [rl/aggregation.py].

    Conventions of the embedding.
    - A Python [str] is a list of Unicode code points ([N]).
    - A Python [int] is a [Z]; [len] returns a [Z].
    - A Python [float] is idealised as an exact rational ([Q]); equalities
      between scores are stated up to [Qeq].  Rounding of IEEE doubles is
      outside this model.
    - [None] is [None]; a value that may be [None] is an [option]. *)

From Stdlib Require Import List ZArith NArith QArith Bool Lia String Ascii.
From Stdlib Require Import Sorted Permutation Lqa.
Import ListNotations.

Set Implicit Arguments.

(* ================================================================== *)
(** * Python strings *)

Module PyStr.

Definition char := N.
Definition str := list char.

(** Code points of an ASCII literal, for writing strings in examples. *)
Definition py (s : string) : str :=
  map N_of_ascii (list_ascii_of_string s).

Definition len {A} (l : list A) : Z := Z.of_nat (List.length l).

Definition in_range (lo hi c : N) : bool := ((lo <=? c) && (c <=? hi))%N.

(** [str.isspace] on one code point: the table of CPython's
    [_PyUnicode_IsWhitespace]. *)
Definition isspace (c : char) : bool :=
  in_range 9 13 c || in_range 28 32 c
  || (c =? 133)%N || (c =? 160)%N || (c =? 5760)%N
  || in_range 8192 8202 c
  || (c =? 8232)%N || (c =? 8233)%N || (c =? 8239)%N
  || (c =? 8287)%N || (c =? 12288)%N.

Fixpoint dropwhile {A} (p : A -> bool) (s : list A) : list A :=
  match s with
  | [] => []
  | c :: s' => if p c then dropwhile p s' else s
  end.

Definition lstrip (s : str) : str := dropwhile isspace s.
Definition rstrip (s : str) : str := rev (dropwhile isspace (rev s)).
(** [s.strip()] *)
Definition strip (s : str) : str := rstrip (lstrip s).

(** Python truthiness of a string: [bool(s)]. *)
Definition nonempty {A} (s : list A) : bool :=
  match s with [] => false | _ => true end.

Definition is_upper (c : char) : bool := in_range 65 90 c.
Definition is_lower (c : char) : bool := in_range 97 122 c.

(** [str.lower] on ASCII; the callers modelled here pass only tokens made of
    ASCII letters and apostrophes. *)
Definition lower_char (c : char) : char := if is_upper c then (c + 32)%N else c.
Definition lower (s : str) : str := map lower_char s.

(** [s.endswith(suffix)] *)
Fixpoint startswith (pre s : str) : bool :=
  match pre, s with
  | [], _ => true
  | p :: pre', c :: s' => (p =? c)%N && startswith pre' s'
  | _ :: _, [] => false
  end.
Definition endswith (s suffix : str) : bool := startswith (rev suffix) (rev s).

(** [re.findall] for a pattern [[class]+]: the maximal runs of characters
    of the class, left to right.  [cur] is the run being read, reversed. *)
Fixpoint findall_from (cls : char -> bool) (s : str) (cur : str) : list str :=
  match s with
  | [] => if nonempty cur then [rev cur] else []
  | c :: s' =>
      if cls c then findall_from cls s' (c :: cur)
      else if nonempty cur then rev cur :: findall_from cls s' []
           else findall_from cls s' []
  end.
Definition findall (cls : char -> bool) (s : str) : list str :=
  findall_from cls s [].

(** [re.split] for a pattern [[class]+]: the segments between the maximal
    runs of delimiters, the empty segments at both ends included.
    [indelim] says that the previous character was a delimiter. *)
Fixpoint split_from (cls : char -> bool) (s : str) (cur : str)
         (indelim : bool) : list str :=
  match s with
  | [] => [rev cur]
  | c :: s' =>
      if cls c then
        if indelim then split_from cls s' cur true
        else rev cur :: split_from cls s' [] true
      else split_from cls s' (c :: cur) false
  end.
Definition split (cls : char -> bool) (s : str) : list str :=
  split_from cls s [] false.

(** [sep.join(parts)] *)
Fixpoint join (sep : str) (parts : list str) : str :=
  match parts with
  | [] => []
  | [p] => p
  | p :: rest => p ++ sep ++ join sep rest
  end.

(** Order of [str] values: lexicographic on code points. *)
Fixpoint compare (a b : str) : comparison :=
  match a, b with
  | [], [] => Eq
  | [], _ :: _ => Lt
  | _ :: _, [] => Gt
  | x :: a', y :: b' =>
      match N.compare x y with
      | Eq => compare a' b'
      | o => o
      end
  end.

Definition eqb (a b : str) : bool :=
  match compare a b with Eq => true | _ => false end.

End PyStr.
Import PyStr.

(* ================================================================== *)
(** * rl/metrics.py *)

Module Metrics.

(** [_WORD_RE = [A-Za-z']+] *)
Definition word_char (c : char) : bool :=
  is_upper c || is_lower c || (c =? 39)%N.
(** [_SENTENCE_RE = [.!?]+] *)
Definition sentence_char (c : char) : bool :=
  (c =? 46)%N || (c =? 33)%N || (c =? 63)%N.
(** [_VOWEL_RE = [aeiouy]+] with [re.I], on ASCII. *)
Definition vowel_char (c : char) : bool :=
  let l := lower_char c in
  (l =? 97)%N || (l =? 101)%N || (l =? 105)%N || (l =? 111)%N
  || (l =? 117)%N || (l =? 121)%N.

Definition _tokenize_words (text : str) : list str := findall word_char text.

Definition _count_sentences (text : str) : Z :=
  let parts := split sentence_char text in
  let count := len (filter (fun p => nonempty (strip p)) parts) in
  Z.max 1 count.

Definition _count_syllables_in_word (word : str) : Z :=
  let w := lower word in
  let w :=
    if (2 <? len w)%Z && endswith w (py "e") && negb (endswith w (py "le"))
    then removelast w else w in
  let groups := findall vowel_char w in
  let syllables := len groups in
  Z.max 1 syllables.

Definition _count_syllables (words : list str) : Z :=
  fold_left (fun acc w => (acc + _count_syllables_in_word w)%Z) words 0%Z.

Definition _count_complex_words (words : list str) : Z :=
  fold_left
    (fun complex_count w =>
       if (3 <=? _count_syllables_in_word w)%Z
       then (complex_count + 1)%Z else complex_count)
    words 0%Z.

Record MetricsRow := mkMetrics {
  gunning_fog : option Q;
  dale_chall : option Q;
  flesch_reading_ease : option Q;
  num_words : Z;
  num_sentences : Z
}.

(** The optional [textstat] module: each call may raise, which is [None]
    here. *)
Record Textstat := mkTextstat {
  ts_gunning_fog : str -> option Q;
  ts_dale_chall_readability_score : str -> option Q;
  ts_flesch_reading_ease : str -> option Q;
  ts_lexicon_count : str -> option Z;
  ts_sentence_count : str -> option Z
}.

(** The [try] block of [readability_metrics]: [None] when a call raised. *)
Definition via_textstat (ts : Textstat) (text : str) : option MetricsRow :=
  match ts_gunning_fog ts text,
        ts_dale_chall_readability_score ts text,
        ts_flesch_reading_ease ts text,
        ts_lexicon_count ts text,
        ts_sentence_count ts text with
  | Some g, Some d, Some f, Some nw, Some ns =>
      Some (mkMetrics (Some g) (Some d) (Some f) nw ns)
  | _, _, _, _, _ => None
  end.

(** Lines 71-105 of [readability_metrics], on the stripped text. *)
Definition native_metrics (text : str) : MetricsRow :=
  let words := _tokenize_words text in
  let num_words := len words in
  let num_sentences := _count_sentences text in
  let syllables := _count_syllables words in
  let complex_words := _count_complex_words words in
  if (num_words =? 0)%Z then
    mkMetrics None None None 0 num_sentences
  else
    let asl := inject_Z num_words / inject_Z (Z.max 1 num_sentences) in
    let asw := inject_Z syllables / inject_Z num_words in
    let flesch := 206.835 - 1.015 * asl - 84.6 * asw in
    let perc_complex := (inject_Z complex_words / inject_Z num_words) * 100 in
    let gunning := 0.4 * (asl + perc_complex) in
    let difficult := len (filter (fun w => (3 <? len w)%Z) words) in
    let pdw := (inject_Z difficult / inject_Z num_words) * 100 in
    let dale := 0.1579 * pdw + 0.0496 * asl in
    let dale := if negb (Qle_bool pdw 5) then dale + 3.6365 else dale in
    mkMetrics (Some gunning) (Some dale) (Some flesch) num_words num_sentences.

Definition readability_metrics (textstat : option Textstat) (text : str)
  : MetricsRow :=
  let text := strip text in
  if negb (nonempty text) then mkMetrics None None None 0 0
  else
    match textstat with
    | Some ts =>
        match via_textstat ts text with
        | Some m => m
        | None => native_metrics text
        end
    | None => native_metrics text
    end.

(** The from-scratch path is in effect: [textstat] is not installed, or one
    of its calls raises on this text. *)
Definition from_scratch (textstat : option Textstat) (text : str) : Prop :=
  match textstat with
  | None => True
  | Some ts => via_textstat ts (strip text) = None
  end.

(** A scoring library that finds no word in a text and still returns its
    three scores. *)
Definition wordless_scorer : Textstat :=
  mkTextstat (fun _ => Some 0) (fun _ => Some 0) (fun _ => Some 206.835)
             (fun _ => Some 0%Z) (fun _ => Some 1%Z).

End Metrics.

(* ================================================================== *)
(** * Python dicts and [sorted], as [rl/aggregation.py] uses them *)

Module PyDict.
Section Grouping.

Variables K V : Type.
Variable keqb : K -> K -> bool.
Variable kleb : K -> K -> bool.

(** A [defaultdict(list)], in insertion order. *)
Definition dict := list (K * list V).

Definition keys (d : dict) : list K := map fst d.

(** [d[k].append(v)] *)
Fixpoint dict_append (k : K) (v : V) (d : dict) : dict :=
  match d with
  | [] => [(k, [v])]
  | (k', vs) :: d' =>
      if keqb k k' then (k', vs ++ [v]) :: d'
      else (k', vs) :: dict_append k v d'
  end.

(** [sorted(d.items())]: the keys of a dict are distinct, so the order of
    the items is the order of their keys.  Insertion sort stands for
    Python's sort, which returns the same list on distinct keys. *)
Fixpoint insert_item (x : K * list V) (l : dict) : dict :=
  match l with
  | [] => [x]
  | y :: l' => if kleb (fst x) (fst y) then x :: l else y :: insert_item x l'
  end.

Definition sorted_items (d : dict) : dict := fold_right insert_item [] d.

End Grouping.

(** The dict that a loop of [d[key(x)].append(value(x))] builds. *)
Section Filing.

Variables A K V : Type.
Variable keqb : K -> K -> bool.
Variable kleb : K -> K -> bool.

(** The key under which an element is filed, if any, and what is filed. *)
Variable kf : A -> option K.
Variable vf : A -> V.

Definition group_step (d : dict K V) (x : A) : dict K V :=
  match kf x with
  | Some k => dict_append keqb k (vf x) d
  | None => d
  end.

Definition has_key (k : K) (x : A) : bool :=
  match kf x with
  | Some k' => keqb k k'
  | None => false
  end.

(** The values filed under [k], in the order of the input. *)
Definition members (k : K) (l : list A) : list V :=
  map vf (filter (has_key k) l).

(** What the dict holds after the elements of [l] were filed. *)
Definition grouped (d : dict K V) (l : list A) : Prop :=
  NoDup (keys d)
  /\ (forall k vs, In (k, vs) d -> vs = members k l /\ vs <> [])
  /\ (forall k, members k l <> [] -> In k (keys d)).

(** The order of the items of a dict: the order of their keys. *)
Definition item_le (x y : K * list V) : Prop := kleb (fst x) (fst y) = true.

End Filing.
End PyDict.
Import PyDict.

(* ================================================================== *)
(** * rl/aggregation.py *)

Module Aggregation.

Record ArticleRow := mkArticleRow {
  source : str;
  url : str;
  title : option str;
  author : option str;
  section : option str;
  published : option str;
  issue_date : option str;
  num_words : Z;
  num_sentences : Z;
  gunning_fog : option Q;
  dale_chall : option Q;
  flesch_reading_ease : option Q
}.

(** An extracted article artifact, as [_save_raw_and_extracted] writes it:
    the descriptive fields are strings or [null]. *)
Record Extracted := mkExtracted {
  ex_url : str;
  ex_title : option str;
  ex_author : option str;
  ex_section : option str;
  ex_published : option str;
  ex_issue_date : option str;
  ex_text : str
}.

(** Truthiness of an [Optional[str]]. *)
Definition truthy (o : option str) : bool :=
  match o with Some s => nonempty s | None => false end.

(** [a or b] on [Optional[str]] values. *)
Definition py_or (a b : option str) : option str := if truthy a then a else b.

(** The body of the loop of [compute_per_article]. *)
Definition article_row (textstat : option Metrics.Textstat) (source : str)
           (data : Extracted) : ArticleRow :=
  let m := Metrics.readability_metrics textstat (ex_text data) in
  mkArticleRow source (ex_url data)
    (py_or (ex_title data) None)
    (py_or (ex_author data) None)
    (py_or (ex_section data) None)
    (py_or (ex_published data) None)
    (py_or (ex_issue_date data) None)
    (Metrics.num_words m) (Metrics.num_sentences m)
    (Metrics.gunning_fog m) (Metrics.dale_chall m)
    (Metrics.flesch_reading_ease m).

(** [compute_per_article]; [extracted source] is what
    [_iter_extracted_json] yields for that source. *)
Definition compute_per_article (textstat : option Metrics.Textstat)
           (extracted : str -> list Extracted) : list ArticleRow :=
  flat_map (fun source => map (article_row textstat source) (extracted source))
           [py "magazine"; py "web"].

(** A CSV cell. *)
Inductive cell :=
| CEmpty
| CStr (s : str)
| CInt (z : Z)
| CFloat (q : Q).

Definition ostr (o : option str) : cell :=
  match o with Some s => CStr s | None => CEmpty end.
Definition ofloat (o : option Q) : cell :=
  match o with Some q => CFloat q | None => CEmpty end.

(** A line of [per_article.csv], in the order of its columns. *)
Definition article_cells (r : ArticleRow) : list cell :=
  [CStr (source r); CStr (url r); ostr (title r); ostr (author r);
   ostr (section r); ostr (published r); ostr (issue_date r);
   CInt (num_words r); CInt (num_sentences r);
   ofloat (gunning_fog r); ofloat (dale_chall r);
   ofloat (flesch_reading_ease r)].

(** The lines that [write_per_article_csv] writes. *)
Definition write_per_article_csv (rows : list ArticleRow) : list (list cell) :=
  map article_cells rows.

(** [[v for v in values if v is not None]] *)
Fixpoint present (values : list (option Q)) : list Q :=
  match values with
  | [] => []
  | Some v :: rest => v :: present rest
  | None :: rest => present rest
  end.

(** [sum(vals)] *)
Definition sum (vals : list Q) : Q := fold_left Qplus vals 0.

Definition _mean (values : list (option Q)) : option Q :=
  let vals := present values in
  if negb (nonempty vals) then None
  else Some (sum vals / inject_Z (len vals)).

(** The loop of [_weighted_mean]: the state is [(num, den)]. *)
Definition wm_step (st : Q * Z) (entry : option Q * Z) : Q * Z :=
  let '(num, den) := st in
  match entry with
  | (Some val, w) =>
      if (w <=? 0)%Z then st else (num + val * inject_Z w, (den + w)%Z)
  | (None, _) => st
  end.

Definition _weighted_mean (values : list (option Q * Z)) : option Q :=
  let '(num, den) := fold_left wm_step values (0, 0%Z) in
  if (den =? 0)%Z then None else Some (num / inject_Z den).

(** Keys [(issue_date, source)]: tuples of strings, compared
    lexicographically. *)
Definition key2_eqb (a b : str * str) : bool :=
  PyStr.eqb (fst a) (fst b) && PyStr.eqb (snd a) (snd b).
Definition key2_leb (a b : str * str) : bool :=
  match PyStr.compare (fst a) (fst b) with
  | Lt => true
  | Gt => false
  | Eq => match PyStr.compare (snd a) (snd b) with Gt => false | _ => true end
  end.

(** [key_date = r.issue_date or r.published or None] *)
Definition key_date (r : ArticleRow) : option str :=
  py_or (issue_date r) (py_or (published r) None).

(** The first loop of [aggregate_per_issue]. *)
Definition by_issue_step (by_issue : dict (str * str) ArticleRow)
           (r : ArticleRow) : dict (str * str) ArticleRow :=
  match key_date r with
  | Some d =>
      if negb (nonempty d) then by_issue
      else dict_append key2_eqb (d, source r) r by_issue
  | None => by_issue
  end.

Definition by_issue (rows : list ArticleRow) : dict (str * str) ArticleRow :=
  fold_left by_issue_step rows [].

Record IssueRow := mkIssueRow {
  i_issue_date : str;
  i_source : str;
  num_articles : Z;
  total_words : Z;
  gunning_fog_mean : option Q;
  dale_chall_mean : option Q;
  flesch_reading_ease_mean : option Q;
  gunning_fog_weighted_mean : option Q;
  dale_chall_weighted_mean : option Q;
  flesch_reading_ease_weighted_mean : option Q
}.

(** The body of the second loop of [aggregate_per_issue]. *)
Definition issue_row (entry : (str * str) * list ArticleRow) : IssueRow :=
  let '((issue_date, source), items) := entry in
  let g := _mean (map gunning_fog items) in
  let d := _mean (map dale_chall items) in
  let f := _mean (map flesch_reading_ease items) in
  let gw := _weighted_mean (map (fun r => (gunning_fog r, num_words r)) items) in
  let dw := _weighted_mean (map (fun r => (dale_chall r, num_words r)) items) in
  let fw := _weighted_mean
              (map (fun r => (flesch_reading_ease r, num_words r)) items) in
  let total_words := fold_left Z.add (map num_words items) 0%Z in
  mkIssueRow issue_date source (len items) total_words g d f gw dw fw.

(** [aggregate_per_issue]: the rows written to [per_issue.csv]. *)
Definition aggregate_per_issue (rows : list ArticleRow) : list IssueRow :=
  map issue_row (sorted_items key2_leb (by_issue rows)).

(** Keys [(year, source)]. *)
Definition ykey_eqb (a b : Z * str) : bool :=
  (fst a =? fst b)%Z && PyStr.eqb (snd a) (snd b).
Definition ykey_leb (a b : Z * str) : bool :=
  match Z.compare (fst a) (fst b) with
  | Lt => true
  | Gt => false
  | Eq => match PyStr.compare (snd a) (snd b) with Gt => false | _ => true end
  end.

(** The three means of an issue, as [aggregate_per_year] reads them back
    from a line of [per_issue.csv]: an empty cell is [None]. *)
Record IssueMeans := mkIssueMeans {
  m_gunning_fog : option Q;
  m_dale_chall : option Q;
  m_flesch : option Q
}.

Definition issue_means (row : IssueRow) : IssueMeans :=
  mkIssueMeans (gunning_fog_mean row) (dale_chall_mean row)
               (flesch_reading_ease_mean row).

Record YearRow := mkYearRow {
  y_year : Z;
  y_source : str;
  y_gunning_fog_mean : option Q;
  y_dale_chall_mean : option Q;
  y_flesch_reading_ease_mean : option Q
}.

Definition year_row (entry : (Z * str) * list IssueMeans) : YearRow :=
  let '((year, source), items) := entry in
  mkYearRow year source
    (_mean (map m_gunning_fog items))
    (_mean (map m_dale_chall items))
    (_mean (map m_flesch items)).

Section PerYear.

(** [datetime.strptime(s, "%Y-%m-%d").year]; [None] when [strptime]
    raises [ValueError]. *)
Variable strptime_year : str -> option Z.

(** The reading loop of [aggregate_per_year]; [None] when a date does
    not parse and the exception leaves the function. *)
Fixpoint by_year_from (per_issue : list IssueRow)
         (by_year : dict (Z * str) IssueMeans)
  : option (dict (Z * str) IssueMeans) :=
  match per_issue with
  | [] => Some by_year
  | row :: rest =>
      match strptime_year (i_issue_date row) with
      | None => None
      | Some year =>
          by_year_from rest
            (dict_append ykey_eqb (year, i_source row) (issue_means row)
                         by_year)
      end
  end.

(** [aggregate_per_year]: the rows written to [per_year.csv]. *)
Definition aggregate_per_year (per_issue : list IssueRow)
  : option (list YearRow) :=
  match by_year_from per_issue [] with
  | Some by_year => Some (map year_row (sorted_items ykey_leb by_year))
  | None => None
  end.

End PerYear.

(** [cmd_aggregate] of [rl/cli.py]: the three tables. *)
Definition cmd_aggregate (textstat : option Metrics.Textstat)
           (strptime_year : str -> option Z)
           (extracted : str -> list Extracted)
  : list (list cell) * list IssueRow * option (list YearRow) :=
  let rows := compute_per_article textstat extracted in
  let per_article := write_per_article_csv rows in
  let per_issue := aggregate_per_issue rows in
  let per_year := aggregate_per_year strptime_year per_issue in
  (per_article, per_issue, per_year).

End Aggregation.

(** ** Reading the aggregation: keys, groups and orders *)

Module AggSpec.
Import Aggregation.

(** A date field is present when it holds a non-empty string; an artifact
    field that is [null] or empty reaches the rows as [None]. *)
Definition present_str (o : option str) : Prop :=
  exists s, o = Some s /\ s <> [].

(** The key under which [aggregate_per_issue] files a row, if any. *)
Definition issue_key (r : ArticleRow) : option (str * str) :=
  match key_date r with
  | Some d => if nonempty d then Some (d, source r) else None
  | None => None
  end.

(** The rows of one issue: those filed under [(date, src)]. *)
Definition rows_of_issue (date src : str) (rows : list ArticleRow)
  : list ArticleRow :=
  filter (has_key key2_eqb issue_key (date, src)) rows.

Section Years.
Variable strptime_year : str -> option Z.

(** The key under which [aggregate_per_year] files an issue. *)
Definition year_key (row : IssueRow) : option (Z * str) :=
  match strptime_year (i_issue_date row) with
  | Some year => Some (year, i_source row)
  | None => None
  end.

(** The issues of one year and source. *)
Definition issues_of_year (year : Z) (src : str) (per_issue : list IssueRow)
  : list IssueRow :=
  filter (has_key ykey_eqb year_key (year, src)) per_issue.

End Years.

(** Ascending order of [(issue_date, source)] and of [(year, source)]. *)
Definition str_le (a b : str) : Prop := PyStr.compare a b <> Gt.

Definition key2_le (a b : str * str) : Prop :=
  PyStr.compare (fst a) (fst b) = Lt
  \/ (fst a = fst b /\ str_le (snd a) (snd b)).

Definition ykey_le (a b : Z * str) : Prop :=
  (fst a < fst b)%Z \/ (fst a = fst b /\ str_le (snd a) (snd b)).

Definition issue_row_key (o : IssueRow) : str * str :=
  (i_issue_date o, i_source o).
Definition year_row_key (o : YearRow) : Z * str := (y_year o, y_source o).

(** ** Dates

    The year of a zero-padded [YYYY-MM-DD] date, which is how [iso_date]
    writes the dates of the artifacts: what
    [datetime.strptime(s, "%Y-%m-%d").year] returns on such a string.  Any
    other string is refused here. *)
Definition digit (c : char) : option Z :=
  if in_range 48 57 c then Some (Z.of_N c - 48)%Z else None.

Definition is_leap (y : Z) : bool :=
  ((y mod 4 =? 0) && negb (y mod 100 =? 0) || (y mod 400 =? 0))%Z.

Definition days_in_month (y m : Z) : Z :=
  if (m =? 2)%Z then (if is_leap y then 29 else 28)%Z
  else if ((m =? 4) || (m =? 6) || (m =? 9) || (m =? 11))%Z then 30%Z
       else 31%Z.

Definition ymd_year (s : str) : option Z :=
  match s with
  | [y1; y2; y3; y4; h1; m1; m2; h2; d1; d2] =>
      match digit y1, digit y2, digit y3, digit y4,
            digit m1, digit m2, digit d1, digit d2 with
      | Some a, Some b, Some c, Some d, Some e, Some f, Some g, Some h =>
          let y := (1000 * a + 100 * b + 10 * c + d)%Z in
          let m := (10 * e + f)%Z in
          let dd := (10 * g + h)%Z in
          if (h1 =? 45)%N && (h2 =? 45)%N
             && (1 <=? y)%Z && (1 <=? m)%Z && (m <=? 12)%Z
             && (1 <=? dd)%Z && (dd <=? days_in_month y m)%Z
          then Some y else None
      | _, _, _, _, _, _, _, _ => None
      end
  | _ => None
  end.

(** Two issues of 2024 with unweighted Gunning Fog means 10 and 20, one of
    a single article and one of forty. *)
Definition two_issues : list IssueRow :=
  [mkIssueRow (py "2024-01-01") (py "magazine") 1 900
              (Some 10) (Some 7) (Some 60) (Some 10) (Some 7) (Some 60);
   mkIssueRow (py "2024-06-03") (py "magazine") 40 52000
              (Some 20) (Some 9) (Some 40) (Some 21) (Some 9) (Some 41)].

End AggSpec.

(* ================================================================== *)
(** * rl/parsing.py *)

Module Parsing.

(** The operations of a parsed document ([BeautifulSoup(html, "lxml")])
    that [rl/parsing.py] calls on the document and on its tags. *)
Class Soup (node : Type) := {
  (** [el.select_one(css)] *)
  select_one : node -> str -> option node;
  (** [el.select(css)] *)
  select : node -> str -> list node;
  (** [el.get_text(sep, strip=True)] *)
  get_text : node -> str -> str;
  (** [soup.body] *)
  body : node -> option node;
  (** [soup.title] *)
  soup_title : node -> option node;
  (** [tag.string] *)
  tag_string : node -> option str;
  (** [soup.find("meta", attrs={"property": p})] *)
  find_meta_property : node -> str -> option node;
  (** [tag.get(attr)] *)
  tag_get : node -> str -> option str
}.

Definition _BODY_SELECTORS : list str :=
  [py "article"; py "main"; py "div.article__body";
   py "div.ArticleBody__content"; py "section.article-body";
   py "div.Body__inner-container"; py "div.body__inner-container"].

(** The separator ["\n\n"]. *)
Definition blank_line : str := [10%N; 10%N].

Section Extract.
Context {node : Type} `{Soup node}.

Definition _collect_paragraphs (el : node) : list str :=
  fold_left
    (fun paras p =>
       let txt := get_text p (py " ") in
       if nonempty txt && (1 <? len txt)%Z then paras ++ [txt] else paras)
    (select el (py "p")) [].

(** The title field of the dictionary that [extract_meta] returns
    (lines 37-42). *)
Definition document_title (soup : node) : option str :=
  match soup_title soup with
  | Some t =>
      match tag_string t with
      | Some s => if nonempty s then Some (strip s) else None
      | None => None
      end
  | None => None
  end.

Definition extract_meta_title (soup : node) : option str :=
  let title := document_title soup in
  match find_meta_property soup (py "og:title") with
  | Some og_title =>
      match tag_get og_title (py "content") with
      | Some content => if nonempty content then Some (strip content) else title
      | None => title
      end
  | None => title
  end.

(** The loop over the selectors of [extract_article_text]: the
    paragraphs of the first accepted container, [None] when the loop
    ends without a [return]. *)
Fixpoint first_container (selectors : list str) (soup : node)
  : option (list str) :=
  match selectors with
  | [] => None
  | sel :: rest =>
      match select_one soup sel with
      | Some container =>
          let paras := _collect_paragraphs container in
          if (2 <=? len paras)%Z then Some paras
          else first_container rest soup
      | None => first_container rest soup
      end
  end.

(** [soup.body or soup] *)
Definition body_or_soup (soup : node) : node :=
  match body soup with Some b => b | None => soup end.

Definition extract_text_with (selectors : list str) (soup : node) : str :=
  match first_container selectors soup with
  | Some paras => join blank_line paras
  | None => join blank_line (_collect_paragraphs (body_or_soup soup))
  end.

(** [extract_article_text], on the parsed document; of the metadata the
    title is kept. *)
Definition extract_article_text (soup : node) : str * option str :=
  (extract_text_with _BODY_SELECTORS soup, extract_meta_title soup).

(** ** Reading the extractor *)

(** A paragraph text that is kept: non-empty and longer than one
    character. *)
Definition paragraph_ok (txt : str) : bool := nonempty txt && (1 <? len txt)%Z.

(** A selector is passed over when it matches nothing or when its first
    match holds fewer than two paragraphs. *)
Definition rejected (soup : node) (sel : str) : Prop :=
  match select_one soup sel with
  | Some container => (len (_collect_paragraphs container) < 2)%Z
  | None => True
  end.

(** The [content] of the open-graph title tag, when the tag and the
    attribute exist. *)
Definition og_title_content (soup : node) : option str :=
  match find_meta_property soup (py "og:title") with
  | Some og_title => tag_get og_title (py "content")
  | None => None
  end.

End Extract.

(** ** A document tree

    A concrete document model for running the extractor on examples: text
    nodes and elements with attributes.  The selectors it understands are
    those of [_BODY_SELECTORS] and ["p"]: [tag] and [tag.class]. *)

#[warnings="-register-all"]
Inductive dom :=
| Text (s : str)
| Elem (name : str) (attrs : list (str * str)) (children : list dom).

(** Descendants in document order, the node itself excluded. *)
Fixpoint descendants (n : dom) : list dom :=
  match n with
  | Text _ => []
  | Elem _ _ children =>
      (fix go (l : list dom) : list dom :=
         match l with
         | [] => []
         | c :: l' => c :: descendants c ++ go l'
         end) children
  end.

Definition dom_name (n : dom) : option str :=
  match n with Text _ => None | Elem name _ _ => Some name end.

Fixpoint assoc (k : str) (l : list (str * str)) : option str :=
  match l with
  | [] => None
  | (k', v) :: l' => if PyStr.eqb k k' then Some v else assoc k l'
  end.

Definition dom_get (n : dom) (attr : str) : option str :=
  match n with Text _ => None | Elem _ attrs _ => assoc attr attrs end.

(** The classes of an element: its [class] attribute split on whitespace. *)
Definition dom_classes (n : dom) : list str :=
  match dom_get n (py "class") with
  | Some v => findall (fun c => negb (isspace c)) v
  | None => []
  end.

(** Splits [tag.class] at its first dot. *)
Fixpoint split_selector (sel : str) (tag : str) : str * option str :=
  match sel with
  | [] => (rev tag, None)
  | c :: sel' =>
      if (c =? 46)%N then (rev tag, Some sel')
      else split_selector sel' (c :: tag)
  end.

Definition matches (sel : str) (n : dom) : bool :=
  let '(tag, cls) := split_selector sel [] in
  match dom_name n with
  | Some name =>
      PyStr.eqb name tag
      && match cls with
         | Some c => existsb (PyStr.eqb c) (dom_classes n)
         | None => true
         end
  | None => false
  end.

Definition dom_select (n : dom) (sel : str) : list dom :=
  filter (matches sel) (descendants n).

Definition dom_strings (n : dom) : list str :=
  flat_map (fun d => match d with Text s => [s] | Elem _ _ _ => [] end)
           (descendants n).

Definition dom_get_text (n : dom) (sep : str) : str :=
  join sep (filter nonempty (map strip (dom_strings n))).

Definition dom_find (n : dom) (p : dom -> bool) : option dom :=
  hd_error (filter p (descendants n)).

Definition named (tag : str) (n : dom) : bool :=
  match dom_name n with Some name => PyStr.eqb name tag | None => false end.

(** [tag.string]: the only child when it is a string, the [string] of the
    only child when it is a tag. *)
Fixpoint dom_string (n : dom) : option str :=
  match n with
  | Text s => Some s
  | Elem _ _ [c] => dom_string c
  | Elem _ _ _ => None
  end.

#[export] Instance dom_soup : Soup dom := {
  select_one n sel := hd_error (dom_select n sel);
  select := dom_select;
  get_text := dom_get_text;
  body n := dom_find n (named (py "body"));
  soup_title n := dom_find n (named (py "title"));
  tag_string := dom_string;
  find_meta_property n p :=
    dom_find n (fun d => named (py "meta") d
                         && match dom_get d (py "property") with
                            | Some v => PyStr.eqb v p
                            | None => false
                            end);
  tag_get := dom_get
}.

(** The document of [test_parsing_extracts_title_and_text], as parsed. *)
Definition sample_article : dom :=
  Elem (py "[document]") []
    [Elem (py "html") []
       [Elem (py "head") []
          [Elem (py "title") [] [Text (py "Sample Article")];
           Elem (py "meta")
                [(py "property", py "article:published_time");
                 (py "content", py "2024-01-01T00:00:00Z")] [];
           Elem (py "meta")
                [(py "property", py "article:section");
                 (py "content", py "Fiction")] []];
        Elem (py "body") []
          [Elem (py "article") []
             [Elem (py "p") [] [Text (py "First paragraph.")];
              Elem (py "p") [] [Text (py "Second paragraph.")]]]]].

(** A page whose open-graph title is blank. *)
Definition blank_og_title : dom :=
  Elem (py "[document]") []
    [Elem (py "html") []
       [Elem (py "head") []
          [Elem (py "title") [] [Text (py "Sample Article")];
           Elem (py "meta")
                [(py "property", py "og:title"); (py "content", py "   ")]
                []];
        Elem (py "body") [] []]].

End Parsing.

(* ================================================================== *)
(** * rl/utils.py *)

Module Utils.

(** [re.sub] of a pattern [[class]+] by [repl]: every maximal run of the
    class is replaced by one [repl].  [inrun] says that the previous
    character belonged to a run. *)
Fixpoint sub_runs (cls : char -> bool) (repl : str) (s : str) (inrun : bool)
  : str :=
  match s with
  | [] => []
  | c :: s' =>
      if cls c then
        if inrun then sub_runs cls repl s' true
        else repl ++ sub_runs cls repl s' true
      else c :: sub_runs cls repl s' false
  end.

Definition re_sub (cls : char -> bool) (repl : str) (s : str) : str :=
  sub_runs cls repl s false.

(** [s.lstrip(chars)], [s.rstrip(chars)] and [s.strip(chars)] for a set of
    characters given as a predicate. *)
Definition lstrip_chars (p : char -> bool) (s : str) : str := dropwhile p s.
Definition rstrip_chars (p : char -> bool) (s : str) : str :=
  rev (dropwhile p (rev s)).
Definition strip_chars (p : char -> bool) (s : str) : str :=
  rstrip_chars p (lstrip_chars p s).

(** [s[:n]] *)
Definition slice_to (s : str) (n : Z) : str :=
  if (0 <=? n)%Z then firstn (Z.to_nat n) s
  else firstn (Z.to_nat (len s + n)) s.

Definition is_dash (c : char) : bool := (c =? 45)%N.
Definition is_digit (c : char) : bool := in_range 48 57 c.

(** The class [[a-z0-9\-]], whose complement is [_slugify_re]. *)
Definition slug_char (c : char) : bool := is_lower c || is_digit c || is_dash c.

(** [slugify]; [str.lower] is modelled on ASCII, so the model is the code
    on ASCII text. *)
Definition slugify (text : str) (max_len : Z) : str :=
  let text := lower (strip text) in
  let text := re_sub isspace (py "-") text in
  let text := re_sub (fun c => negb (slug_char c)) (py "-") text in
  let text := strip_chars is_dash text in
  let text :=
    if (max_len <? len text)%Z
    then rstrip_chars is_dash (slice_to text max_len) else text in
  if nonempty text then text else py "untitled".

(** The class [[a-zA-Z0-9._\-/]] of [safe_filename]. *)
Definition safe_char (c : char) : bool :=
  is_lower c || is_upper c || is_digit c
  || (c =? 46)%N || (c =? 95)%N || (c =? 45)%N || (c =? 47)%N.

Definition safe_filename (path : str) : str :=
  map (fun c => if safe_char c then c else 95%N) path.

Definition is_ascii (c : char) : bool := (c <? 128)%N.

(** An ASCII letter or digit. *)
Definition alnum (c : char) : bool := is_lower c || is_upper c || is_digit c.

(** Nothing to strip at the left end of [s]: it is empty or starts with a
    character outside [p]. *)
Definition trimmed_left (p : char -> bool) (s : str) : Prop :=
  match s with [] => True | c :: _ => p c = false end.

(** A slug: a non-empty string of [a-z0-9-] with no dash at either end. *)
Definition slug (s : str) : Prop :=
  Forall (fun c => slug_char c = true) s
  /\ s <> []
  /\ trimmed_left is_dash s
  /\ trimmed_left is_dash (rev s).

End Utils.

(* ================================================================== *)
(** * rl/ny_scraper.py *)

Module Scraper.
Import Utils Parsing.

Definition is_slash (c : char) : bool := (c =? 47)%N.

Definition _abs (base href : str) : str :=
  if startswith (py "http") href then href
  else rstrip_chars is_slash base ++ py "/" ++ lstrip_chars is_slash href.

(** [len(text.split())]: the number of whitespace-separated chunks. *)
Definition split_count (text : str) : Z :=
  len (findall (fun c => negb (isspace c)) text).

Section Fetch.
Context {node : Type} `{Soup node}.

(** Lines 112-121 of [fetch_magazine_issue], and 196-204 of
    [fetch_web_for_issue_week]: the extraction of a fetched page, with the
    rendered page as a fallback.  [page] is the parsed response;
    [rendered] is the parsed result of [http.get_rendered(url)], [None]
    when the call raises. *)
Definition extract_with_fallback (page : node) (rendered : option node)
  : str * option str :=
  let '(text, meta) := extract_article_text page in
  if negb (nonempty text) || (split_count text <? 50)%Z then
    match rendered with
    | Some page' => extract_article_text page'
    | None => (text, meta)
    end
  else (text, meta).

End Fetch.

End Scraper.

(* ================================================================== *)
(** * rl/parsing.py: the other fields of [extract_meta] *)

Module ParsingMeta.
Import Parsing.

(** [tag.name], next to the operations of [Soup]. *)
Class SoupTags (node : Type) := {
  tag_name : node -> str
}.

Definition AUTHOR_SELECTORS : list str :=
  [py "meta[name='author']"; py "a.byline__name"; py "span.byline__name";
   py "a[rel='author']"].

Section Meta.
Context {node : Type} `{Soup node} `{SoupTags node}.

(** The loop over the author selectors (lines 44-55): the first selector
    whose tag has a non-empty content gives the author. *)
Fixpoint first_author (selectors : list str) (soup : node) : option str :=
  match selectors with
  | [] => None
  | sel :: rest =>
      match select_one soup sel with
      | Some tag =>
          let content :=
            if PyStr.eqb (tag_name tag) (py "meta")
            then tag_get tag (py "content")
            else Some (get_text tag []) in
          if Aggregation.truthy content then content
          else first_author rest soup
      | None => first_author rest soup
      end
  end.

Definition extract_meta_author (soup : node) : option str :=
  first_author AUTHOR_SELECTORS soup.

(** The [content] of a [meta] tag found by its [property], kept when it is
    not empty (lines 57-59 and 61-63). *)
Definition meta_property_content (soup : node) (property : str) : option str :=
  match find_meta_property soup property with
  | Some tag =>
      let content := tag_get tag (py "content") in
      if Aggregation.truthy content then content else None
  | None => None
  end.

Definition extract_meta_date (soup : node) : option str :=
  meta_property_content soup (py "article:published_time").

Definition extract_meta_section (soup : node) : option str :=
  let section := meta_property_content soup (py "article:section") in
  if negb (Aggregation.truthy section) then
    match select_one soup (py "nav.breadcrumbs a:last-of-type") with
    | Some bc => Some (get_text bc [])
    | None => section
    end
  else section.

Record Meta := mkMeta {
  meta_title : option str;
  meta_author : option str;
  meta_date : option str;
  meta_section : option str
}.

Definition extract_meta (soup : node) : Meta :=
  mkMeta (extract_meta_title soup) (extract_meta_author soup)
         (extract_meta_date soup) (extract_meta_section soup).

(** What a matched tag says about the author: its [content] attribute for
    a [meta] tag, its stripped text otherwise. *)
Definition author_content (tag : node) : option str :=
  if PyStr.eqb (tag_name tag) (py "meta")
  then tag_get tag (py "content")
  else Some (get_text tag []).

(** An author selector is passed over when it matches nothing or when the
    content of its tag is missing or empty. *)
Definition author_rejected (soup : node) (sel : str) : Prop :=
  match select_one soup sel with
  | Some tag => Aggregation.truthy (author_content tag) = false
  | None => True
  end.

End Meta.

(** ** A page given by its answers

    A parsed page reduced to what the queries of [extract_meta] return on
    it: each tag carries its name, its attributes, its stripped text and
    the first match of every selector below it. *)
#[warnings="-register-all"]
Inductive answers :=
| Tag (name : str) (attrs : list (str * str)) (text : str)
      (first_match : list (str * answers)).

Fixpoint lookup (k : str) (l : list (str * answers)) : option answers :=
  match l with
  | [] => None
  | (k', v) :: l' => if PyStr.eqb k k' then Some v else lookup k l'
  end.

Definition a_name (n : answers) : str := match n with Tag name _ _ _ => name end.
Definition a_attrs (n : answers) : list (str * str) :=
  match n with Tag _ attrs _ _ => attrs end.
Definition a_text (n : answers) : str := match n with Tag _ _ text _ => text end.
Definition a_first (n : answers) : list (str * answers) :=
  match n with Tag _ _ _ first_match => first_match end.

#[export] Instance answers_soup : Soup answers := {
  select_one n sel := lookup sel (a_first n);
  select n sel := match lookup sel (a_first n) with Some t => [t] | None => [] end;
  get_text n sep := a_text n;
  body n := lookup (py "body") (a_first n);
  soup_title n := lookup (py "title") (a_first n);
  tag_string n := Some (a_text n);
  find_meta_property n p := lookup (py "meta:" ++ p) (a_first n);
  tag_get n attr := assoc attr (a_attrs n)
}.

#[export] Instance answers_tags : SoupTags answers := {
  tag_name := a_name
}.

(** A page with an empty author [meta] tag, a byline link and an empty
    breadcrumb link. *)
Definition byline_page : answers :=
  Tag (py "[document]") [] []
    [(py "meta[name='author']",
      Tag (py "meta") [(py "name", py "author"); (py "content", [])] [] []);
     (py "a.byline__name", Tag (py "a") [] (py "Jane Roe") []);
     (py "a[rel='author']", Tag (py "a") [] (py "John Doe") []);
     (py "nav.breadcrumbs a:last-of-type", Tag (py "a") [] [] [])].

End ParsingMeta.

(* ================================================================== *)
(** * Reading the tables of [rl/aggregation.py] *)

Module AggMore.
Import Aggregation AggSpec.

(** A row that [aggregate_per_issue] files: it has a grouping key. *)
Definition dated (r : ArticleRow) : bool :=
  match issue_key r with Some _ => true | None => false end.

Definition zsum (l : list Z) : Z := fold_right Z.add 0%Z l.

(** The sum of [f] over all the values of a dict. *)
Definition dict_sum {K V} (f : V -> Z) (d : dict K V) : Z :=
  zsum (map (fun kv => zsum (map f (snd kv))) d).

(** Two optional scores agree: both absent, or equal as rationals. *)
Definition same_value (a b : option Q) : Prop :=
  match a, b with
  | Some x, Some y => x == y
  | None, None => True
  | _, _ => False
  end.

(** A field of a row is normalised: never the empty string. *)
Definition normalised (o : option str) : Prop := o <> Some [].

(** An artifact with a date: its [issue_date] or its [published] field
    holds a non-empty string. *)
Definition artifact_dated (data : Extracted) : bool :=
  truthy (ex_issue_date data) || truthy (ex_published data).

(** The grouping key that the rows of an artifact get. *)
Definition artifact_key (data : Extracted) : option str :=
  py_or (ex_issue_date data) (py_or (ex_published data) None).

(** All the artifacts, in the order [compute_per_article] reads them. *)
Definition artifacts (extracted : str -> list Extracted) : list Extracted :=
  extracted (py "magazine") ++ extracted (py "web").

End AggMore.

(* ================================================================== *)
(** * rl/cache.py and rl/http.py *)

Module Http.

Definition bytes := list N.

Section Client.

(** [sha1_hex] of [rl/utils.py]. *)
Variable sha1_hex : str -> str.

(** The files of the cache directory, by the digest in their name
    ([<digest[:2]>/<digest>.bin]): [None] where there is no file, or where
    reading it raises.  Writing a file is taken to succeed. *)
Definition store := str -> option bytes.

(** [SimpleCache.get] *)
Definition cache_get (s : store) (key : str) : option bytes :=
  s (sha1_hex key).

(** [SimpleCache.set] *)
Definition cache_set (s : store) (key : str) (value : bytes) : store :=
  fun digest =>
    if PyStr.eqb digest (sha1_hex key) then Some value else s digest.

(** What one call of [session.get] does: it returns a response, or raises. *)
Inductive outcome :=
| Responds (status : Z) (content : bytes)
| Fails (e : str).

Inductive error :=
| Exc (e : str)
| HTTPError (status : Z)
| RuntimeError.

Record Response := mkResponse {
  status_code : Z;
  content : bytes;
  cache_hit : bool
}.

Inductive result :=
| Returned (r : Response)
| Raised (e : error).

(** The state after a call of [HttpClient.get]: what it returned or
    raised, the cache, and the number of calls of [session.get]. *)
Record after := mkAfter {
  res : result;
  cache : store;
  calls : nat
}.

(** [r.raise_for_status()] raises for the status codes 400 to 599. *)
Definition raises_for_status (status : Z) : bool :=
  (400 <=? status)%Z && (status <? 600)%Z.

Definition soft_block (status : Z) : bool :=
  (status =? 403)%Z || (status =? 429)%Z || (status =? 503)%Z.

(** The retry loop of [HttpClient.get]: [remaining] iterations are left,
    [done] calls were made, and the network answers the call number [n]
    with [net n]. *)
Fixpoint retry (net : nat -> outcome) (use_cache : bool) (url : str)
         (remaining done : nat) (s : store) (last_exc : option error)
  : after :=
  match remaining with
  | O =>
      match last_exc with
      | Some e => mkAfter (Raised e) s done
      | None => mkAfter (Raised RuntimeError) s done
      end
  | S remaining' =>
      match net done with
      | Responds status body =>
          if (status =? 200)%Z then
            mkAfter (Returned (mkResponse status body false))
                    (if use_cache then cache_set s url body else s)
                    (S done)
          else if soft_block status then
            retry net use_cache url remaining' (S done) s last_exc
          else if raises_for_status status then
            retry net use_cache url remaining' (S done) s
                  (Some (HTTPError status))
          else mkAfter (Returned (mkResponse status body false)) s (S done)
      | Fails e =>
          retry net use_cache url remaining' (S done) s (Some (Exc e))
      end
  end.

(** [HttpClient.get(url, use_cache)] with [cfg.max_retries]. *)
Definition get (max_retries : Z) (net : nat -> outcome) (s : store)
           (url : str) (use_cache : bool) : after :=
  match (if use_cache then cache_get s url else None) with
  | Some cached => mkAfter (Returned (mkResponse 200 cached true)) s O
  | None => retry net use_cache url (Z.to_nat max_retries) O s None
  end.

End Client.

End Http.

(* ================================================================== *)
(** * rl/ny_scraper.py: the links of an issue index and of an issue *)

Module Links.
Import Utils Scraper.

(** [\d{n}] at the start of [s], on ASCII digits: the number read and the
    rest of the string. *)
Fixpoint take_digits (n : nat) (s : str) (acc : Z) : option (Z * str) :=
  match n with
  | O => Some (acc, s)
  | S n' =>
      match s with
      | c :: s' =>
          if is_digit c
          then take_digits n' s' (10 * acc + (Z.of_N c - 48))%Z
          else None
      | [] => None
      end
  end.

(** A literal at the start of [s]: the rest of the string. *)
Fixpoint take_literal (lit s : str) : option str :=
  match lit, s with
  | [], _ => Some s
  | l :: lit', c :: s' => if (l =? c)%N then take_literal lit' s' else None
  | _ :: _, [] => None
  end.

(** [$]: the end of the string, or the newline that ends it. *)
Definition at_end (s : str) : bool :=
  match s with
  | [] => true
  | [c] => (c =? 10)%N
  | _ => false
  end.

(** [/?$] *)
Definition slash_then_end (s : str) : bool :=
  at_end s || match s with c :: s' => is_slash c && at_end s' | [] => false end.

(** [/magazine/\d{4}/\d{2}/\d{2}] at the start of [s]: the three numbers
    and the rest. *)
Definition take_issue_path (s : str) : option (Z * Z * Z * str) :=
  match take_literal (py "/magazine/") s with
  | Some s1 =>
      match take_digits 4 s1 0 with
      | Some (y, s2) =>
          match take_literal (py "/") s2 with
          | Some s3 =>
              match take_digits 2 s3 0 with
              | Some (m, s4) =>
                  match take_literal (py "/") s4 with
                  | Some s5 =>
                      match take_digits 2 s5 0 with
                      | Some (d, s6) => Some (y, m, d, s6)
                      | None => None
                      end
                  | None => None
                  end
              | None => None
              end
          | None => None
          end
      | None => None
      end
  | None => None
  end.

(** [_ISSUE_LINK_RE.match(href)] and the integers of its groups. *)
Definition issue_link_match (href : str) : option (Z * Z * Z) :=
  match take_issue_path href with
  | Some (y, m, d, rest) => if slash_then_end rest then Some (y, m, d) else None
  | None => None
  end.

(** The class [[\w\-]] on ASCII. *)
Definition slug_word_char (c : char) : bool :=
  alnum c || (c =? 95)%N || is_dash c.

(** [_MAG_ARTICLE_RE.match(href)]: after the issue path and a slash, a
    non-empty run of [[\w\-]], which the greedy [+] takes whole, then
    [/?$]. *)
Definition mag_article_match (href : str) : bool :=
  match take_issue_path href with
  | Some (_, _, _, rest) =>
      match take_literal (py "/") rest with
      | Some rest' =>
          match rest' with c :: _ => slug_word_char c | [] => false end
          && slash_then_end (dropwhile slug_word_char rest')
      | None => false
      end
  | None => false
  end.

(** [datetime(y, m, d)] does not raise. *)
Definition valid_date (y m d : Z) : bool :=
  ((1 <=? y) && (y <=? 9999) && (1 <=? m) && (m <=? 12)
   && (1 <=? d) && (d <=? AggSpec.days_in_month y m))%Z.

Record Issue := mkIssue {
  date : Z * Z * Z;
  url : str
}.

(** The order of [datetime] values of whole days. *)
Definition date_leb (a b : Z * Z * Z) : bool :=
  let '(y1, m1, d1) := a in
  let '(y2, m2, d2) := b in
  ((y1 <? y2) || ((y1 =? y2) && ((m1 <? m2) || ((m1 =? m2) && (d1 <=? d2)))))%Z.

(** [d[k] = v] on a dict in insertion order. *)
Fixpoint dict_set {V} (k : str) (v : V) (d : list (str * V)) : list (str * V) :=
  match d with
  | [] => [(k, v)]
  | (k', v') :: d' =>
      if PyStr.eqb k k' then (k', v) :: d' else (k', v') :: dict_set k v d'
  end.

(** [sorted(issues, key=lambda i: i.date)]: a stable sort. *)
Fixpoint insert_issue (x : Issue) (l : list Issue) : list Issue :=
  match l with
  | [] => [x]
  | y :: l' =>
      if date_leb (date x) (date y) then x :: l else y :: insert_issue x l'
  end.

Definition sorted_by_date (l : list Issue) : list Issue :=
  fold_right insert_issue [] l.

(** The loop of [get_issues_for_year] over the [href] of the selected
    links. *)
Definition issues_step (base_url : str) (issues : list (str * Issue))
           (href : str) : list (str * Issue) :=
  match issue_link_match href with
  | Some (y, m, d) =>
      if valid_date y m d then
        let abs_url := _abs base_url href in
        dict_set abs_url (mkIssue (y, m, d) abs_url) issues
      else issues
  | None => issues
  end.

(** [get_issues_for_year], from the [href] values of the links that
    [soup.select('a[href^="/magazine/"]')] returns on the index page. *)
Definition get_issues_for_year (base_url : str) (hrefs : list str)
  : list Issue :=
  sorted_by_date (map snd (fold_left (issues_step base_url) hrefs [])).

(** [sorted(urls)] for the set [urls] of the elements of a list: the
    distinct elements in ascending order. *)
Fixpoint insert_unique (x : str) (l : list str) : list str :=
  match l with
  | [] => [x]
  | y :: l' =>
      match PyStr.compare x y with
      | Lt => x :: l
      | Eq => l
      | Gt => y :: insert_unique x l'
      end
  end.

Definition sorted_set (l : list str) : list str := fold_right insert_unique [] l.

(** [get_issue_articles], from the [href] values of the selected links of
    the issue page. *)
Definition get_issue_articles (base_url : str) (hrefs : list str) : list str :=
  sorted_set (map (_abs base_url) (filter mag_article_match hrefs)).

Definition str_lt (a b : str) : Prop := PyStr.compare a b = Lt.

End Links.

(* ================================================================== *)
(** * The specification's own wording, for comparison with the code *)

Module Spec.
Import Metrics.

(** The letter [l] (a lower-case code point) in either case. *)
Definition letter_is (l : N) (c : char) : bool := (lower_char c =? l)%N.

Definition ends_in_e (w : str) : bool :=
  match rev w with
  | c :: _ => letter_is 101 c
  | [] => false
  end.

Definition ends_in_le (w : str) : bool :=
  match rev w with
  | e :: l :: _ => letter_is 101 e && letter_is 108 l
  | _ => false
  end.

(** "strip a trailing silent e (unless the word ends in le)" *)
Definition strip_silent_e (w : str) : str :=
  if ends_in_e w && negb (ends_in_le w) then removelast w else w.

(** "count maximal runs of vowel-like characters as syllable groups; floor
    of 1 syllable per word" *)
Definition syllable_estimate (w : str) : Z :=
  Z.max 1 (len (findall vowel_char (strip_silent_e w))).

Definition total_syllables (words : list str) : Z :=
  fold_right Z.add 0%Z (map _count_syllables_in_word words).

(** "Complex word = estimated syllable count >= 3" *)
Definition complex_words (words : list str) : Z :=
  len (filter (fun w => (3 <=? _count_syllables_in_word w)%Z) words).

(** "treat any word longer than 3 characters as difficult" *)
Definition difficult_words (words : list str) : Z :=
  len (filter (fun w => (3 <? len w)%Z) words).

(** The entries that count in a weighted mean: value present, weight > 0. *)
Fixpoint qualifying (entries : list (option Q * Z)) : list (Q * Z) :=
  match entries with
  | [] => []
  | (Some v, w) :: rest =>
      if (0 <? w)%Z then (v, w) :: qualifying rest else qualifying rest
  | (None, _) :: rest => qualifying rest
  end.

Definition weighted_sum (q : list (Q * Z)) : Q :=
  fold_right (fun e acc => fst e * inject_Z (snd e) + acc) 0 q.

Definition weight_total (q : list (Q * Z)) : Z :=
  fold_right (fun e acc => (snd e + acc)%Z) 0%Z q.

(** The arithmetic mean of a non-empty list of values. *)
Definition arithmetic_mean (vals : list Q) : Q :=
  fold_right Qplus 0 vals / inject_Z (len vals).

End Spec.

(* ================================================================== *)
(** * Facts about strings *)

Module StrFacts.

Lemma dropwhile_all {A} (p : A -> bool) (s : list A) :
  Forall (fun c => p c = true) s -> dropwhile p s = [].
Proof.
  induction 1 as [|c s Hc _ IH]; simpl; [reflexivity|].
  now rewrite Hc.
Qed.

Lemma dropwhile_split {A} (p : A -> bool) (s : list A) :
  exists ws, Forall (fun c => p c = true) ws /\ s = ws ++ dropwhile p s.
Proof.
  induction s as [|c s [ws [Hws Hs]]]; simpl.
  - exists []. split; [constructor | reflexivity].
  - destruct (p c) eqn:Hc.
    + exists (c :: ws). split; [now constructor|].
      simpl. now rewrite <- Hs.
    + exists []. split; [constructor | reflexivity].
Qed.

Lemma strip_whitespace (s : str) :
  Forall (fun c => isspace c = true) s -> strip s = [].
Proof.
  intros Hs. unfold strip, lstrip, rstrip.
  now rewrite (dropwhile_all _ Hs).
Qed.

Lemma findall_from_nomatch cls (b cur : str) :
  Forall (fun c => cls c = false) b ->
  findall_from cls b cur = if nonempty cur then [rev cur] else [].
Proof.
  intros Hb. revert cur.
  induction Hb as [|c b Hc _ IH]; intros cur; simpl; [reflexivity|].
  rewrite Hc, (IH []). simpl. reflexivity.
Qed.

Lemma findall_from_app_nomatch cls (a b cur : str) :
  Forall (fun c => cls c = false) b ->
  findall_from cls (a ++ b) cur = findall_from cls a cur.
Proof.
  intros Hb. revert cur.
  induction a as [|c a IH]; intros cur; simpl.
  - now apply findall_from_nomatch.
  - now rewrite !IH.
Qed.

Lemma findall_dropwhile cls q (s : str) :
  (forall c, q c = true -> cls c = false) ->
  findall cls (dropwhile q s) = findall cls s.
Proof.
  intros Hq. unfold findall.
  induction s as [|c s IH]; simpl; [reflexivity|].
  destruct (q c) eqn:Hc; [|reflexivity].
  now rewrite (Hq _ Hc).
Qed.

(** Stripping the text removes no token of a class that has no whitespace. *)
Lemma findall_strip cls (s : str) :
  (forall c, isspace c = true -> cls c = false) ->
  findall cls (strip s) = findall cls s.
Proof.
  intros Hq. unfold strip, rstrip.
  rewrite <- (findall_dropwhile cls isspace s Hq). fold (lstrip s).
  destruct (dropwhile_split isspace (rev (lstrip s))) as [ws [Hws Hs]].
  assert (Hl : lstrip s = rev (dropwhile isspace (rev (lstrip s))) ++ rev ws).
  { rewrite <- rev_app_distr, <- Hs. now rewrite rev_involutive. }
  rewrite Hl at 2. unfold findall.
  rewrite findall_from_app_nomatch; [reflexivity|].
  apply Forall_rev. revert Hws. apply Forall_impl. exact Hq.
Qed.

(** Every match of [[class]+] is a non-empty run of the class. *)
Lemma findall_from_run cls (s cur w : str) :
  Forall (fun c => cls c = true) cur ->
  In w (findall_from cls s cur) ->
  w <> [] /\ Forall (fun c => cls c = true) w.
Proof.
  revert cur. induction s as [|c s IH]; intros cur Hcur; simpl.
  - destruct cur as [|x cur]; simpl; [tauto|].
    intros [<-|[]]. split.
    + intros E. apply (f_equal (@List.length _)) in E.
      rewrite length_app in E. simpl in E. lia.
    + change (Forall (fun c => cls c = true) (rev (x :: cur))).
      now apply Forall_rev.
  - destruct (cls c) eqn:Hc.
    + apply IH. now constructor.
    + destruct cur as [|x cur]; simpl.
      * apply IH. constructor.
      * intros [<-|Hin]; [|apply (IH []); [constructor | exact Hin]].
        split.
        -- intros E. apply (f_equal (@List.length _)) in E.
           rewrite length_app in E. simpl in E. lia.
        -- change (Forall (fun c => cls c = true) (rev (x :: cur))).
           now apply Forall_rev.
Qed.

Lemma findall_run cls (s w : str) :
  In w (findall cls s) -> w <> [] /\ Forall (fun c => cls c = true) w.
Proof. apply findall_from_run. constructor. Qed.

(** Matching after a character-wise mapping. *)
Lemma findall_from_map cls (f : char -> char) (s cur : str) :
  findall_from cls (map f s) (map f cur)
  = map (map f) (findall_from (fun c => cls (f c)) s cur).
Proof.
  revert cur. induction s as [|c s IH]; intros cur; simpl.
  - destruct cur; simpl; [reflexivity|].
    now rewrite map_app, map_rev.
  - destruct (cls (f c)).
    + apply (IH (c :: cur)).
    + destruct cur as [|x cur]; simpl.
      * apply (IH []).
      * rewrite <- (IH []). f_equal.
        now rewrite map_app, map_rev.
Qed.

Lemma findall_map cls (f : char -> char) (s : str) :
  findall cls (map f s) = map (map f) (findall (fun c => cls (f c)) s).
Proof. apply (findall_from_map cls f s []). Qed.

Lemma findall_ext cls cls' (s : str) :
  (forall c, cls c = cls' c) -> findall cls s = findall cls' s.
Proof.
  intros E. unfold findall. generalize (@nil char).
  induction s as [|c s IH]; intros cur; simpl; [reflexivity|].
  now rewrite E, !IH.
Qed.

Lemma removelast_map {A B} (f : A -> B) (l : list A) :
  removelast (map f l) = map f (removelast l).
Proof.
  induction l as [|x [|y l] IH]; simpl in *; [reflexivity..|].
  now rewrite IH.
Qed.

Lemma len_map {A B} (f : A -> B) (l : list A) : len (map f l) = len l.
Proof. unfold len. now rewrite length_map. Qed.

Lemma len_nil_iff {A} (l : list A) : len l = 0%Z <-> l = [].
Proof.
  unfold len. destruct l; simpl; split; intros E;
    try reflexivity; discriminate.
Qed.

Lemma len_nonneg {A} (l : list A) : (0 <= len l)%Z.
Proof. unfold len. lia. Qed.

Lemma compare_eq_iff (a b : str) : PyStr.compare a b = Eq <-> a = b.
Proof.
  revert b. induction a as [|x a IH]; intros [|y b]; simpl;
    try (split; [discriminate | discriminate]); [tauto|].
  destruct (N.compare_spec x y) as [E|L|G].
  - subst. rewrite IH. split; [intros ->; reflexivity | intros E; now inversion E].
  - split; [discriminate|]. intros E. inversion E. lia.
  - split; [discriminate|]. intros E. inversion E. lia.
Qed.

Lemma eqb_eq (a b : str) : PyStr.eqb a b = true <-> a = b.
Proof.
  unfold PyStr.eqb. rewrite <- compare_eq_iff.
  destruct (PyStr.compare a b); split; congruence.
Qed.

Lemma compare_antisym (a b : str) :
  PyStr.compare b a = CompOpp (PyStr.compare a b).
Proof.
  revert b. induction a as [|x a IH]; intros [|y b]; simpl; try reflexivity.
  rewrite (N.compare_antisym x y).
  destruct (N.compare x y); simpl; auto.
Qed.

Lemma compare_trans_lt (a b c : str) :
  PyStr.compare a b = Lt -> PyStr.compare b c = Lt -> PyStr.compare a c = Lt.
Proof.
  revert b c. induction a as [|x a IH]; intros [|y b] [|z c]; simpl;
    try discriminate; try reflexivity.
  destruct (N.compare_spec x y) as [E|L|G]; try discriminate.
  - subst y. destruct (N.compare x z); try discriminate; eauto.
  - destruct (N.compare_spec y z) as [E'|L'|G']; try discriminate.
    + subst z. intros _ _.
      destruct (N.compare_spec x y); try lia. reflexivity.
    + intros _ _. destruct (N.compare_spec x z); try lia. reflexivity.
Qed.

End StrFacts.

(* ================================================================== *)
(** * Properties of the readability metrics *)

Module MetricsFacts.
Import Metrics StrFacts.

Ltac bool_to_prop H :=
  repeat first
    [ apply orb_prop in H; destruct H as [H|H]
    | apply andb_prop in H; destruct H as [? H] ];
  repeat match goal with
         | X : (_ <=? _)%N = true |- _ => apply N.leb_le in X
         | X : (_ =? _)%N = true |- _ => apply N.eqb_eq in X
         end.

Lemma isspace_not_word (c : char) : isspace c = true -> word_char c = false.
Proof.
  intros Hs. apply not_true_is_false. intros Hw.
  unfold isspace, in_range in Hs. unfold word_char, is_upper, is_lower, in_range in Hw.
  bool_to_prop Hw; bool_to_prop Hs; lia.
Qed.

Lemma tokenize_strip (text : str) :
  _tokenize_words (strip text) = _tokenize_words text.
Proof. apply findall_strip, isspace_not_word. Qed.

(** The tokens are non-empty runs of ASCII letters and apostrophes. *)
Lemma tokens_are_words (text w : str) :
  In w (_tokenize_words text) ->
  w <> [] /\ Forall (fun c => word_char c = true) w.
Proof. apply findall_run. Qed.

Lemma count_sentences_pos (text : str) : (1 <= _count_sentences text)%Z.
Proof. unfold _count_sentences. lia. Qed.

Lemma fold_left_add_shift (f : str -> Z) (l : list str) (a : Z) :
  fold_left (fun acc w => (acc + f w)%Z) l a
  = (a + fold_right Z.add 0 (map f l))%Z.
Proof.
  revert a. induction l as [|w l IH]; intros a; simpl; [lia|].
  rewrite IH. lia.
Qed.

Lemma count_syllables_total (words : list str) :
  _count_syllables words = Spec.total_syllables words.
Proof.
  unfold _count_syllables, Spec.total_syllables.
  now rewrite fold_left_add_shift.
Qed.

Lemma fold_left_count_shift (p : str -> bool) (l : list str) (a : Z) :
  fold_left (fun n w => if p w then (n + 1)%Z else n) l a
  = (a + len (filter p l))%Z.
Proof.
  revert a. induction l as [|w l IH]; intros a; simpl.
  - unfold len. simpl. lia.
  - rewrite IH. destruct (p w); unfold len; cbn [List.length]; lia.
Qed.

Lemma count_complex_words_filter (words : list str) :
  _count_complex_words words = Spec.complex_words words.
Proof.
  unfold _count_complex_words, Spec.complex_words.
  now rewrite fold_left_count_shift.
Qed.

(** On the library path every score is present. *)
Lemma via_textstat_present ts text m :
  via_textstat ts text = Some m ->
  gunning_fog m <> None /\ dale_chall m <> None /\ flesch_reading_ease m <> None.
Proof.
  unfold via_textstat.
  destruct (ts_gunning_fog ts text), (ts_dale_chall_readability_score ts text),
    (ts_flesch_reading_ease ts text), (ts_lexicon_count ts text),
    (ts_sentence_count ts text); try discriminate.
  intros E. injection E as <-. simpl. repeat split; discriminate.
Qed.

Lemma native_metrics_absent_iff (text : str) :
  let m := native_metrics text in
  (gunning_fog m = None <-> num_words m = 0%Z)
  /\ (dale_chall m = None <-> num_words m = 0%Z)
  /\ (flesch_reading_ease m = None <-> num_words m = 0%Z).
Proof.
  unfold native_metrics. cbv zeta.
  destruct (Z.eqb_spec (len (_tokenize_words text)) 0) as [E|E]; simpl.
  - tauto.
  - repeat split; intros H; try discriminate; contradiction.
Qed.

Lemma from_scratch_native textstat (text : str) :
  from_scratch textstat text ->
  readability_metrics textstat text = readability_metrics None text.
Proof.
  unfold from_scratch, readability_metrics.
  destruct textstat as [ts|]; [|reflexivity].
  intros ->. reflexivity.
Qed.

Lemma readability_native_scores textstat (text : str) :
  from_scratch textstat text ->
  let m := readability_metrics textstat text in
  (0 <= num_words m)%Z
  /\ (gunning_fog m = None <-> num_words m = 0%Z)
  /\ (dale_chall m = None <-> num_words m = 0%Z)
  /\ (flesch_reading_ease m = None <-> num_words m = 0%Z).
Proof.
  intros Hpath. rewrite (from_scratch_native _ _ Hpath).
  unfold readability_metrics.
  destruct (strip text) as [|c t] eqn:E; simpl negb; cbv iota.
  - simpl. split; [lia | tauto].
  - split; [|apply native_metrics_absent_iff].
    unfold native_metrics. cbv zeta.
    destruct (Z.eqb_spec (len (_tokenize_words (c :: t))) 0); simpl;
      [lia | apply len_nonneg].
Qed.

(** On the library path the result is what the library returns. *)
Lemma readability_via_textstat ts (text : str) m :
  strip text <> [] ->
  via_textstat ts (strip text) = Some m ->
  readability_metrics (Some ts) text = m.
Proof.
  intros Hne Hm. unfold readability_metrics.
  destruct (strip text); [contradiction|].
  simpl negb. cbv iota. now rewrite Hm.
Qed.

(** C1, as stated, fails when [textstat] scores the text: the scores are
    then present whatever number of words the library counts. *)
Lemma C1_counterexample :
  ~ (forall textstat text,
        let m := readability_metrics textstat text in
        (gunning_fog m = None /\ dale_chall m = None
         /\ flesch_reading_ease m = None)
        <-> num_words m = 0%Z).
Proof.
  intros Hclaim.
  destruct (Hclaim (Some wordless_scorer) (py "...")) as [_ Habsent].
  destruct (Habsent eq_refl) as [Hg _]. discriminate.
Qed.

(** C1, amended.  Blank text (empty, or whitespace only) gives
    [num_words = 0], [num_sentences = 0] and no score, whether or not
    [textstat] is installed.  On the from-scratch path each of the three
    scores is absent exactly when [num_words = 0], for every text.  When
    [textstat] scores a text that is not blank, the three scores are
    present and the counts are the library's. *)
Theorem C1_blank_text_and_absent_scores :
  (forall textstat text,
      Forall (fun c => isspace c = true) text ->
      readability_metrics textstat text = mkMetrics None None None 0 0)
  /\ (forall textstat text,
         from_scratch textstat text ->
         let m := readability_metrics textstat text in
         (gunning_fog m = None <-> num_words m = 0%Z)
         /\ (dale_chall m = None <-> num_words m = 0%Z)
         /\ (flesch_reading_ease m = None <-> num_words m = 0%Z))
  /\ (forall ts text m,
         strip text <> [] ->
         via_textstat ts (strip text) = Some m ->
         readability_metrics (Some ts) text = m
         /\ gunning_fog m <> None /\ dale_chall m <> None
         /\ flesch_reading_ease m <> None).
Proof.
  split; [|split].
  - intros textstat text Hblank. unfold readability_metrics.
    now rewrite (strip_whitespace Hblank).
  - intros textstat text Hpath. now apply readability_native_scores.
  - intros ts text m Hne Hm. split.
    + now apply readability_via_textstat.
    + now apply (via_textstat_present ts (strip text)).
Qed.

Lemma C1_witness :
  readability_metrics (Some wordless_scorer) (py "   ")
  = mkMetrics None None None 0 0
  /\ readability_metrics None [] = mkMetrics None None None 0 0
  /\ (gunning_fog (readability_metrics None (py "12 + 34.")) = None
      <-> num_words (readability_metrics None (py "12 + 34.")) = 0%Z)
  /\ gunning_fog (readability_metrics (Some wordless_scorer) (py "...")) <> None.
Proof.
  split; [|split; [|split]].
  - apply (proj1 C1_blank_text_and_absent_scores (Some wordless_scorer)
                 (py "   ")).
    repeat constructor.
  - apply (proj1 C1_blank_text_and_absent_scores None []). constructor.
  - apply (proj1 (proj2 C1_blank_text_and_absent_scores) None (py "12 + 34.")).
    exact I.
  - destruct (proj2 (proj2 C1_blank_text_and_absent_scores)
                    wordless_scorer (py "...")
                    (mkMetrics (Some 0) (Some 0) (Some 206.835) 0 1))
      as (E & Hg & _); [discriminate | reflexivity |].
    rewrite E. exact Hg.
Defined.

(** C2. For a text whose stripped form is not empty and that holds at least
    one word token, the from-scratch path returns the three scores given by
    the Flesch, Gunning Fog and approximate Dale-Chall formulas over
    [num_words], [num_sentences], the syllable total, the number of words
    of three syllables or more and the number of words longer than three
    characters; the Dale-Chall constant 3.6365 is added exactly when
    [pdw > 5]. *)
Theorem C2_native_formulas textstat (text : str) :
  from_scratch textstat text ->
  strip text <> [] ->
  _tokenize_words text <> [] ->
  let m := readability_metrics textstat text in
  let words := _tokenize_words text in
  let nw := inject_Z (num_words m) in
  let ns := inject_Z (num_sentences m) in
  let pdw := 100 * (inject_Z (Spec.difficult_words words) / nw) in
  num_words m = len words
  /\ (1 <= num_words m)%Z
  /\ num_sentences m = _count_sentences (strip text)
  /\ (1 <= num_sentences m)%Z
  /\ exists g d f,
      gunning_fog m = Some g
      /\ dale_chall m = Some d
      /\ flesch_reading_ease m = Some f
      /\ f == 206.835 - 1.015 * (nw / ns)
              - 84.6 * (inject_Z (Spec.total_syllables words) / nw)
      /\ g == 0.4 * ((nw / ns)
                     + 100 * (inject_Z (Spec.complex_words words) / nw))
      /\ (5 < pdw -> d == 0.1579 * pdw + 0.0496 * (nw / ns) + 3.6365)
      /\ (pdw <= 5 -> d == 0.1579 * pdw + 0.0496 * (nw / ns)).
Proof.
  intros Hpath Hstrip Hwords. rewrite (from_scratch_native _ _ Hpath).
  unfold readability_metrics.
  destruct (strip text) as [|c t] eqn:E; [contradiction|].
  simpl negb. cbv iota. rewrite <- E. clear E c t Hstrip.
  unfold native_metrics. rewrite tokenize_strip.
  rewrite count_syllables_total, count_complex_words_filter.
  set (words := _tokenize_words text) in *.
  assert (Hlen : (1 <= len words)%Z).
  { pose proof (len_nonneg words) as Hnn.
    destruct (Z.eq_dec (len words) 0) as [E0|E0]; [|lia].
    apply len_nil_iff in E0. contradiction. }
  destruct (Z.eqb_spec (len words) 0) as [E0|_]; [lia|].
  pose proof (count_sentences_pos (strip text)) as Hs.
  rewrite (Z.max_r 1 (_count_sentences (strip text)) Hs).
  cbv zeta. simpl num_words. simpl num_sentences.
  simpl gunning_fog. simpl dale_chall. simpl flesch_reading_ease.
  repeat (split; [first [reflexivity | assumption]|]).
  unfold Spec.difficult_words.
  set (asl := inject_Z (len words) / inject_Z (_count_sentences (strip text))).
  set (dq := inject_Z (len (filter (fun w => (3 <? len w)%Z) words))
             / inject_Z (len words)).
  set (cq := inject_Z (Spec.complex_words words) / inject_Z (len words)).
  set (sq := inject_Z (Spec.total_syllables words) / inject_Z (len words)).
  clearbody asl dq cq sq.
  do 3 eexists. repeat (split; [reflexivity|]).
  split; [ring|].
  assert (Hpdw : dq * 100 == 100 * dq) by ring.
  destruct (Qle_bool (dq * 100) 5) eqn:Hle; simpl negb; cbv iota.
  - apply Qle_bool_iff in Hle. rewrite Hpdw in Hle. split.
    + intros Hlt. exfalso. exact (Qlt_not_le _ _ Hlt Hle).
    + intros _. ring.
  - split.
    + intros _. ring.
    + intros Hle'. rewrite <- Hpdw in Hle'. apply Qle_bool_iff in Hle'.
      congruence.
Qed.

Lemma C2_witness :
  exists f,
    flesch_reading_ease
      (readability_metrics None (py "The cat sat on the mat. It was sunny."))
    = Some f
    /\ f == 108.2675.
Proof.
  destruct (@C2_native_formulas None
                                (py "The cat sat on the mat. It was sunny."))
    as (_ & _ & _ & _ & g & d & f & _ & _ & Hf & Ef & _);
    [exact I | discriminate | discriminate |].
  exists f. split; [exact Hf|].
  rewrite Ef. vm_compute. reflexivity.
Defined.

End MetricsFacts.

(* ================================================================== *)
(** * The syllable estimate *)

Module SyllableFacts.
Import Metrics StrFacts.

Lemma lower_char_idem (c : char) : lower_char (lower_char c) = lower_char c.
Proof.
  unfold lower_char, is_upper, in_range.
  destruct ((65 <=? c)%N && (c <=? 90)%N) eqn:E; [|now rewrite E].
  apply andb_prop in E. destruct E as [E1 E2].
  apply N.leb_le in E1, E2.
  replace ((c + 32 <=? 90)%N) with false; [now rewrite andb_false_r|].
  symmetry. apply N.leb_gt. lia.
Qed.

Lemma vowel_char_lower (c : char) : vowel_char (lower_char c) = vowel_char c.
Proof. unfold vowel_char. now rewrite lower_char_idem. Qed.

Lemma vowel_groups_lower (w : str) :
  len (findall vowel_char (lower w)) = len (findall vowel_char w).
Proof.
  unfold lower. rewrite findall_map, len_map.
  now rewrite (findall_ext _ vowel_char w vowel_char_lower).
Qed.

Lemma endswith_e_lower (w : str) :
  endswith (lower w) (py "e") = Spec.ends_in_e w.
Proof.
  unfold endswith, Spec.ends_in_e, Spec.letter_is, lower.
  rewrite <- map_rev. change (rev (py "e")) with [101%N].
  destruct (rev w) as [|c r]; cbn [map startswith]; [reflexivity|].
  now rewrite andb_true_r, N.eqb_sym.
Qed.

Lemma endswith_le_lower (w : str) :
  endswith (lower w) (py "le") = Spec.ends_in_le w.
Proof.
  unfold endswith, Spec.ends_in_le, Spec.letter_is, lower.
  rewrite <- map_rev. change (rev (py "le")) with [101%N; 108%N].
  destruct (rev w) as [|e [|l r]]; cbn [map startswith];
    [reflexivity | apply andb_false_r |].
  now rewrite andb_true_r, (N.eqb_sym 101), (N.eqb_sym 108).
Qed.

(** The code's estimate without the detour through [lower]. *)
Lemma count_syllables_unfold (w : str) :
  _count_syllables_in_word w
  = Z.max 1 (len (findall vowel_char
                    (if (2 <? len w)%Z && Spec.ends_in_e w
                        && negb (Spec.ends_in_le w)
                     then removelast w else w))).
Proof.
  unfold _count_syllables_in_word. cbv zeta.
  rewrite endswith_e_lower, endswith_le_lower.
  unfold lower at 1. rewrite len_map.
  destruct ((2 <? len w)%Z && Spec.ends_in_e w && negb (Spec.ends_in_le w)).
  - unfold lower. rewrite removelast_map. fold (lower (removelast w)).
    now rewrite vowel_groups_lower.
  - now rewrite vowel_groups_lower.
Qed.

Lemma letter_e_vowel (c : char) : Spec.letter_is 101 c = true -> vowel_char c = true.
Proof.
  unfold Spec.letter_is, vowel_char. intros E. cbv zeta. rewrite E.
  now rewrite orb_true_r.
Qed.

(** The length guard of the code never changes the estimate: on a word of
    one or two characters, stripping the final [e] leaves at most one
    vowel group, as does keeping it. *)
Lemma count_syllables_estimate (w : str) :
  _count_syllables_in_word w = Spec.syllable_estimate w.
Proof.
  rewrite count_syllables_unfold. unfold Spec.syllable_estimate, Spec.strip_silent_e.
  destruct (2 <? len w)%Z eqn:Hlen; [reflexivity|].
  simpl andb.
  destruct (Spec.ends_in_e w && negb (Spec.ends_in_le w)) eqn:Hcond; [|reflexivity].
  apply andb_prop in Hcond. destruct Hcond as [He Hle].
  apply Z.ltb_ge in Hlen. unfold len in Hlen.
  destruct w as [|c1 [|c2 [|c3 w]]]; simpl in Hlen; try lia.
  - discriminate.
  - unfold Spec.ends_in_e in He. simpl in He.
    unfold findall. simpl. now rewrite (letter_e_vowel _ He).
  - unfold Spec.ends_in_e in He. simpl in He.
    unfold findall. simpl. rewrite (letter_e_vowel _ He).
    now destruct (vowel_char c1).
Qed.

(** C7. For every word token of a text, the syllable estimate of the
    from-scratch path is: drop one trailing [e] unless the word ends in
    [le], count the maximal runs of the vowels [a e i o u y] in either
    case, and take at least one. *)
Theorem C7_syllable_estimate (text w : str) :
  In w (_tokenize_words text) ->
  _count_syllables_in_word w = Spec.syllable_estimate w.
Proof. intros _. apply count_syllables_estimate. Qed.

Lemma C7_witness :
  _count_syllables_in_word (py "be") = Spec.syllable_estimate (py "be").
Proof.
  apply (@C7_syllable_estimate (py "To be or not to be") (py "be")).
  vm_compute. tauto.
Defined.

End SyllableFacts.

(* ================================================================== *)
(** * The two means of [rl/aggregation.py] *)

Module MeanFacts.
Import Aggregation StrFacts.

Lemma fold_left_Qplus (vals : list Q) (a : Q) :
  fold_left Qplus vals a == a + fold_right Qplus 0 vals.
Proof.
  revert a. induction vals as [|v vals IH]; intros a; simpl.
  - ring.
  - rewrite IH. ring.
Qed.

Lemma mean_absent_iff (values : list (option Q)) :
  _mean values = None <-> present values = [].
Proof.
  unfold _mean. destruct (present values); simpl; split;
    intros E; try reflexivity; discriminate.
Qed.

(** The unweighted mean is the arithmetic mean of the present values. *)
Lemma mean_arithmetic (values : list (option Q)) :
  present values <> [] ->
  exists m, _mean values = Some m /\ m == Spec.arithmetic_mean (present values).
Proof.
  intros Hne. unfold _mean.
  destruct (present values) as [|v vals] eqn:E; [contradiction|].
  simpl negb. cbv iota. eexists. split; [reflexivity|].
  unfold Spec.arithmetic_mean, sum. rewrite fold_left_Qplus.
  apply Qdiv_comp; [ring | reflexivity].
Qed.

Lemma present_all_absent {A} (metric : A -> option Q) (items : list A) :
  Forall (fun r => metric r = None) items -> present (map metric items) = [].
Proof.
  induction 1 as [|r items Hr _ IH]; simpl; [reflexivity|].
  now rewrite Hr.
Qed.

Lemma qualifying_In (entries : list (option Q * Z)) (v : Q) (w : Z) :
  In (v, w) (Spec.qualifying entries) <-> In (Some v, w) entries /\ (0 < w)%Z.
Proof.
  induction entries as [|[[v'|] w'] entries IH]; simpl.
  - tauto.
  - destruct (Z.ltb_spec 0 w') as [Hw|Hw]; simpl; rewrite IH; split.
    + intros [E|[Hin Hpos]]; [injection E as <- <-; auto | auto].
    + intros [[E|Hin] Hpos]; [injection E as <- <-; auto | auto].
    + intros [Hin Hpos]. auto.
    + intros [[E|Hin] Hpos]; [injection E as <- <-; lia | auto].
  - rewrite IH. split; [intros [Hin Hpos]; auto|].
    intros [[E|Hin] Hpos]; [discriminate | auto].
Qed.

Lemma qualifying_positive (entries : list (option Q * Z)) :
  Forall (fun e => (0 < snd e)%Z) (Spec.qualifying entries).
Proof.
  apply Forall_forall. intros [v w] Hin.
  apply qualifying_In in Hin. simpl. tauto.
Qed.

Lemma weight_total_pos (q : list (Q * Z)) :
  Forall (fun e => (0 < snd e)%Z) q -> q <> [] -> (0 < Spec.weight_total q)%Z.
Proof.
  intros Hq. induction Hq as [|e q He Hq IH]; intros Hne; [contradiction|].
  simpl. destruct q as [|e' q].
  - simpl. lia.
  - assert (0 < Spec.weight_total (e' :: q))%Z by (apply IH; discriminate). lia.
Qed.

(** The state of the loop of [_weighted_mean] after the entries. *)
Lemma wm_fold (entries : list (option Q * Z)) (num : Q) (den : Z) :
  let st := fold_left wm_step entries (num, den) in
  fst st == num + Spec.weighted_sum (Spec.qualifying entries)
  /\ snd st = (den + Spec.weight_total (Spec.qualifying entries))%Z.
Proof.
  revert num den.
  induction entries as [|[[v|] w] entries IH]; intros num den; simpl.
  - split; [ring | lia].
  - destruct (Z.leb_spec w 0) as [Hw|Hw], (Z.ltb_spec 0 w) as [Hw'|Hw'];
      try lia.
    + apply IH.
    + destruct (IH (num + v * inject_Z w) (den + w)%Z) as [Hn Hd].
      split.
      * rewrite Hn. simpl. ring.
      * rewrite Hd. simpl. lia.
  - apply IH.
Qed.

Lemma weighted_mean_absent_iff (entries : list (option Q * Z)) :
  _weighted_mean entries = None <-> Spec.qualifying entries = [].
Proof.
  unfold _weighted_mean.
  pose proof (wm_fold entries 0 0) as [_ Hd]. cbv zeta in Hd.
  destruct (fold_left wm_step entries (0, 0%Z)) as [num den]. simpl in Hd.
  pose proof (qualifying_positive entries) as Hpos.
  destruct (Spec.qualifying entries) as [|e q] eqn:E.
  - simpl in Hd. subst den. simpl. tauto.
  - assert (0 < Spec.weight_total (e :: q))%Z
      by (apply weight_total_pos; [assumption | discriminate]).
    destruct (Z.eqb_spec den 0) as [E0|E0]; [lia|].
    split; discriminate.
Qed.

Lemma weighted_mean_formula (entries : list (option Q * Z)) :
  let q := Spec.qualifying entries in
  q <> [] ->
  exists m,
    _weighted_mean entries = Some m
    /\ (0 < Spec.weight_total q)%Z
    /\ m == Spec.weighted_sum q / inject_Z (Spec.weight_total q).
Proof.
  intros q Hne. unfold _weighted_mean.
  pose proof (wm_fold entries 0 0) as [Hn Hd]. cbv zeta in Hn, Hd.
  destruct (fold_left wm_step entries (0, 0%Z)) as [num den].
  simpl in Hn, Hd. fold q in Hn, Hd.
  assert (Hpos : (0 < Spec.weight_total q)%Z)
    by (apply weight_total_pos; [apply qualifying_positive | assumption]).
  destruct (Z.eqb_spec den 0) as [E0|E0]; [lia|].
  eexists. split; [reflexivity|]. split; [assumption|].
  subst den. apply Qdiv_comp; [rewrite Hn; ring | reflexivity].
Qed.

(** C3. The weighted mean is [sum (value * weight) / sum weight] over
    exactly the entries with a present value and a weight above zero; it is
    absent when no entry qualifies, which is also when the total weight is
    0; and the weighted mean of [(10, 100), (20, 0)] is 10. *)
Theorem C3_weighted_mean :
  (forall entries v w,
      In (v, w) (Spec.qualifying entries)
      <-> In (Some v, w) entries /\ (0 < w)%Z)
  /\ (forall entries,
         _weighted_mean entries = None
         <-> Spec.qualifying entries = []
             \/ Spec.weight_total (Spec.qualifying entries) = 0%Z)
  /\ (forall entries,
         Spec.qualifying entries <> [] ->
         exists m,
           _weighted_mean entries = Some m
           /\ m == Spec.weighted_sum (Spec.qualifying entries)
                   / inject_Z (Spec.weight_total (Spec.qualifying entries)))
  /\ (exists m,
         _weighted_mean [(Some 10, 100%Z); (Some 20, 0%Z)] = Some m
         /\ m == 10).
Proof.
  split; [exact qualifying_In|]. split; [|split].
  - intros entries. rewrite weighted_mean_absent_iff. split; [tauto|].
    intros [E|E]; [assumption|].
    destruct (Spec.qualifying entries) as [|e q] eqn:Eq; [reflexivity|].
    pose proof (qualifying_positive entries) as Hpos. rewrite Eq in Hpos.
    assert (0 < Spec.weight_total (e :: q))%Z
      by (apply weight_total_pos; [assumption | discriminate]).
    lia.
  - intros entries Hne.
    destruct (weighted_mean_formula entries Hne) as (m & Hm & _ & Em).
    now exists m.
  - eexists. split; [reflexivity|]. reflexivity.
Qed.

Lemma C3_witness :
  exists m,
    _weighted_mean [(Some 5, 10%Z); (None, 7%Z); (Some 15, 90%Z)] = Some m
    /\ m == 14.
Proof.
  destruct (proj1 (proj2 (proj2 C3_weighted_mean))
              [(Some 5, 10%Z); (None, 7%Z); (Some 15, 90%Z)])
    as (m & Hm & Em); [discriminate|].
  exists m. split; [exact Hm|]. rewrite Em. reflexivity.
Defined.

(** When every present value carries a positive weight, the two means are
    absent together. *)
Lemma means_absent_together {A} (metric : A -> option Q) (weight : A -> Z)
      (items : list A) :
  Forall (fun r => metric r <> None -> (0 < weight r)%Z) items ->
  (_weighted_mean (map (fun r => (metric r, weight r)) items) = None
   <-> _mean (map metric items) = None).
Proof.
  intros Hw. rewrite weighted_mean_absent_iff, mean_absent_iff.
  induction Hw as [|r items Hr _ IH]; simpl; [tauto|].
  destruct (metric r) as [v|].
  - assert (0 < weight r)%Z as Hpos by (apply Hr; discriminate).
    apply Z.ltb_lt in Hpos. rewrite Hpos. split; discriminate.
  - exact IH.
Qed.

End MeanFacts.

(* ================================================================== *)
(** * Grouping into a dict and sorting its items *)

Module DictFacts.

Section Grouping.

Variables A K V : Type.
Variable keqb : K -> K -> bool.
Hypothesis keqb_eq : forall a b, keqb a b = true <-> a = b.
Variable kf : A -> option K.
Variable vf : A -> V.

#[local] Abbreviation group_step := (group_step keqb kf vf).
#[local] Abbreviation has_key := (has_key keqb kf).
#[local] Abbreviation members := (members keqb kf vf).
#[local] Abbreviation grouped := (grouped keqb kf vf).


Lemma keqb_refl (k : K) : keqb k k = true.
Proof. now apply keqb_eq. Qed.

Lemma keqb_neq (a b : K) : a <> b -> keqb a b = false.
Proof.
  intros Hne. destruct (keqb a b) eqn:E; [|reflexivity].
  apply keqb_eq in E. contradiction.
Qed.

Lemma members_snoc (k : K) (l : list A) (x : A) :
  members k (l ++ [x]) = members k l ++ (if has_key k x then [vf x] else []).
Proof.
  unfold members. rewrite filter_app, map_app. simpl.
  now destruct (has_key k x).
Qed.

Lemma dict_append_keys (k0 : K) (v : V) (d : dict K V) (k : K) :
  In k (keys (dict_append keqb k0 v d)) <-> k = k0 \/ In k (keys d).
Proof.
  induction d as [|[k' vs] d IH]; simpl.
  - intuition congruence.
  - destruct (keqb k0 k') eqn:E; simpl.
    + apply keqb_eq in E. subst k'. intuition congruence.
    + rewrite IH. tauto.
Qed.

Lemma dict_append_NoDup (k0 : K) (v : V) (d : dict K V) :
  NoDup (keys d) -> NoDup (keys (dict_append keqb k0 v d)).
Proof.
  induction d as [|[k' vs] d IH]; simpl; intros Hnd.
  - constructor; [tauto | constructor].
  - inversion Hnd as [|? ? Hnotin Hnd']; subst.
    destruct (keqb k0 k') eqn:E; simpl.
    + now constructor.
    + constructor; [|now apply IH].
      intros Hin. apply dict_append_keys in Hin.
      destruct Hin as [->|Hin]; [|contradiction].
      rewrite keqb_refl in E. discriminate.
Qed.

Lemma in_keys (d : dict K V) (k : K) (vs : list V) :
  In (k, vs) d -> In k (keys d).
Proof. intros Hin. apply (in_map fst) in Hin. exact Hin. Qed.

Lemma dict_append_In (k0 : K) (v : V) (d : dict K V) (k : K) (vs : list V) :
  NoDup (keys d) ->
  In (k, vs) (dict_append keqb k0 v d) ->
  (k <> k0 /\ In (k, vs) d)
  \/ (k = k0 /\ exists vs0, In (k0, vs0) d /\ vs = vs0 ++ [v])
  \/ (k = k0 /\ ~ In k0 (keys d) /\ vs = [v]).
Proof.
  induction d as [|[k' vs'] d IH]; simpl; intros Hnd.
  - intros [E|[]]. injection E as <- <-. right. right. tauto.
  - inversion Hnd as [|? ? Hnotin Hnd']; subst.
    destruct (keqb k0 k') eqn:E; simpl.
    + apply keqb_eq in E. subst k'. intros [E|Hin].
      * injection E as <- <-. right. left. split; [reflexivity|].
        exists vs'. auto.
      * left. split; [|auto]. intros ->.
        apply Hnotin. exact (in_keys _ _ _ Hin).
    + intros [E'|Hin].
      * injection E' as <- <-. left. split; [|auto].
        intros ->. rewrite keqb_refl in E. discriminate.
      * destruct (IH Hnd' Hin)
          as [[Hne H1]|[[-> (vs0 & H1 & H2)]|(-> & H1 & H2)]].
        -- left. auto.
        -- right. left. split; [reflexivity|]. exists vs0. auto.
        -- right. right. split; [reflexivity|]. split; [|assumption].
           intros [->|Hin']; [|contradiction].
           rewrite keqb_refl in E. discriminate.
Qed.


Lemma grouped_nil : grouped [] [].
Proof.
  split; [constructor|]. split.
  - intros k vs [].
  - intros k Hne. now apply Hne.
Qed.

Lemma has_key_true (k : K) (x : A) : has_key k x = true <-> kf x = Some k.
Proof.
  unfold has_key. destruct (kf x) as [k'|]; [|split; discriminate].
  rewrite keqb_eq. split; [now intros -> | now intros [= ->]].
Qed.

Lemma grouped_step (d : dict K V) (l : list A) (x : A) :
  grouped d l -> grouped (group_step d x) (l ++ [x]).
Proof.
  intros (Hnd & Hin & Hkeys). unfold group_step.
  destruct (kf x) as [k0|] eqn:Ek.
  - assert (Hk0 : has_key k0 x = true) by now apply has_key_true.
    assert (Hother : forall k, k <> k0 -> has_key k x = false).
    { intros k Hne. destruct (has_key k x) eqn:E; [|reflexivity].
      apply has_key_true in E. congruence. }
    split; [now apply dict_append_NoDup|]. split.
    + intros k vs Hkv. rewrite members_snoc.
      destruct (dict_append_In _ _ _ _ _ Hnd Hkv)
        as [[Hne H1]|[[-> (vs0 & H1 & ->)]|(-> & H1 & ->)]].
      * rewrite (Hother k Hne), app_nil_r. now apply Hin.
      * rewrite Hk0. destruct (Hin _ _ H1) as [-> _].
        split; [reflexivity|]. now destruct (members k0 l).
      * rewrite Hk0. destruct (members k0 l) eqn:Em.
        -- split; [reflexivity | discriminate].
        -- exfalso. apply H1, Hkeys. rewrite Em. discriminate.
    + intros k Hne. apply dict_append_keys.
      destruct (keqb k k0) eqn:E; [left; now apply keqb_eq|].
      right. apply Hkeys. rewrite members_snoc in Hne.
      assert (has_key k x = false) as Hf.
      { apply Hother. intros ->. rewrite keqb_refl in E. discriminate. }
      now rewrite Hf, app_nil_r in Hne.
  - assert (Hnone : forall k, has_key k x = false).
    { intros k. unfold has_key. now rewrite Ek. }
    split; [assumption|]. split.
    + intros k vs Hkv. rewrite members_snoc, Hnone, app_nil_r. now apply Hin.
    + intros k. rewrite members_snoc, Hnone, app_nil_r. apply Hkeys.
Qed.

Lemma grouped_fold (l pre : list A) (d : dict K V) :
  grouped d pre -> grouped (fold_left group_step l d) (pre ++ l).
Proof.
  revert pre d. induction l as [|x l IH]; intros pre d Hg; simpl.
  - now rewrite app_nil_r.
  - replace (pre ++ x :: l) with ((pre ++ [x]) ++ l)
      by now rewrite <- app_assoc.
    apply IH. now apply grouped_step.
Qed.

Lemma members_nonempty (k : K) (l : list A) :
  members k l <> [] <-> exists x, In x l /\ kf x = Some k.
Proof.
  unfold members. split.
  - destruct (filter (has_key k) l) as [|x xs] eqn:E; [now intros []|].
    intros _. exists x.
    assert (In x (filter (has_key k) l)) as Hin by (rewrite E; now left).
    apply filter_In in Hin. destruct Hin as [Hin Hk].
    split; [assumption | now apply has_key_true].
  - intros (x & Hin & Hk) E.
    assert (In x (filter (has_key k) l)) as Hf.
    { apply filter_In. split; [assumption | now apply has_key_true]. }
    destruct (filter (has_key k) l); [contradiction | discriminate].
Qed.

(** An element that files nothing leaves the dict as it was. *)
Lemma fold_skip (pre post : list A) (x : A) (d : dict K V) :
  kf x = None ->
  fold_left group_step (pre ++ x :: post) d
  = fold_left group_step (pre ++ post) d.
Proof.
  intros Hx. rewrite !fold_left_app. simpl.
  unfold group_step at 2. now rewrite Hx.
Qed.

End Grouping.

Section Sorting.

Variables K V : Type.
Variable kleb : K -> K -> bool.
Hypothesis kleb_total : forall a b, kleb a b = false -> kleb b a = true.
Hypothesis kleb_trans :
  forall a b c, kleb a b = true -> kleb b c = true -> kleb a c = true.

#[local] Abbreviation item_le := (@item_le K V kleb).


Lemma insert_item_perm (x : K * list V) (l : dict K V) :
  Permutation (insert_item kleb x l) (x :: l).
Proof.
  induction l as [|y l IH]; simpl; [reflexivity|].
  destruct (kleb (fst x) (fst y)); [reflexivity|].
  rewrite IH. apply perm_swap.
Qed.

Lemma sorted_items_perm (d : dict K V) : Permutation (sorted_items kleb d) d.
Proof.
  induction d as [|x d IH]; simpl; [reflexivity|].
  rewrite insert_item_perm. now constructor.
Qed.

Lemma insert_item_sorted (x : K * list V) (l : dict K V) :
  Sorted item_le l -> Sorted item_le (insert_item kleb x l).
Proof.
  induction 1 as [|y l Hs IH Hhd]; simpl.
  - repeat constructor.
  - destruct (kleb (fst x) (fst y)) eqn:E.
    + constructor; [now constructor | now constructor].
    + constructor; [assumption|].
      destruct l as [|z l]; simpl.
      * constructor. now apply kleb_total.
      * destruct (kleb (fst x) (fst z)) eqn:E'.
        -- constructor. now apply kleb_total.
        -- constructor. now inversion Hhd.
Qed.

Lemma sorted_items_sorted (d : dict K V) :
  StronglySorted item_le (sorted_items kleb d).
Proof.
  apply Sorted_StronglySorted.
  - intros a b c. unfold item_le. apply kleb_trans.
  - induction d as [|x d IH]; simpl; [constructor|].
    now apply insert_item_sorted.
Qed.

Lemma sorted_items_In (d : dict K V) (x : K * list V) :
  In x (sorted_items kleb d) <-> In x d.
Proof.
  split; apply Permutation_in;
    [apply sorted_items_perm | symmetry; apply sorted_items_perm].
Qed.

Lemma sorted_items_NoDup (d : dict K V) :
  NoDup (keys d) -> NoDup (keys (sorted_items kleb d)).
Proof.
  apply Permutation_NoDup. unfold keys.
  apply Permutation_map. symmetry. apply sorted_items_perm.
Qed.

End Sorting.

End DictFacts.

(* ================================================================== *)
(** * Properties of the aggregation *)

Module AggregationFacts.
Import Aggregation AggSpec StrFacts DictFacts MeanFacts.

(** ** Keys and their orders *)

Lemma key2_eqb_eq (a b : str * str) : key2_eqb a b = true <-> a = b.
Proof.
  destruct a as [a1 a2], b as [b1 b2]. unfold key2_eqb. simpl.
  rewrite andb_true_iff, !eqb_eq.
  split; [intros [-> ->]; reflexivity | intros [= -> ->]; auto].
Qed.

Lemma ykey_eqb_eq (a b : Z * str) : ykey_eqb a b = true <-> a = b.
Proof.
  destruct a as [a1 a2], b as [b1 b2]. unfold ykey_eqb. simpl.
  rewrite andb_true_iff, Z.eqb_eq, eqb_eq.
  split; [intros [-> ->]; reflexivity | intros [= -> ->]; auto].
Qed.

Lemma str_le_trans (a b c : str) : str_le a b -> str_le b c -> str_le a c.
Proof.
  unfold str_le.
  destruct (PyStr.compare a b) eqn:E1; [| |congruence].
  - apply compare_eq_iff in E1. now subst b.
  - destruct (PyStr.compare b c) eqn:E2; [| |congruence].
    + apply compare_eq_iff in E2. subst c. rewrite E1. discriminate.
    + rewrite (compare_trans_lt _ _ _ E1 E2). discriminate.
Qed.

Lemma key2_leb_le (a b : str * str) : key2_leb a b = true <-> key2_le a b.
Proof.
  unfold key2_leb, key2_le, str_le.
  destruct (PyStr.compare (fst a) (fst b)) eqn:E1.
  - apply compare_eq_iff in E1.
    destruct (PyStr.compare (snd a) (snd b)); split; intros H;
      try reflexivity; try discriminate;
      try (right; split; [assumption | discriminate]);
      destruct H as [H|[_ H]]; congruence.
  - split; [now left | reflexivity].
  - split; [discriminate|]. intros [H|[H _]]; [discriminate|].
    apply compare_eq_iff in H. congruence.
Qed.

Lemma ykey_leb_le (a b : Z * str) : ykey_leb a b = true <-> ykey_le a b.
Proof.
  unfold ykey_leb, ykey_le, str_le.
  destruct (Z.compare_spec (fst a) (fst b)) as [E|L|G].
  - destruct (PyStr.compare (snd a) (snd b)); split; intros H;
      try reflexivity; try discriminate;
      try (right; split; [assumption | discriminate]);
      destruct H as [H|[_ H]]; try congruence; lia.
  - split; [now left | reflexivity].
  - split; [discriminate|]. intros [H|[H _]]; lia.
Qed.

Lemma key2_leb_total (a b : str * str) :
  key2_leb a b = false -> key2_leb b a = true.
Proof.
  unfold key2_leb.
  rewrite (compare_antisym (fst a) (fst b)), (compare_antisym (snd a) (snd b)).
  destruct (PyStr.compare (fst a) (fst b)), (PyStr.compare (snd a) (snd b));
    simpl; congruence.
Qed.

Lemma ykey_leb_total (a b : Z * str) :
  ykey_leb a b = false -> ykey_leb b a = true.
Proof.
  unfold ykey_leb.
  rewrite (Z.compare_antisym (fst a) (fst b)), (compare_antisym (snd a) (snd b)).
  destruct (Z.compare (fst a) (fst b)), (PyStr.compare (snd a) (snd b));
    simpl; congruence.
Qed.

Lemma key2_leb_trans (a b c : str * str) :
  key2_leb a b = true -> key2_leb b c = true -> key2_leb a c = true.
Proof.
  rewrite !key2_leb_le. unfold key2_le.
  intros [L1|[E1 S1]] [L2|[E2 S2]].
  - left. eapply compare_trans_lt; eassumption.
  - left. now rewrite <- E2.
  - left. now rewrite E1.
  - right. split; [congruence | eapply str_le_trans; eassumption].
Qed.

Lemma ykey_leb_trans (a b c : Z * str) :
  ykey_leb a b = true -> ykey_leb b c = true -> ykey_leb a c = true.
Proof.
  rewrite !ykey_leb_le. unfold ykey_le.
  intros [L1|[E1 S1]] [L2|[E2 S2]].
  - left. lia.
  - left. lia.
  - left. lia.
  - right. split; [congruence | eapply str_le_trans; eassumption].
Qed.

Lemma StronglySorted_map_impl {A B} (f : A -> B) (R : A -> A -> Prop)
      (R' : B -> B -> Prop) (l : list A) :
  (forall x y, R x y -> R' (f x) (f y)) ->
  StronglySorted R l -> StronglySorted R' (map f l).
Proof.
  intros HR. induction 1 as [|x l Hs IH Hall]; simpl; constructor.
  - exact IH.
  - apply Forall_map. revert Hall. apply Forall_impl. intros y. apply HR.
Qed.

(** ** The groups of [aggregate_per_issue] *)

Lemma by_issue_step_group (d : dict (str * str) ArticleRow) (r : ArticleRow) :
  by_issue_step d r = group_step key2_eqb issue_key (fun x => x) d r.
Proof.
  unfold by_issue_step, group_step, issue_key.
  destruct (key_date r) as [dt|]; [|reflexivity].
  now destruct (nonempty dt).
Qed.

Lemma by_issue_fold (rows : list ArticleRow) :
  by_issue rows = fold_left (group_step key2_eqb issue_key (fun x => x)) rows [].
Proof.
  unfold by_issue. generalize (@nil ((str * str) * list ArticleRow)).
  induction rows as [|r rows IH]; intros d; simpl; [reflexivity|].
  now rewrite by_issue_step_group, IH.
Qed.

Lemma by_issue_grouped (rows : list ArticleRow) :
  grouped key2_eqb issue_key (fun x => x) (by_issue rows) rows.
Proof.
  rewrite by_issue_fold.
  apply (@grouped_fold _ _ _ key2_eqb key2_eqb_eq issue_key (fun x => x)
                       rows [] []).
  apply grouped_nil.
Qed.

Lemma issue_row_key_eq (k : str * str) (items : list ArticleRow) :
  issue_row_key (issue_row (k, items)) = k.
Proof. now destruct k. Qed.

(** Every line of [per_issue.csv] is computed from the rows filed under its
    key, in their input order, and there is at least one such row. *)
Lemma aggregate_per_issue_rows (rows : list ArticleRow) (o : IssueRow) :
  In o (aggregate_per_issue rows) ->
  o = issue_row (issue_row_key o,
                 rows_of_issue (i_issue_date o) (i_source o) rows)
  /\ rows_of_issue (i_issue_date o) (i_source o) rows <> [].
Proof.
  unfold aggregate_per_issue. intros Hin.
  apply in_map_iff in Hin. destruct Hin as ([k items] & <- & Hin).
  apply sorted_items_In in Hin.
  destruct (by_issue_grouped rows) as (_ & Hmem & _).
  destruct (Hmem _ _ Hin) as [Eitems Hne].
  unfold members in Eitems. rewrite map_id in Eitems.
  rewrite issue_row_key_eq. unfold rows_of_issue.
  replace (i_issue_date (issue_row (k, items)), i_source (issue_row (k, items)))
    with k by (symmetry; apply issue_row_key_eq).
  rewrite <- Eitems. split; [reflexivity | assumption].
Qed.

(** ** Groups without a value *)

Lemma qualifying_all_absent {A} (metric : A -> option Q) (weight : A -> Z)
      (items : list A) :
  Forall (fun r => metric r = None) items ->
  Spec.qualifying (map (fun r => (metric r, weight r)) items) = [].
Proof.
  induction 1 as [|r items Hr _ IH]; simpl; [reflexivity|].
  now rewrite Hr.
Qed.

Lemma both_means_absent {A} (metric : A -> option Q) (weight : A -> Z)
      (items : list A) :
  Forall (fun r => metric r = None) items ->
  _mean (map metric items) = None
  /\ _weighted_mean (map (fun r => (metric r, weight r)) items) = None.
Proof.
  intros Hnone. split.
  - apply mean_absent_iff. now apply present_all_absent.
  - apply weighted_mean_absent_iff. now apply qualifying_all_absent.
Qed.

(** C5. For every group of [aggregate_per_issue] and each of the three
    metrics: when no article of the group has a value for the metric, the
    unweighted mean and the weighted mean of the group are both absent.
    The aggregation is a total function, and every line it writes is the
    line of the rows filed under its key. *)
Theorem C5_no_value_no_mean :
  (forall key items,
      let row := issue_row (key, items) in
      (Forall (fun r => gunning_fog r = None) items ->
       gunning_fog_mean row = None /\ gunning_fog_weighted_mean row = None)
      /\ (Forall (fun r => dale_chall r = None) items ->
          dale_chall_mean row = None /\ dale_chall_weighted_mean row = None)
      /\ (Forall (fun r => flesch_reading_ease r = None) items ->
          flesch_reading_ease_mean row = None
          /\ flesch_reading_ease_weighted_mean row = None))
  /\ (forall rows o,
         In o (aggregate_per_issue rows) ->
         o = issue_row (issue_row_key o,
                        rows_of_issue (i_issue_date o) (i_source o) rows)).
Proof.
  split.
  - intros [date src] items. simpl.
    repeat split; try (now apply both_means_absent);
      now apply (both_means_absent _ num_words).
  - intros rows o Hin. now apply aggregate_per_issue_rows.
Qed.

Lemma C5_witness :
  let unscored :=
    mkArticleRow (py "web") (py "u") None None None None
                 (Some (py "2024-01-01")) 0 1 None None None in
  gunning_fog_mean
    (issue_row ((py "2024-01-01", py "web"), [unscored; unscored]))
  = None
  /\ gunning_fog_weighted_mean
       (issue_row ((py "2024-01-01", py "web"), [unscored; unscored]))
     = None.
Proof.
  intros unscored.
  apply (proj1 (proj1 C5_no_value_no_mean (py "2024-01-01", py "web")
                      [unscored; unscored])).
  repeat constructor.
Defined.

(** ** Rows of the from-scratch path *)

Lemma article_row_native_words textstat (src : str) (data : Extracted) :
  Metrics.from_scratch textstat (ex_text data) ->
  let r := article_row textstat src data in
  (gunning_fog r <> None -> (0 < num_words r)%Z)
  /\ (dale_chall r <> None -> (0 < num_words r)%Z)
  /\ (flesch_reading_ease r <> None -> (0 < num_words r)%Z).
Proof.
  intros Hpath. unfold article_row. simpl.
  destruct (MetricsFacts.readability_native_scores textstat (ex_text data) Hpath)
    as (Hnn & Hg & Hd & Hf).
  cbv zeta in Hnn, Hg, Hd, Hf.
  repeat split; intros Hpresent;
    destruct (Z.eq_dec
                (Metrics.num_words
                   (Metrics.readability_metrics textstat (ex_text data))) 0)
      as [E|E]; try lia; exfalso; apply Hpresent; tauto.
Qed.

(** C10. In a group of rows computed by the from-scratch path of
    [readability_metrics], for each of the three metrics the weighted
    mean is absent exactly when the unweighted mean is: a row with a score
    has at least one word, so it enters the weighted mean with a positive
    weight. *)
Theorem C10_means_absent_together (key : str * str) (items : list ArticleRow) :
  Forall (fun r => exists textstat src data,
              Metrics.from_scratch textstat (ex_text data)
              /\ r = article_row textstat src data) items ->
  let row := issue_row (key, items) in
  (gunning_fog_weighted_mean row = None <-> gunning_fog_mean row = None)
  /\ (dale_chall_weighted_mean row = None <-> dale_chall_mean row = None)
  /\ (flesch_reading_ease_weighted_mean row = None
      <-> flesch_reading_ease_mean row = None).
Proof.
  intros Hnative. destruct key as [date src]. simpl.
  repeat split; apply means_absent_together;
    (revert Hnative; apply Forall_impl; intros r (ts & s & data & Hpath & ->);
     now apply article_row_native_words).
Qed.

Lemma C10_witness :
  let data t := mkExtracted (py "u") None None None None
                            (Some (py "2024-01-01")) (py t) in
  let items := [article_row None (py "web") (data "1 2 3"%string);
                article_row None (py "web") (data "A short text."%string)] in
  let row := issue_row ((py "2024-01-01", py "web"), items) in
  gunning_fog_weighted_mean row = None <-> gunning_fog_mean row = None.
Proof.
  intros data items row.
  apply (@C10_means_absent_together (py "2024-01-01", py "web") items).
  repeat constructor; exists None; do 2 eexists; (split; [exact I | reflexivity]).
Defined.

(** ** The grouping key *)

Lemma present_truthy (o : option str) : truthy o = true <-> present_str o.
Proof.
  unfold truthy, present_str. destruct o as [[|c s]|]; simpl; split.
  - discriminate.
  - intros (s & [= <-] & Hne). contradiction.
  - intros _. eexists. split; [reflexivity | discriminate].
  - reflexivity.
  - discriminate.
  - intros (s & E & _). discriminate.
Qed.

Lemma not_present_truthy (o : option str) : truthy o = false <-> ~ present_str o.
Proof.
  rewrite <- present_truthy. destruct (truthy o); split; congruence.
Qed.

Lemma key_date_cases (r : ArticleRow) :
  (present_str (issue_date r) -> key_date r = issue_date r)
  /\ (~ present_str (issue_date r) -> present_str (published r) ->
      key_date r = published r)
  /\ (key_date r = None
      <-> ~ present_str (issue_date r) /\ ~ present_str (published r)).
Proof.
  rewrite <- !not_present_truthy, <- !present_truthy.
  unfold key_date, py_or.
  destruct (truthy (issue_date r)) eqn:Ei.
  - split; [reflexivity|]. split; [discriminate|].
    split; [|intros [? _]; discriminate].
    intros E. rewrite E in Ei. discriminate.
  - split; [discriminate|].
    destruct (truthy (published r)) eqn:Ep.
    + split; [reflexivity|].
      split; [|intros [_ ?]; discriminate].
      intros E. rewrite E in Ep. discriminate.
    + split; [discriminate|]. split; auto.
Qed.

Lemma key_date_nonempty (r : ArticleRow) (d : str) :
  key_date r = Some d -> nonempty d = true.
Proof.
  unfold key_date, py_or.
  destruct (truthy (issue_date r)) eqn:Ei.
  - intros E. rewrite E in Ei. exact Ei.
  - destruct (truthy (published r)) eqn:Ep; [|discriminate].
    intros E. rewrite E in Ep. exact Ep.
Qed.

Lemma issue_key_some (r : ArticleRow) (d : str) :
  key_date r = Some d -> issue_key r = Some (d, source r).
Proof.
  intros E. unfold issue_key. rewrite E.
  now rewrite (key_date_nonempty _ E).
Qed.

Lemma issue_key_none (r : ArticleRow) : key_date r = None -> issue_key r = None.
Proof. intros E. unfold issue_key. now rewrite E. Qed.

Lemma undated_row_skipped (pre post : list ArticleRow) (r : ArticleRow) :
  key_date r = None ->
  aggregate_per_issue (pre ++ r :: post) = aggregate_per_issue (pre ++ post).
Proof.
  intros E. unfold aggregate_per_issue. rewrite !by_issue_fold.
  now rewrite (fold_skip key2_eqb issue_key (fun x => x) pre post r []
                         (issue_key_none _ E)).
Qed.

Lemma dated_row_filed (rows : list ArticleRow) (r : ArticleRow) (d : str) :
  In r rows -> key_date r = Some d ->
  exists o,
    In o (aggregate_per_issue rows)
    /\ i_issue_date o = d /\ i_source o = source r
    /\ In r (rows_of_issue d (source r) rows).
Proof.
  intros Hin Hkey. pose proof (issue_key_some _ Hkey) as Hk.
  destruct (by_issue_grouped rows) as (_ & _ & Hkeys).
  assert (Hmem : In (d, source r) (keys (by_issue rows))).
  { apply Hkeys.
    apply (members_nonempty key2_eqb key2_eqb_eq issue_key (fun x => x)).
    exists r. auto. }
  unfold keys in Hmem. apply in_map_iff in Hmem.
  destruct Hmem as ([k items] & Ek & Hitem). simpl in Ek. subst k.
  exists (issue_row ((d, source r), items)). split; [|split; [|split]].
  - unfold aggregate_per_issue. apply in_map. now apply sorted_items_In.
  - reflexivity.
  - reflexivity.
  - unfold rows_of_issue. apply filter_In. split; [assumption|].
    now apply (has_key_true key2_eqb key2_eqb_eq).
Qed.

(** C6. The grouping key of a row is its [issue_date] when present, else
    its [published] date when present.  A row with a key is filed in the
    issue of that date and of its source; a row with neither date leaves
    the issue table, and so the year table, exactly as they are without
    it; and every row, dated or not, has its line in the per-article
    export. *)
Theorem C6_grouping_key :
  (forall r,
      (present_str (issue_date r) -> key_date r = issue_date r)
      /\ (~ present_str (issue_date r) -> present_str (published r) ->
          key_date r = published r)
      /\ (key_date r = None
          <-> ~ present_str (issue_date r) /\ ~ present_str (published r)))
  /\ (forall rows r d,
         In r rows -> key_date r = Some d ->
         exists o,
           In o (aggregate_per_issue rows)
           /\ i_issue_date o = d /\ i_source o = source r
           /\ In r (rows_of_issue d (source r) rows))
  /\ (forall pre post r,
         ~ present_str (issue_date r) -> ~ present_str (published r) ->
         aggregate_per_issue (pre ++ r :: post)
         = aggregate_per_issue (pre ++ post)
         /\ forall strptime_year,
             aggregate_per_year strptime_year
                                (aggregate_per_issue (pre ++ r :: post))
             = aggregate_per_year strptime_year
                                  (aggregate_per_issue (pre ++ post)))
  /\ (forall rows r,
         In r rows -> In (article_cells r) (write_per_article_csv rows)).
Proof.
  split; [exact key_date_cases|]. split; [exact dated_row_filed|]. split.
  - intros pre post r Hi Hp.
    assert (E : key_date r = None) by (apply key_date_cases; tauto).
    split; [now apply undated_row_skipped|].
    intros strptime_year. now rewrite (undated_row_skipped pre post r E).
  - intros rows r Hin. unfold write_per_article_csv. now apply in_map.
Qed.

Lemma C6_witness :
  let dated :=
    mkArticleRow (py "web") (py "a") None None None
                 (Some (py "2024-03-04")) None 120 9
                 (Some 8) (Some 7) (Some 60) in
  let undated :=
    mkArticleRow (py "web") (py "b") None None None None None 80 5
                 (Some 9) (Some 6) (Some 70) in
  key_date dated = Some (py "2024-03-04")
  /\ aggregate_per_issue [dated; undated] = aggregate_per_issue [dated]
  /\ In (article_cells undated) (write_per_article_csv [dated; undated]).
Proof.
  intros dated undated. split; [|split].
  - apply (proj1 (proj2 (proj1 C6_grouping_key dated))).
    + intros (s & E & _). discriminate.
    + eexists. split; [reflexivity | discriminate].
  - refine (proj1 (proj1 (proj2 (proj2 C6_grouping_key))
                         [dated] [] undated _ _));
      intros (s & E & _); discriminate.
  - apply (proj2 (proj2 (proj2 C6_grouping_key))). simpl. tauto.
Defined.

(** ** The year table *)

Section YearFacts.
Variable strptime_year : str -> option Z.

#[local] Abbreviation year_step :=
  (group_step ykey_eqb (year_key strptime_year) issue_means).

Lemma by_year_from_fold (per_issue : list IssueRow)
      (d : dict (Z * str) IssueMeans) :
  (forall row, In row per_issue -> strptime_year (i_issue_date row) <> None) ->
  by_year_from strptime_year per_issue d = Some (fold_left year_step per_issue d).
Proof.
  revert d. induction per_issue as [|row rest IH]; intros d Hparse; simpl.
  - reflexivity.
  - destruct (strptime_year (i_issue_date row)) as [year|] eqn:E.
    + rewrite IH by (intros r Hr; apply Hparse; now right).
      do 2 f_equal. unfold group_step, year_key. now rewrite E.
    + exfalso. apply (Hparse row); [now left | exact E].
Qed.

(** A date that does not parse stops [aggregate_per_year]. *)
Lemma by_year_from_raises (per_issue : list IssueRow)
      (d : dict (Z * str) IssueMeans) (row : IssueRow) :
  In row per_issue -> strptime_year (i_issue_date row) = None ->
  by_year_from strptime_year per_issue d = None.
Proof.
  revert d. induction per_issue as [|r rest IH]; intros d Hin Hnone;
    [contradiction|]. simpl.
  destruct Hin as [->|Hin]; [now rewrite Hnone|].
  destruct (strptime_year (i_issue_date r)); [now apply IH | reflexivity].
Qed.

Lemma year_row_key_eq (k : Z * str) (items : list IssueMeans) :
  year_row_key (year_row (k, items)) = k.
Proof. now destruct k. Qed.

Lemma issues_of_year_In (year : Z) (src : str) (per_issue : list IssueRow)
      (row : IssueRow) :
  In row (issues_of_year strptime_year year src per_issue)
  <-> In row per_issue
      /\ strptime_year (i_issue_date row) = Some year
      /\ i_source row = src.
Proof.
  unfold issues_of_year. rewrite filter_In.
  rewrite (has_key_true ykey_eqb ykey_eqb_eq). unfold year_key.
  destruct (strptime_year (i_issue_date row)) as [y|].
  - split; [intros [H [= -> ->]]; auto | intros (H & [= ->] & ->); auto].
  - split; [intros [_ E]; discriminate | intros (_ & E & _); discriminate].
Qed.

Lemma aggregate_per_year_spec (per_issue : list IssueRow) :
  (forall row, In row per_issue -> strptime_year (i_issue_date row) <> None) ->
  exists out,
    aggregate_per_year strptime_year per_issue = Some out
    /\ StronglySorted (fun a b => ykey_le (year_row_key a) (year_row_key b)) out
    /\ NoDup (map year_row_key out)
    /\ (forall year src,
           In (year, src) (map year_row_key out)
           <-> issues_of_year strptime_year year src per_issue <> [])
    /\ (forall o,
           In o out ->
           let issues :=
             issues_of_year strptime_year (y_year o) (y_source o) per_issue in
           y_gunning_fog_mean o = _mean (map gunning_fog_mean issues)
           /\ y_dale_chall_mean o = _mean (map dale_chall_mean issues)
           /\ y_flesch_reading_ease_mean o
              = _mean (map flesch_reading_ease_mean issues)).
Proof.
  intros Hparse. unfold aggregate_per_year.
  rewrite (by_year_from_fold per_issue [] Hparse).
  set (by_year := fold_left year_step per_issue []).
  assert (Hg : grouped ykey_eqb (year_key strptime_year) issue_means
                       by_year per_issue).
  { apply (@grouped_fold _ _ _ ykey_eqb ykey_eqb_eq (year_key strptime_year)
                         issue_means per_issue [] []).
    apply grouped_nil. }
  destruct Hg as (Hnd & Hmem & Hkeys).
  assert (Ekeys : map year_row_key (map year_row (sorted_items ykey_leb by_year))
                  = keys (sorted_items ykey_leb by_year)).
  { rewrite map_map. unfold keys. apply map_ext.
    intros [k items]. apply year_row_key_eq. }
  eexists. split; [reflexivity|]. split; [|split; [|split]].
  - apply StronglySorted_map_impl
      with (R := item_le (V := IssueMeans) ykey_leb).
    + intros [k1 i1] [k2 i2] Hle. rewrite !year_row_key_eq.
      now apply ykey_leb_le.
    + apply sorted_items_sorted; [exact ykey_leb_total | exact ykey_leb_trans].
  - rewrite Ekeys. now apply sorted_items_NoDup.
  - intros year src. rewrite Ekeys. split.
    + intros Hin. unfold keys in Hin. apply in_map_iff in Hin.
      destruct Hin as ([k items] & Ek & Hin). simpl in Ek. subst k.
      apply sorted_items_In in Hin.
      destruct (Hmem _ _ Hin) as [Eitems Hne].
      unfold members in Eitems. fold (issues_of_year strptime_year year src per_issue) in Eitems.
      intros Hnil. rewrite Hnil in Eitems. simpl in Eitems. contradiction.
    + intros Hne.
      assert (Hin : In (year, src) (keys by_year)).
      { apply Hkeys. unfold members.
        fold (issues_of_year strptime_year year src per_issue).
        intros E. apply map_eq_nil in E. contradiction. }
      unfold keys in *. apply in_map_iff in Hin.
      destruct Hin as (x & Ex & Hin). apply in_map_iff.
      exists x. split; [assumption | now apply sorted_items_In].
  - intros o Hin. apply in_map_iff in Hin.
    destruct Hin as ([[year src] items] & <- & Hin).
    apply sorted_items_In in Hin.
    destruct (Hmem _ _ Hin) as [Eitems _].
    unfold members in Eitems. simpl.
    fold (issues_of_year strptime_year year src per_issue) in Eitems.
    rewrite Eitems, !map_map. simpl. auto.
Qed.

End YearFacts.

(** C4. [aggregate_per_year] files every issue under (year of its date,
    source), writes one line per key in ascending order of
    (year, source), and gives each metric of a line as the unweighted
    arithmetic mean of the present unweighted means of the issues of that
    key, whatever their numbers of articles; for two issues whose
    [gunning_fog_mean] are 10 and 20 the year mean is 15. *)
Theorem C4_year_aggregation :
  (forall strptime_year per_issue,
      (forall row, In row per_issue ->
                   strptime_year (i_issue_date row) <> None) ->
      exists out,
        aggregate_per_year strptime_year per_issue = Some out
        /\ StronglySorted
             (fun a b => ykey_le (year_row_key a) (year_row_key b)) out
        /\ NoDup (map year_row_key out)
        /\ (forall year src,
               In (year, src) (map year_row_key out)
               <-> exists row,
                   In row per_issue
                   /\ strptime_year (i_issue_date row) = Some year
                   /\ i_source row = src)
        /\ (forall o,
               In o out ->
               let issues :=
                 issues_of_year strptime_year (y_year o) (y_source o)
                                per_issue in
               (forall row,
                   In row issues
                   <-> In row per_issue
                       /\ strptime_year (i_issue_date row) = Some (y_year o)
                       /\ i_source row = y_source o)
               /\ y_gunning_fog_mean o = _mean (map gunning_fog_mean issues)
               /\ y_dale_chall_mean o = _mean (map dale_chall_mean issues)
               /\ y_flesch_reading_ease_mean o
                  = _mean (map flesch_reading_ease_mean issues)))
  /\ (forall values,
         (present values = [] -> _mean values = None)
         /\ (present values <> [] ->
             exists m,
               _mean values = Some m
               /\ m == Spec.arithmetic_mean (present values)))
  /\ (exists o m,
         aggregate_per_year ymd_year two_issues = Some [o]
         /\ y_year o = 2024%Z /\ y_source o = py "magazine"
         /\ y_gunning_fog_mean o = Some m /\ m == 15).
Proof.
  split; [|split].
  - intros strptime_year per_issue Hparse.
    destruct (aggregate_per_year_spec strptime_year per_issue Hparse)
      as (out & Hout & Hsorted & Hnd & Hkeys & Hmeans).
    exists out. repeat (split; [assumption|]). split.
    + intros year src. rewrite Hkeys. split.
      * intros Hne.
        destruct (issues_of_year strptime_year year src per_issue)
          as [|row l] eqn:E; [contradiction|].
        exists row. apply issues_of_year_In. rewrite E. now left.
      * intros (row & Hrow) E. apply issues_of_year_In in Hrow.
        rewrite E in Hrow. contradiction.
    + intros o Hin. split; [intros row; apply issues_of_year_In|].
      now apply Hmeans.
  - intros values. split.
    + apply mean_absent_iff.
    + apply mean_arithmetic.
  - do 2 eexists. split; [reflexivity|]. repeat (split; [reflexivity|]).
    reflexivity.
Qed.

Lemma C4_witness :
  exists out,
    aggregate_per_year ymd_year two_issues = Some out
    /\ NoDup (map year_row_key out).
Proof.
  destruct (proj1 C4_year_aggregation ymd_year two_issues)
    as (out & Hout & _ & Hnd & _).
  - intros row [<-|[<-|[]]]; discriminate.
  - exists out. split; assumption.
Defined.

End AggregationFacts.

(* ================================================================== *)
(** * Properties of the extractor *)

Module ParsingFacts.
Import Parsing StrFacts.

Section Extractor.
Context {node : Type} `{Soup node}.

Lemma collect_from (paras : list str) (ps : list node) :
  fold_left
    (fun paras p =>
       let txt := get_text p (py " ") in
       if nonempty txt && (1 <? len txt)%Z then paras ++ [txt] else paras)
    ps paras
  = paras ++ filter paragraph_ok (map (fun p => get_text p (py " ")) ps).
Proof.
  revert paras. induction ps as [|p ps IH]; intros paras; simpl.
  - now rewrite app_nil_r.
  - rewrite IH. unfold paragraph_ok at 2.
    destruct (nonempty (get_text p (py " "))
              && (1 <? len (get_text p (py " ")))%Z).
    + now rewrite <- app_assoc.
    + reflexivity.
Qed.

Lemma collect_paragraphs_filter (el : node) :
  _collect_paragraphs el
  = filter paragraph_ok (map (fun p => get_text p (py " ")) (select el (py "p"))).
Proof. unfold _collect_paragraphs. now rewrite collect_from. Qed.

Lemma first_container_skip (pre rest : list str) (soup : node) :
  Forall (rejected soup) pre ->
  first_container (pre ++ rest) soup = first_container rest soup.
Proof.
  induction 1 as [|sel pre Hrej _ IH]; simpl; [reflexivity|].
  unfold rejected in Hrej.
  destruct (select_one soup sel) as [container|]; [|exact IH].
  apply Z.leb_gt in Hrej. now rewrite Hrej.
Qed.

Lemma first_container_accept (sel : str) (lower : list str) (soup container : node) :
  select_one soup sel = Some container ->
  (2 <= len (_collect_paragraphs container))%Z ->
  first_container (sel :: lower) soup = Some (_collect_paragraphs container).
Proof.
  intros Hsel Hlen. simpl. rewrite Hsel.
  apply Z.leb_le in Hlen. now rewrite Hlen.
Qed.

Lemma first_container_none (selectors : list str) (soup : node) :
  Forall (rejected soup) selectors -> first_container selectors soup = None.
Proof.
  intros Hrej. rewrite <- (app_nil_r selectors).
  now rewrite first_container_skip.
Qed.

Lemma extract_accepts (pre lower : list str) (sel : str) (soup container : node) :
  Forall (rejected soup) pre ->
  select_one soup sel = Some container ->
  (2 <= len (_collect_paragraphs container))%Z ->
  extract_text_with (pre ++ sel :: lower) soup
  = join blank_line (_collect_paragraphs container).
Proof.
  intros Hpre Hsel Hlen. unfold extract_text_with.
  rewrite first_container_skip by assumption.
  now rewrite (@first_container_accept sel lower soup container Hsel Hlen).
Qed.

Lemma extract_falls_back (selectors : list str) (soup : node) :
  Forall (rejected soup) selectors ->
  extract_text_with selectors soup
  = join blank_line (_collect_paragraphs (body_or_soup soup)).
Proof.
  intros Hrej. unfold extract_text_with.
  now rewrite first_container_none by assumption.
Qed.

Lemma meta_title_cases (soup : node) :
  (forall content,
      og_title_content soup = Some content -> content <> [] ->
      extract_meta_title soup = Some (strip content))
  /\ (og_title_content soup = None \/ og_title_content soup = Some [] ->
      extract_meta_title soup = document_title soup).
Proof.
  unfold og_title_content, extract_meta_title.
  destruct (find_meta_property soup (py "og:title")) as [og|].
  - destruct (tag_get og (py "content")) as [[|c content]|]; split.
    + intros content [= <-] Hne. contradiction.
    + reflexivity.
    + intros content' [= <-] _. reflexivity.
    + intros [E|E]; discriminate.
    + intros content E. discriminate.
    + reflexivity.
  - split; [intros content E; discriminate | reflexivity].
Qed.

End Extractor.

(** C8. Body extraction tries the selectors in order.  The paragraphs of a
    container are the texts of its [p] elements that are non-empty and
    longer than one character.  The first selector whose container holds at
    least two such paragraphs decides the result, whatever selectors come
    after it; when every selector is passed over, the paragraphs are those
    of the document body, or of the whole document when it has no body.
    The text is the paragraphs joined by a blank line, and is empty when
    the fallback finds no paragraph. *)
Theorem C8_body_extraction (node : Type) (S : Soup node) (soup : node) :
  (forall el,
      _collect_paragraphs el
      = filter paragraph_ok
               (map (fun p => get_text p (py " ")) (select el (py "p"))))
  /\ (forall pre sel lower container,
         _BODY_SELECTORS = pre ++ sel :: lower ->
         Forall (rejected soup) pre ->
         select_one soup sel = Some container ->
         (2 <= len (_collect_paragraphs container))%Z ->
         fst (extract_article_text soup)
         = join blank_line (_collect_paragraphs container)
         /\ forall lower',
             extract_text_with (pre ++ sel :: lower') soup
             = join blank_line (_collect_paragraphs container))
  /\ (Forall (rejected soup) _BODY_SELECTORS ->
      fst (extract_article_text soup)
      = join blank_line (_collect_paragraphs (body_or_soup soup))
      /\ (forall b, body soup = Some b -> body_or_soup soup = b)
      /\ (body soup = None -> body_or_soup soup = soup)
      /\ (_collect_paragraphs (body_or_soup soup) = [] ->
          fst (extract_article_text soup) = []))
  /\ (forall p q rest,
         join blank_line (p :: q :: rest)
         = p ++ blank_line ++ join blank_line (q :: rest)).
Proof.
  split; [exact collect_paragraphs_filter|]. split; [|split].
  - intros pre sel lower container Hsels Hpre Hsel Hlen. split.
    + unfold extract_article_text. simpl fst. rewrite Hsels.
      now apply extract_accepts.
    + intros lower'. now apply extract_accepts.
  - intros Hrej. unfold extract_article_text. simpl fst.
    rewrite extract_falls_back by assumption. split; [reflexivity|].
    unfold body_or_soup. split; [|split].
    + intros b ->. reflexivity.
    + intros ->. reflexivity.
    + intros ->. reflexivity.
  - reflexivity.
Qed.

Lemma C8_witness :
  fst (extract_article_text sample_article)
  = py "First paragraph." ++ blank_line ++ py "Second paragraph.".
Proof.
  destruct (proj1 (proj2 (C8_body_extraction dom_soup sample_article)))
    with (pre := @nil str) (sel := py "article")
         (lower := tl _BODY_SELECTORS)
         (container :=
            Elem (py "article") []
              [Elem (py "p") [] [Text (py "First paragraph.")];
               Elem (py "p") [] [Text (py "Second paragraph.")]])
    as [Htext _].
  - reflexivity.
  - constructor.
  - reflexivity.
  - vm_compute. discriminate.
  - rewrite Htext. reflexivity.
Defined.

(** C9, as stated, fails: a whitespace-only open-graph title replaces the
    document title by the empty string. *)
Lemma C9_counterexample :
  ~ (forall (node : Type) (S : Soup node) (soup : node) (content : str),
        og_title_content soup = Some content ->
        Forall (fun c => isspace c = true) content ->
        extract_meta_title soup = document_title soup).
Proof.
  intros Hclaim.
  specialize (Hclaim dom dom_soup blank_og_title (py "   ")).
  assert (E : extract_meta_title blank_og_title = document_title blank_og_title).
  { apply Hclaim; [reflexivity | repeat constructor]. }
  vm_compute in E. discriminate.
Qed.

(** C9, amended.  The title is the trimmed string of the title element,
    absent when the element or its string is missing or empty; the trimmed
    content of the open-graph title tag replaces it whenever the tag has a
    non-empty [content], so a whitespace-only content gives the empty
    title; the document title is kept when the tag or the attribute is
    missing or the content is empty. *)
Theorem C9_meta_title (node : Type) (S : Soup node) (soup : node) :
  (forall content,
      og_title_content soup = Some content -> content <> [] ->
      extract_meta_title soup = Some (strip content))
  /\ (forall content,
         og_title_content soup = Some content -> content <> [] ->
         Forall (fun c => isspace c = true) content ->
         extract_meta_title soup = Some [])
  /\ (og_title_content soup = None \/ og_title_content soup = Some [] ->
      extract_meta_title soup = document_title soup)
  /\ (forall t s,
         soup_title soup = Some t -> tag_string t = Some s -> s <> [] ->
         document_title soup = Some (strip s))
  /\ (soup_title soup = None
      \/ (exists t, soup_title soup = Some t
                    /\ (tag_string t = None \/ tag_string t = Some [])) ->
      document_title soup = None).
Proof.
  destruct (meta_title_cases soup) as [Hover Hkeep].
  split; [exact Hover|]. split; [|split; [exact Hkeep|split]].
  - intros content Hc Hne Hblank.
    rewrite (Hover content Hc Hne). now rewrite (strip_whitespace Hblank).
  - intros t s Ht Hs Hne. unfold document_title. rewrite Ht, Hs.
    destruct s; [contradiction | reflexivity].
  - unfold document_title.
    intros [->|(t & -> & [->| ->])]; reflexivity.
Qed.

Lemma C9_witness :
  extract_meta_title blank_og_title = Some []
  /\ extract_meta_title sample_article = Some (py "Sample Article").
Proof.
  split.
  - apply (proj1 (proj2 (C9_meta_title dom_soup blank_og_title)) (py "   "));
      [reflexivity | discriminate | repeat constructor].
  - rewrite (proj1 (proj2 (proj2 (C9_meta_title dom_soup sample_article))));
      [|left; reflexivity].
    reflexivity.
Defined.

End ParsingFacts.

(* ================================================================== *)
(** * Worked examples *)

Module Examples.
Import Metrics Parsing.

Example tokenize_words :
  _tokenize_words (py "It's 2 cats, isn't it?")
  = [py "It's"; py "cats"; py "isn't"; py "it"].
Proof. reflexivity. Qed.

Example count_sentences :
  map _count_sentences [py "The cat sat on the mat. It was sunny."; py "Wait... what?! "; py "no stop"; py "..."]
  = [2; 2; 1; 1]%Z.
Proof. reflexivity. Qed.

Example count_syllables :
  map _count_syllables_in_word
      [py "make"; py "table"; py "be"; py "Readability"; py "the"; py "rhythm"]
  = [1; 2; 1; 5; 1; 1]%Z.
Proof. reflexivity. Qed.

(** [test_readability_metrics_basic] *)
Example readability_metrics_basic :
  let m := readability_metrics None (py "The cat sat on the mat. It was sunny.") in
  (6 <= num_words m)%Z /\ (2 <= num_sentences m)%Z
  /\ gunning_fog m <> None /\ dale_chall m <> None
  /\ flesch_reading_ease m <> None.
Proof. vm_compute. repeat split; discriminate. Qed.

Example readability_metrics_no_word :
  readability_metrics None (py "12 + 34.") = mkMetrics None None None 0 1.
Proof. reflexivity. Qed.

(** Two articles of one issue with Gunning Fog 5 and 15 and 10 and 90
    words: unweighted mean 10, weighted mean 14. *)
Example issue_of_two_articles :
  let art g n :=
    Aggregation.mkArticleRow (py "magazine") (py "u") None None None None
      (Some (py "2024-01-01")) n 1 (Some g) None None in
  exists o m mw,
    Aggregation.aggregate_per_issue [art 5 10%Z; art 15 90%Z] = [o]
    /\ Aggregation.num_articles o = 2%Z
    /\ Aggregation.total_words o = 100%Z
    /\ Aggregation.gunning_fog_mean o = Some m /\ m == 10
    /\ Aggregation.gunning_fog_weighted_mean o = Some mw /\ mw == 14
    /\ Aggregation.dale_chall_mean o = None
    /\ Aggregation.dale_chall_weighted_mean o = None.
Proof.
  do 3 eexists. split; [reflexivity|].
  repeat (split; [reflexivity|]). reflexivity.
Qed.

(** The issue table is sorted by date, then by source. *)
Example issues_sorted :
  let art d s :=
    Aggregation.mkArticleRow (py s) (py "u") None None None None
      (Some (py d)) 10 1 (Some 5) None None in
  map AggSpec.issue_row_key
      (Aggregation.aggregate_per_issue
         [art "2024-02-05" "web"; art "2024-01-01" "web";
          art "2024-02-05" "magazine"; art "2024-01-01" "web"]%string)
  = [(py "2024-01-01", py "web"); (py "2024-02-05", py "magazine");
     (py "2024-02-05", py "web")].
Proof. reflexivity. Qed.

Example ymd_year_examples :
  map AggSpec.ymd_year
      [py "2024-02-29"; py "2023-02-29"; py "2024-13-01"; py "24-01-01"]
  = [Some 2024%Z; None; None; None].
Proof. reflexivity. Qed.

(** [test_parsing_extracts_title_and_text] *)
Example parsing_extracts_title_and_text :
  Parsing.extract_article_text Parsing.sample_article
  = (py "First paragraph." ++ Parsing.blank_line ++ py "Second paragraph.",
     Some (py "Sample Article")).
Proof. reflexivity. Qed.

(** No structural container: the paragraphs of the body are collected. *)
Example parsing_falls_back_to_body :
  let page :=
    Parsing.Elem (py "[document]") []
      [Parsing.Elem (py "html") []
         [Parsing.Elem (py "body") []
            [Parsing.Elem (py "p") [] [Parsing.Text (py "One.")];
             Parsing.Elem (py "div") []
               [Parsing.Elem (py "p") [] [Parsing.Text (py " x ")];
                Parsing.Elem (py "p") [] [Parsing.Text (py "Two.")]]]]] in
  fst (Parsing.extract_article_text page)
  = py "One." ++ Parsing.blank_line ++ py "Two.".
Proof. reflexivity. Qed.

End Examples.

(* ================================================================== *)
(** * Stripping and replacing characters *)

Module StripFacts.
Import Utils StrFacts.

Section Trim.
Variable p : char -> bool.

#[local] Abbreviation trimmed_left := (trimmed_left p).

Lemma dropwhile_trimmed (s : str) : trimmed_left (dropwhile p s).
Proof.
  induction s as [|c s IH]; simpl; [exact I|].
  destruct (p c) eqn:E; [exact IH | exact E].
Qed.

Lemma dropwhile_fixed (s : str) : trimmed_left s -> dropwhile p s = s.
Proof. destruct s as [|c s]; simpl; [reflexivity|]. now intros ->. Qed.

Lemma dropwhile_idem (s : str) : dropwhile p (dropwhile p s) = dropwhile p s.
Proof. apply dropwhile_fixed, dropwhile_trimmed. Qed.

Lemma rstrip_chars_split (s : str) :
  exists ws, Forall (fun c => p c = true) ws /\ s = rstrip_chars p s ++ ws.
Proof.
  unfold rstrip_chars.
  destruct (dropwhile_split p (rev s)) as [ws [Hws Hs]].
  exists (rev ws). split; [now apply Forall_rev|].
  rewrite <- rev_app_distr, <- Hs. now rewrite rev_involutive.
Qed.

Lemma rstrip_chars_trimmed_right (s : str) :
  trimmed_left (rev (rstrip_chars p s)).
Proof.
  unfold rstrip_chars. rewrite rev_involutive. apply dropwhile_trimmed.
Qed.

Lemma rstrip_chars_keeps_left (s : str) :
  trimmed_left s -> trimmed_left (rstrip_chars p s).
Proof.
  intros Hs. destruct (rstrip_chars_split s) as [ws [_ E]].
  destruct (rstrip_chars p s) as [|c v]; [exact I|].
  rewrite E in Hs. exact Hs.
Qed.

Lemma rstrip_chars_fixed (s : str) :
  trimmed_left (rev s) -> rstrip_chars p s = s.
Proof.
  intros Hs. unfold rstrip_chars.
  now rewrite (dropwhile_fixed _ Hs), rev_involutive.
Qed.

Lemma strip_chars_trimmed (s : str) :
  trimmed_left (strip_chars p s) /\ trimmed_left (rev (strip_chars p s)).
Proof.
  unfold strip_chars, lstrip_chars. split.
  - apply rstrip_chars_keeps_left, dropwhile_trimmed.
  - apply rstrip_chars_trimmed_right.
Qed.

Lemma strip_chars_fixed (s : str) :
  trimmed_left s -> trimmed_left (rev s) -> strip_chars p s = s.
Proof.
  intros Hl Hr. unfold strip_chars, lstrip_chars.
  rewrite (dropwhile_fixed _ Hl). now apply rstrip_chars_fixed.
Qed.

Lemma strip_chars_idem (s : str) :
  strip_chars p (strip_chars p s) = strip_chars p s.
Proof.
  destruct (strip_chars_trimmed s). now apply strip_chars_fixed.
Qed.

Lemma firstn_trimmed (n : nat) (s : str) :
  trimmed_left s -> trimmed_left (firstn n s).
Proof. destruct n, s; simpl; auto. Qed.

Lemma Forall_dropwhile (P : char -> Prop) (s : str) :
  Forall P s -> Forall P (dropwhile p s).
Proof.
  induction 1 as [|c s Hc Hs IH]; simpl; [constructor|].
  destruct (p c); [exact IH | now constructor].
Qed.

Lemma Forall_rstrip_chars (P : char -> Prop) (s : str) :
  Forall P s -> Forall P (rstrip_chars p s).
Proof.
  intros Hs. unfold rstrip_chars.
  apply Forall_rev, Forall_dropwhile, Forall_rev, Hs.
Qed.

Lemma Forall_strip_chars (P : char -> Prop) (s : str) :
  Forall P s -> Forall P (strip_chars p s).
Proof.
  intros Hs. unfold strip_chars, lstrip_chars.
  now apply Forall_rstrip_chars, Forall_dropwhile.
Qed.

Lemma Forall_firstn_str (P : char -> Prop) (n : nat) (s : str) :
  Forall P s -> Forall P (firstn n s).
Proof.
  intros Hs. revert n. induction Hs as [|c s Hc _ IH]; intros [|n]; simpl;
    constructor; auto.
Qed.

Lemma length_dropwhile (s : str) :
  (List.length (dropwhile p s) <= List.length s)%nat.
Proof.
  induction s as [|c s IH]; simpl; [lia|].
  destruct (p c); simpl; lia.
Qed.

Lemma length_rstrip_chars (s : str) :
  (List.length (rstrip_chars p s) <= List.length s)%nat.
Proof.
  unfold rstrip_chars. rewrite length_rev.
  pose proof (length_dropwhile (rev s)) as H. now rewrite length_rev in H.
Qed.

End Trim.

Lemma rstrip_chars_app_run (p : char -> bool) (s ws : str) :
  Forall (fun c => p c = true) ws ->
  rstrip_chars p (s ++ ws) = rstrip_chars p s.
Proof.
  intros Hws. unfold rstrip_chars. rewrite rev_app_distr. f_equal.
  apply Forall_rev in Hws. induction Hws as [|c r Hc _ IH]; simpl;
    [reflexivity|]. now rewrite Hc.
Qed.

Lemma lstrip_chars_app_run (p : char -> bool) (ws s : str) :
  Forall (fun c => p c = true) ws ->
  lstrip_chars p (ws ++ s) = lstrip_chars p s.
Proof.
  unfold lstrip_chars. induction 1 as [|c r Hc _ IH]; simpl; [reflexivity|].
  now rewrite Hc.
Qed.

Lemma dropwhile_app_run (p : char -> bool) (s ws : str) :
  Forall (fun c => p c = true) ws ->
  dropwhile p (s ++ ws)
  = match dropwhile p s with [] => [] | _ => dropwhile p s ++ ws end.
Proof.
  intros Hws. induction s as [|c s IH]; simpl.
  - now apply dropwhile_all.
  - destruct (p c); [exact IH | reflexivity].
Qed.

Lemma strip_chars_pad (p : char -> bool) (left s right : str) :
  Forall (fun c => p c = true) left ->
  Forall (fun c => p c = true) right ->
  strip_chars p (left ++ s ++ right) = strip_chars p s.
Proof.
  intros Hl Hr. unfold strip_chars.
  rewrite lstrip_chars_app_run by assumption. unfold lstrip_chars.
  rewrite dropwhile_app_run by assumption.
  destruct (dropwhile p s) as [|c t] eqn:E; [reflexivity|].
  now rewrite rstrip_chars_app_run by assumption.
Qed.

Lemma strip_is_strip_chars (s : str) : strip s = strip_chars isspace s.
Proof. reflexivity. Qed.

Lemma strip_idem (s : str) : strip (strip s) = strip s.
Proof. rewrite !strip_is_strip_chars. apply strip_chars_idem. Qed.

(** Replacing the runs of a class that does not occur changes nothing. *)
Lemma sub_runs_absent cls repl (s : str) (inrun : bool) :
  Forall (fun c => cls c = false) s -> sub_runs cls repl s inrun = s.
Proof.
  intros Hs. revert inrun.
  induction Hs as [|c s Hc _ IH]; intros inrun; simpl; [reflexivity|].
  now rewrite Hc, IH.
Qed.

(** After the replacement no character of the class is left, when the
    replacement itself has none. *)
Lemma sub_runs_clean cls repl (s : str) (inrun : bool) :
  Forall (fun c => cls c = false) repl ->
  Forall (fun c => cls c = false) (sub_runs cls repl s inrun).
Proof.
  intros Hrepl. revert inrun.
  induction s as [|c s IH]; intros inrun; simpl; [constructor|].
  destruct (cls c) eqn:Hc.
  - destruct inrun; [apply IH|]. apply Forall_app. split; [exact Hrepl | apply IH].
  - constructor; [exact Hc | apply IH].
Qed.

End StripFacts.

(* ================================================================== *)
(** * Properties of [rl/utils.py] *)

Module UtilsFacts.
Import Utils StrFacts StripFacts.

Ltac bools H :=
  repeat first
    [ apply orb_prop in H; destruct H as [H|H]
    | apply andb_prop in H; destruct H as [? H] ];
  repeat match goal with
         | X : (_ <=? _)%N = true |- _ => apply N.leb_le in X
         | X : (_ =? _)%N = true |- _ => apply N.eqb_eq in X
         end.

Lemma slug_char_not_space (c : char) : slug_char c = true -> isspace c = false.
Proof.
  intros Hs. apply not_true_is_false. intros Hw.
  unfold slug_char, is_lower, is_digit, is_dash, in_range in Hs.
  unfold isspace, in_range in Hw.
  bools Hs; bools Hw; lia.
Qed.

Lemma slug_char_lower (c : char) : slug_char c = true -> lower_char c = c.
Proof.
  intros Hs. unfold lower_char.
  destruct (is_upper c) eqn:Hu; [|reflexivity]. exfalso.
  unfold slug_char, is_lower, is_digit, is_dash, in_range in Hs.
  unfold is_upper, in_range in Hu.
  bools Hs; bools Hu; lia.
Qed.

Lemma slug_char_safe (c : char) : slug_char c = true -> safe_char c = true.
Proof.
  unfold slug_char, safe_char. intros Hs.
  apply orb_prop in Hs. destruct Hs as [Hs|Hs].
  - apply orb_prop in Hs. destruct Hs as [->| ->]; simpl;
      rewrite ?orb_true_r; reflexivity.
  - unfold is_dash in Hs. rewrite Hs. now rewrite !orb_true_r.
Qed.

Lemma untitled_slug : slug (py "untitled").
Proof.
  repeat split; try discriminate; try reflexivity.
  repeat constructor.
Qed.

Lemma negb_false_Forall (s : str) :
  Forall (fun c => negb (slug_char c) = false) s
  <-> Forall (fun c => slug_char c = true) s.
Proof.
  split; apply Forall_impl; intros c; destruct (slug_char c); simpl; congruence.
Qed.

Lemma slugify_slug (text : str) (max_len : Z) : slug (slugify text max_len).
Proof.
  unfold slugify.
  set (t2 := re_sub isspace (py "-") (lower (strip text))).
  set (t3 := re_sub (fun c => negb (slug_char c)) (py "-") t2).
  set (t4 := strip_chars is_dash t3).
  assert (H3 : Forall (fun c => slug_char c = true) t3).
  { apply negb_false_Forall. unfold t3, re_sub. apply sub_runs_clean.
    repeat constructor. }
  assert (H4 : Forall (fun c => slug_char c = true) t4)
    by now apply Forall_strip_chars.
  destruct (strip_chars_trimmed is_dash t3) as [Hl Hr]. fold t4 in Hl, Hr.
  set (t5 := if (max_len <? len t4)%Z
             then rstrip_chars is_dash (slice_to t4 max_len) else t4).
  assert (H5 : Forall (fun c => slug_char c = true) t5
               /\ trimmed_left is_dash t5 /\ trimmed_left is_dash (rev t5)).
  { unfold t5. destruct (max_len <? len t4)%Z; [|auto].
    assert (Hs : Forall (fun c => slug_char c = true) (slice_to t4 max_len)
                 /\ trimmed_left is_dash (slice_to t4 max_len)).
    { unfold slice_to. destruct (0 <=? max_len)%Z;
        (split; [now apply Forall_firstn_str | now apply firstn_trimmed]). }
    destruct Hs as [Hs1 Hs2]. split; [now apply Forall_rstrip_chars|].
    split; [now apply rstrip_chars_keeps_left|].
    apply rstrip_chars_trimmed_right. }
  destruct H5 as (Ha & Hb & Hc).
  destruct t5 as [|c t5'] eqn:E; simpl nonempty; cbv iota.
  - apply untitled_slug.
  - repeat split; [exact Ha | discriminate | exact Hb | exact Hc].
Qed.

Lemma slugify_length (text : str) (max_len : Z) :
  (0 <= max_len)%Z -> (len (slugify text max_len) <= Z.max max_len 8)%Z.
Proof.
  intros Hm. unfold slugify.
  set (t4 := strip_chars is_dash _).
  set (t5 := if (max_len <? len t4)%Z
             then rstrip_chars is_dash (slice_to t4 max_len) else t4).
  assert (H5 : (len t5 <= max_len)%Z).
  { unfold t5. destruct (Z.ltb_spec max_len (len t4)) as [Hlt|Hge]; [|lia].
    unfold slice_to. destruct (Z.leb_spec 0 max_len); [|lia].
    unfold len.
    pose proof (length_rstrip_chars is_dash (firstn (Z.to_nat max_len) t4)).
    pose proof (firstn_le_length (Z.to_nat max_len) t4).
    rewrite length_firstn in *. lia. }
  destruct t5; simpl nonempty; cbv iota; [|lia].
  change (len (py "untitled")) with 8%Z. lia.
Qed.

(** A slug that fits is its own slug. *)
Lemma slugify_fixed (s : str) (max_len : Z) :
  slug s -> (len s <= max_len)%Z -> slugify s max_len = s.
Proof.
  intros (Hchars & Hne & Hl & Hr) Hlen. unfold slugify.
  assert (Hsp : Forall (fun c => isspace c = false) s).
  { revert Hchars. apply Forall_impl. exact slug_char_not_space. }
  assert (Hstrip : strip s = s).
  { rewrite strip_is_strip_chars. apply strip_chars_fixed.
    - destruct s as [|c s']; [exact I|]. simpl. now inversion Hsp.
    - apply Forall_rev in Hsp. destruct (rev s) as [|c s']; [exact I|].
      simpl. now inversion Hsp. }
  assert (Hlower : lower s = s).
  { unfold lower. clear - Hchars.
    induction Hchars as [|c s Hc _ IH]; simpl; [reflexivity|].
    now rewrite IH, (slug_char_lower _ Hc). }
  rewrite Hstrip, Hlower. unfold re_sub.
  rewrite (sub_runs_absent _ _ false Hsp).
  rewrite (sub_runs_absent _ _ false (proj2 (negb_false_Forall s) Hchars)).
  rewrite (strip_chars_fixed _ _ Hl Hr).
  destruct (Z.ltb_spec max_len (len s)); [lia|].
  destruct s; [contradiction | reflexivity].
Qed.

(** X15. Whatever the title, [slugify] returns a non-empty name made only
    of [a-z], [0-9] and [-], with no dash at either end; when [max_len] is
    not negative the name has at most [max(max_len, 8)] characters, 8 being
    the length of the default ["untitled"]. *)
Theorem X15_slugify_shape (text : str) (max_len : Z) :
  Forall (fun c => is_ascii c = true) text ->
  let s := slugify text max_len in
  s <> []
  /\ Forall (fun c => slug_char c = true) s
  /\ startswith (py "-") s = false
  /\ endswith s (py "-") = false
  /\ ((0 <= max_len)%Z -> (len s <= Z.max max_len 8)%Z).
Proof.
  intros _ s. destruct (slugify_slug text max_len) as (Hc & Hne & Hl & Hr).
  fold s in Hc, Hne, Hl, Hr.
  split; [exact Hne|]. split; [exact Hc|]. split; [|split].
  - destruct s as [|c s']; [contradiction|].
    change (py "-") with [45%N]. cbn [startswith].
    unfold Utils.trimmed_left, is_dash in Hl.
    now rewrite N.eqb_sym, Hl.
  - unfold endswith. change (rev (py "-")) with [45%N].
    destruct (rev s) as [|c r]; [reflexivity|]. cbn [startswith].
    unfold Utils.trimmed_left, is_dash in Hr.
    now rewrite N.eqb_sym, Hr.
  - apply slugify_length.
Qed.

Lemma X15_witness :
  slugify (py "  Hello, World!  ") 80 <> []
  /\ (len (slugify (py "A very long title indeed") 10) <= 10)%Z.
Proof.
  destruct (@X15_slugify_shape (py "  Hello, World!  ") 80) as (Hne & _);
    [repeat constructor|].
  destruct (@X15_slugify_shape (py "A very long title indeed") 10)
    as (_ & _ & _ & _ & Hlen); [repeat constructor|].
  split; [exact Hne|]. apply Hlen. lia.
Defined.

(** X16. [slugify] is idempotent for every [max_len] of at least 8: the slug
    of a slug is the slug itself. *)
Theorem X16_slugify_idempotent (text : str) (max_len : Z) :
  Forall (fun c => is_ascii c = true) text ->
  (8 <= max_len)%Z ->
  slugify (slugify text max_len) max_len = slugify text max_len.
Proof.
  intros _ Hm. apply slugify_fixed; [apply slugify_slug|].
  pose proof (@slugify_length text max_len). lia.
Qed.

Lemma X16_witness :
  slugify (slugify (py "The New Yorker: Fiction & Poetry") 80) 80
  = slugify (py "The New Yorker: Fiction & Poetry") 80.
Proof.
  apply X16_slugify_idempotent; [repeat constructor | lia].
Defined.

Lemma safe_filename_fixed (path : str) :
  Forall (fun c => safe_char c = true) path -> safe_filename path = path.
Proof.
  unfold safe_filename.
  induction 1 as [|c s Hc _ IH]; simpl; [reflexivity|].
  now rewrite Hc, IH.
Qed.

Lemma safe_filename_safe (path : str) :
  Forall (fun c => safe_char c = true) (safe_filename path).
Proof.
  unfold safe_filename. apply Forall_map.
  apply Forall_forall. intros c _.
  destruct (safe_char c) eqn:E; [exact E | reflexivity].
Qed.

(** X17. [safe_filename] keeps the length of the path and every character
    of [a-zA-Z0-9._-/], turns every other character into [_], and is
    idempotent.  On the file name that [_save_raw_and_extracted] builds
    from a slug it changes nothing: the artifact of an article is
    [slug + ".json"]. *)
Theorem X17_safe_filename :
  (forall path,
      len (safe_filename path) = len path
      /\ Forall (fun c => safe_char c = true) (safe_filename path)
      /\ safe_filename (safe_filename path) = safe_filename path)
  /\ (forall path, Forall (fun c => safe_char c = true) path ->
                   safe_filename path = path)
  /\ (forall text max_len,
         Forall (fun c => is_ascii c = true) text ->
         safe_filename (slugify text max_len ++ py ".json")
         = slugify text max_len ++ py ".json"
         /\ safe_filename (slugify text max_len ++ py ".html")
            = slugify text max_len ++ py ".html").
Proof.
  split; [|split].
  - intros path. split; [|split].
    + unfold safe_filename. apply len_map.
    + apply safe_filename_safe.
    + apply safe_filename_fixed, safe_filename_safe.
  - exact safe_filename_fixed.
  - intros text max_len _.
    assert (Hs : Forall (fun c => safe_char c = true) (slugify text max_len)).
    { destruct (slugify_slug text max_len) as [Hc _].
      revert Hc. apply Forall_impl. exact slug_char_safe. }
    split; apply safe_filename_fixed; apply Forall_app;
      (split; [exact Hs | repeat constructor]).
Qed.

Lemma X17_witness :
  safe_filename (slugify (py "Hello, World!") 80 ++ py ".json")
  = py "hello--world.json".
Proof.
  rewrite (proj1 (proj2 (proj2 X17_safe_filename) (py "Hello, World!") 80%Z
                        ltac:(repeat constructor))).
  reflexivity.
Defined.

Lemma sub_runs_app_clean cls repl (a s : str) :
  Forall (fun c => cls c = false) a ->
  sub_runs cls repl (a ++ s) false = a ++ sub_runs cls repl s false.
Proof.
  induction 1 as [|c a Hc _ IH]; simpl; [reflexivity|].
  now rewrite Hc, IH.
Qed.

Lemma sub_runs_after_run cls repl (s : str) :
  Forall (fun c => cls c = false) s -> sub_runs cls repl s true = s.
Proof. apply sub_runs_absent. Qed.

Lemma alnum_slug_lower (c : char) :
  alnum c = true -> slug_char (lower_char c) = true /\ is_dash (lower_char c) = false.
Proof.
  unfold alnum, slug_char, lower_char, is_lower, is_upper, is_digit, is_dash,
    in_range. intros Ha.
  destruct ((65 <=? c)%N && (c <=? 90)%N) eqn:Hu.
  - apply andb_prop in Hu. destruct Hu as [H1 H2].
    apply N.leb_le in H1, H2.
    replace ((97 <=? c + 32)%N) with true by (symmetry; apply N.leb_le; lia).
    replace ((c + 32 <=? 122)%N) with true by (symmetry; apply N.leb_le; lia).
    split; [reflexivity|]. apply N.eqb_neq. lia.
  - rewrite orb_false_r in Ha. split.
    + apply orb_prop in Ha. destruct Ha as [-> | ->]; simpl;
        rewrite ?orb_true_r; reflexivity.
    + apply N.eqb_neq. bools Ha; lia.
Qed.

Lemma lower_alnum (a : str) :
  Forall (fun c => alnum c = true) a ->
  Forall (fun c => slug_char c = true) (lower a)
  /\ Forall (fun c => is_dash c = false) (lower a).
Proof.
  unfold lower. induction 1 as [|c a Hc _ [IH1 IH2]]; simpl.
  - split; constructor.
  - destruct (alnum_slug_lower _ Hc). split; now constructor.
Qed.

(** X18. [slugify] does not merge the dash that replaces a punctuation mark
    with the dash that replaces the whitespace after it: two words of
    letters and digits separated by such a pair come out joined by two
    dashes, so the slug of ["Hello, World"] is ["hello--world"]. *)
Theorem X18_slugify_double_dash (a b : str) (mark space : char) (max_len : Z) :
  a <> [] -> b <> [] ->
  Forall (fun c => alnum c = true) a ->
  Forall (fun c => alnum c = true) b ->
  is_ascii mark = true -> isspace mark = false ->
  slug_char (lower_char mark) = false ->
  is_ascii space = true -> isspace space = true ->
  (len a + len b + 2 <= max_len)%Z ->
  slugify (a ++ [mark; space] ++ b) max_len = lower a ++ py "--" ++ lower b.
Proof.
  intros Ha Hb Haa Hab _ Hmark Hmark' _ Hspace Hlen.
  destruct (lower_alnum Haa) as [Hsa Hda], (lower_alnum Hab) as [Hsb Hdb].
  assert (Hnsa : Forall (fun c => isspace c = false) (lower a))
    by (revert Hsa; apply Forall_impl; exact slug_char_not_space).
  assert (Hnsb : Forall (fun c => isspace c = false) (lower b))
    by (revert Hsb; apply Forall_impl; exact slug_char_not_space).
  assert (Hasp : forall c, alnum c = true -> isspace c = false).
  { intros c Hc. destruct (alnum_slug_lower _ Hc) as [Hs _].
    apply slug_char_not_space in Hs. apply not_true_is_false. intros Hw.
    unfold lower_char in Hs. destruct (is_upper c) eqn:Hu; [|congruence].
    unfold isspace, in_range in Hw. unfold is_upper, in_range in Hu.
    bools Hw; bools Hu; lia. }
  assert (Hstrip : strip (a ++ [mark; space] ++ b) = a ++ [mark; space] ++ b).
  { rewrite strip_is_strip_chars. apply strip_chars_fixed.
    - destruct a as [|c a']; [contradiction|]. simpl.
      apply Hasp. now inversion Haa.
    - rewrite !rev_app_distr. apply Forall_rev in Hab.
      destruct (rev b) as [|c b'] eqn:E.
      + apply (f_equal (@rev _)) in E. rewrite rev_involutive in E.
        simpl in E. contradiction.
      + simpl. apply Hasp. now inversion Hab. }
  assert (Hlowmark : lower_char space = space).
  { unfold lower_char. destruct (is_upper space) eqn:Hu; [|reflexivity].
    exfalso. unfold isspace, in_range in Hspace. unfold is_upper, in_range in Hu.
    bools Hspace; bools Hu; lia. }
  assert (Hmarksp : isspace (lower_char mark) = false).
  { unfold lower_char. destruct (is_upper mark) eqn:Hu; [|exact Hmark].
    apply not_true_is_false. intros Hw.
    unfold isspace, in_range in Hw. unfold is_upper, in_range in Hu.
    bools Hw; bools Hu; lia. }
  set (la := lower a) in *. set (lb := lower b) in *.
  assert (E1 : lower (a ++ [mark; space] ++ b)
               = la ++ [lower_char mark; space] ++ lb).
  { unfold lower, la, lb. rewrite !map_app. cbn [map]. now rewrite Hlowmark. }
  assert (E2 : re_sub isspace (py "-") (la ++ [lower_char mark; space] ++ lb)
               = la ++ [lower_char mark; 45%N] ++ lb).
  { unfold re_sub. rewrite (sub_runs_app_clean _ _ _ Hnsa).
    cbn [app sub_runs]. rewrite Hmarksp, Hspace.
    now rewrite (sub_runs_after_run _ _ Hnsb). }
  assert (E3 : re_sub (fun c => negb (slug_char c)) (py "-")
                      (la ++ [lower_char mark; 45%N] ++ lb)
               = la ++ py "--" ++ lb).
  { unfold re_sub.
    rewrite (sub_runs_app_clean _ _ _ (proj2 (negb_false_Forall _) Hsa)).
    cbn [app sub_runs]. rewrite Hmark'. cbn [negb].
    change (slug_char 45%N) with true. cbn [negb].
    now rewrite (sub_runs_absent _ _ false (proj2 (negb_false_Forall _) Hsb)). }
  assert (Hla : la <> []).
  { unfold la, lower. intros E. apply map_eq_nil in E. contradiction. }
  assert (Hlb : lb <> []).
  { unfold lb, lower. intros E. apply map_eq_nil in E. contradiction. }
  assert (E4 : strip_chars is_dash (la ++ py "--" ++ lb) = la ++ py "--" ++ lb).
  { apply strip_chars_fixed.
    - destruct la as [|c la']; [contradiction|]. simpl. now inversion Hda.
    - rewrite !rev_app_distr. apply Forall_rev in Hdb.
      destruct (rev lb) as [|c lb'] eqn:E.
      + apply (f_equal (@rev _)) in E. rewrite rev_involutive in E.
        simpl in E. contradiction.
      + simpl. now inversion Hdb. }
  assert (Hl : len (la ++ py "--" ++ lb) = (len a + len b + 2)%Z).
  { unfold len, la, lb, lower. rewrite !length_app, !length_map. simpl. lia. }
  unfold slugify. cbv zeta. rewrite Hstrip, E1, E2, E3, E4.
  destruct (Z.ltb_spec max_len (len (la ++ py "--" ++ lb))); [lia|].
  destruct la; [contradiction | reflexivity].
Qed.

Lemma X18_witness :
  slugify (py "Hello, World") 80 = py "hello--world".
Proof.
  apply (@X18_slugify_double_dash (py "Hello") (py "World") 44%N 32%N 80%Z);
    try discriminate; try reflexivity; repeat constructor.
Defined.

End UtilsFacts.

(* ================================================================== *)
(** * Properties of [rl/ny_scraper.py] *)

Module ScraperFacts.
Import Utils Parsing Scraper StrFacts StripFacts ParsingFacts.

Lemma startswith_http_cons (href : str) :
  startswith (py "http") (47%N :: href) = false.
Proof. reflexivity. Qed.

(** X19. [_abs] returns an [href] that starts with ["http"] unchanged.  Any
    other [href] is appended to the base with exactly one slash between
    them: the part taken from the base does not end with a slash, the part
    taken from the [href] does not start with one, and slashes added at the
    end of the base or at the start of the [href] do not change the
    result. *)
Theorem X19_abs_join (base href : str) :
  (startswith (py "http") href = true -> _abs base href = href)
  /\ (startswith (py "http") href = false ->
      exists b h,
        _abs base href = b ++ py "/" ++ h
        /\ endswith b (py "/") = false
        /\ startswith (py "/") h = false
        /\ (exists slashes, Forall (fun c => is_slash c = true) slashes
                            /\ base = b ++ slashes)
        /\ (exists slashes, Forall (fun c => is_slash c = true) slashes
                            /\ href = slashes ++ h))
  /\ (startswith (py "http") href = false ->
      forall slashes,
        Forall (fun c => is_slash c = true) slashes ->
        _abs (base ++ slashes) href = _abs base href
        /\ (slashes <> [] -> _abs base (slashes ++ href) = _abs base href)).
Proof.
  unfold _abs. split; [now intros ->|]. split.
  - intros ->.
    exists (rstrip_chars is_slash base), (lstrip_chars is_slash href).
    split; [reflexivity|]. split; [|split; [|split]].
    + unfold endswith. change (rev (py "/")) with [47%N].
      pose proof (rstrip_chars_trimmed_right is_slash base) as Ht.
      destruct (rev (rstrip_chars is_slash base)) as [|c r]; [reflexivity|].
      cbn [startswith]. unfold Utils.trimmed_left, is_slash in Ht.
      now rewrite N.eqb_sym, Ht.
    + change (py "/") with [47%N].
      pose proof (dropwhile_trimmed is_slash href) as Ht.
      unfold lstrip_chars.
      destruct (dropwhile is_slash href) as [|c r]; [reflexivity|].
      cbn [startswith]. unfold Utils.trimmed_left, is_slash in Ht.
      now rewrite N.eqb_sym, Ht.
    + destruct (rstrip_chars_split is_slash base) as [ws [Hws E]].
      now exists ws.
    + destruct (dropwhile_split is_slash href) as [ws [Hws E]].
      now exists ws.
  - intros Hrel slashes Hs. rewrite Hrel. split.
    + now rewrite rstrip_chars_app_run.
    + intros Hne.
      assert (Hrel' : startswith (py "http") (slashes ++ href) = false).
      { destruct Hs as [|c r Hc _]; [contradiction|].
        unfold is_slash in Hc. apply N.eqb_eq in Hc. subst c. reflexivity. }
      rewrite Hrel'. now rewrite lstrip_chars_app_run.
Qed.

Lemma X19_witness :
  _abs (py "https://www.newyorker.com" ++ py "//") (py "/magazine/2024/01/01")
  = py "https://www.newyorker.com/magazine/2024/01/01"
  /\ _abs (py "https://www.newyorker.com") (py "https://example.org/a")
     = py "https://example.org/a".
Proof.
  split.
  - rewrite (proj1 (proj2 (proj2 (X19_abs_join (py "https://www.newyorker.com")
                                               (py "/magazine/2024/01/01")))
                          eq_refl (py "//") ltac:(repeat constructor))).
    reflexivity.
  - apply (proj1 (X19_abs_join _ _)). reflexivity.
Defined.

Section Fetch.
Context {node : Type} `{Soup node}.

(** X20. The page fetched for an article is extracted once; the rendered
    page is consulted only when that text is empty or has fewer than 50
    whitespace-separated words.  When it is consulted and the rendering
    succeeds, its extraction replaces the first one whatever it holds;
    when the rendering raises, the first extraction is kept. *)
Theorem X20_rendered_fallback (page : node) :
  let first := extract_article_text page in
  ((50 <= split_count (fst first))%Z ->
   forall rendered, extract_with_fallback page rendered = first)
  /\ ((split_count (fst first) < 50)%Z ->
      extract_with_fallback page None = first
      /\ forall page',
          extract_with_fallback page (Some page') = extract_article_text page').
Proof.
  intros first. unfold extract_with_fallback. fold first.
  destruct first as [text meta] eqn:E. simpl fst. split.
  - intros Hlen rendered.
    assert (Hne : nonempty text = true).
    { destruct text; [|reflexivity]. unfold split_count, findall in Hlen.
      simpl in Hlen. unfold len in Hlen. simpl in Hlen. lia. }
    rewrite Hne. simpl negb. cbn [orb].
    destruct (Z.ltb_spec (split_count text) 50); [lia | reflexivity].
  - intros Hlen.
    destruct (Z.ltb_spec (split_count text) 50) as [_|Hge]; [|lia].
    rewrite orb_true_r. split; [reflexivity | intros page'; reflexivity].
Qed.

End Fetch.

Lemma X20_witness :
  extract_with_fallback sample_article (Some blank_og_title)
  = extract_article_text blank_og_title.
Proof.
  apply (proj2 (X20_rendered_fallback sample_article)).
  vm_compute. reflexivity.
Defined.

End ScraperFacts.

(* ================================================================== *)
(** * More properties of the extractor *)

Module ExtractFacts.
Import Parsing ParsingMeta StrFacts ParsingFacts.

Lemma join_nil_iff (sep : str) (parts : list str) :
  Forall (fun p => p <> []) parts -> (join sep parts = [] <-> parts = []).
Proof.
  intros Hparts. split; [|now intros ->].
  destruct Hparts as [|p rest Hp _]; [reflexivity|].
  destruct rest; simpl; intros E.
  - contradiction.
  - apply app_eq_nil in E. destruct E. contradiction.
Qed.

Lemma len_join_two (sep p q : str) (rest : list str) :
  (len p + len sep + len q <= len (join sep (p :: q :: rest)))%Z.
Proof.
  change (join sep (p :: q :: rest)) with (p ++ sep ++ join sep (q :: rest)).
  unfold len. rewrite !length_app.
  assert (List.length q <= List.length (join sep (q :: rest)))%nat.
  { destruct rest; simpl; [lia|]. rewrite length_app. lia. }
  lia.
Qed.

Section Shape.
Context {node : Type} `{Soup node}.

Lemma collected_paragraph_length (el : node) :
  Forall (fun p => (2 <= len p)%Z) (_collect_paragraphs el).
Proof.
  rewrite collect_paragraphs_filter. apply Forall_forall. intros p Hin.
  apply filter_In in Hin. destruct Hin as [_ Hok].
  unfold paragraph_ok in Hok. apply andb_prop in Hok. destruct Hok as [_ Hlen].
  apply Z.ltb_lt in Hlen. lia.
Qed.

Lemma collected_nonempty (el : node) :
  Forall (fun p => p <> []) (_collect_paragraphs el).
Proof.
  pose proof (collected_paragraph_length el) as Hl.
  revert Hl. apply Forall_impl. intros p Hp ->. unfold len in Hp. simpl in Hp. lia.
Qed.

Lemma first_container_spec (selectors : list str) (soup : node) :
  match first_container selectors soup with
  | Some paras =>
      exists pre sel lower container,
        selectors = pre ++ sel :: lower
        /\ Forall (rejected soup) pre
        /\ select_one soup sel = Some container
        /\ paras = _collect_paragraphs container
        /\ (2 <= len paras)%Z
  | None => Forall (rejected soup) selectors
  end.
Proof.
  induction selectors as [|sel rest IH]; simpl; [constructor|].
  assert (Hskip : rejected soup sel ->
                  match first_container rest soup with
                  | Some paras =>
                      exists pre sel0 lower container,
                        sel :: rest = pre ++ sel0 :: lower
                        /\ Forall (rejected soup) pre
                        /\ select_one soup sel0 = Some container
                        /\ paras = _collect_paragraphs container
                        /\ (2 <= len paras)%Z
                  | None => Forall (rejected soup) (sel :: rest)
                  end).
  { intros Hrej. destruct (first_container rest soup) as [paras|].
    - destruct IH as (pre & sel0 & lower & container & E & Hpre & Hsel & Hp & Hl).
      exists (sel :: pre), sel0, lower, container.
      rewrite E. repeat split; auto.
    - now constructor. }
  destruct (select_one soup sel) as [container|] eqn:Hsel.
  - destruct (Z.leb_spec 2 (len (_collect_paragraphs container))) as [Hl|Hl].
    + exists [], sel, rest, container. repeat split; auto.
    + apply Hskip. unfold rejected. now rewrite Hsel.
  - apply Hskip. unfold rejected. now rewrite Hsel.
Qed.

(** X12. Every paragraph that the extractor keeps has at least two
    characters.  The extracted text is empty exactly when every selector
    is passed over and the fallback finds no paragraph; when a container
    is accepted the text holds at least two paragraphs and the blank line
    between them, so at least six characters. *)
Theorem X12_extracted_text_shape (selectors : list str) (soup : node) :
  (forall el, Forall (fun p => (2 <= len p)%Z) (_collect_paragraphs el))
  /\ (extract_text_with selectors soup = []
      <-> Forall (rejected soup) selectors
          /\ _collect_paragraphs (body_or_soup soup) = [])
  /\ (~ Forall (rejected soup) selectors ->
      (6 <= len (extract_text_with selectors soup))%Z).
Proof.
  split; [exact collected_paragraph_length|].
  unfold extract_text_with.
  pose proof (first_container_spec selectors soup) as Hspec.
  destruct (first_container selectors soup) as [paras|].
  - destruct Hspec as (pre & sel & lower & container & E & Hpre & Hsel & Hp & Hl).
    assert (Hlong : (6 <= len (join blank_line paras))%Z).
    { pose proof (collected_paragraph_length container) as Hall.
      rewrite <- Hp in Hall.
      destruct paras as [|p [|q rest]];
        try (unfold len in Hl; simpl in Hl; lia).
      pose proof (len_join_two blank_line p q rest) as Hj.
      inversion Hall as [|? ? Hp1 Hall']; subst.
      inversion Hall' as [|? ? Hq1 _]; subst.
      change (len blank_line) with 2%Z in Hj. lia. }
    split; [|intros _; exact Hlong].
    split.
    + intros Hnil. rewrite Hnil in Hlong. unfold len in Hlong. simpl in Hlong. lia.
    + intros [Hrej _]. exfalso. subst selectors.
      apply Forall_app in Hrej. destruct Hrej as [_ Hrej].
      inversion Hrej as [|? ? Hr _]; subst.
      unfold rejected in Hr. rewrite Hsel in Hr. lia.
  - split; [|intros Hn; contradiction].
    rewrite join_nil_iff by apply collected_nonempty. tauto.
Qed.

End Shape.

Lemma X12_witness :
  (6 <= len (extract_text_with _BODY_SELECTORS sample_article))%Z.
Proof.
  apply (proj2 (proj2 (X12_extracted_text_shape _BODY_SELECTORS sample_article))).
  intros Hrej. inversion Hrej as [|? ? Hr _]; subst.
  vm_compute in Hr. discriminate.
Defined.

Section MetaFields.
Context {node : Type} `{Soup node} `{SoupTags node}.

Lemma truthy_nonempty (o : option str) :
  Aggregation.truthy o = true <-> exists s, o = Some s /\ s <> [].
Proof. apply AggregationFacts.present_truthy. Qed.

Lemma first_author_skip (pre rest : list str) (soup : node) :
  Forall (author_rejected soup) pre ->
  first_author (pre ++ rest) soup = first_author rest soup.
Proof.
  induction 1 as [|sel pre Hrej _ IH]; simpl; [reflexivity|].
  unfold author_rejected in Hrej.
  destruct (select_one soup sel) as [tag|]; [|exact IH].
  fold (author_content tag). now rewrite Hrej.
Qed.

Lemma first_author_spec (selectors : list str) (soup : node) :
  match first_author selectors soup with
  | Some a =>
      a <> []
      /\ exists pre sel lower tag,
          selectors = pre ++ sel :: lower
          /\ Forall (author_rejected soup) pre
          /\ select_one soup sel = Some tag
          /\ author_content tag = Some a
  | None => Forall (author_rejected soup) selectors
  end.
Proof.
  induction selectors as [|sel rest IH]; simpl; [constructor|].
  assert (Hskip : author_rejected soup sel ->
                  match first_author rest soup with
                  | Some a =>
                      a <> []
                      /\ exists pre sel0 lower tag,
                          sel :: rest = pre ++ sel0 :: lower
                          /\ Forall (author_rejected soup) pre
                          /\ select_one soup sel0 = Some tag
                          /\ author_content tag = Some a
                  | None => Forall (author_rejected soup) (sel :: rest)
                  end).
  { intros Hrej. destruct (first_author rest soup) as [a|].
    - destruct IH as (Hne & pre & sel0 & lower & tag & E & Hpre & Hsel & Hc).
      split; [exact Hne|]. exists (sel :: pre), sel0, lower, tag.
      rewrite E. repeat split; auto.
    - now constructor. }
  destruct (select_one soup sel) as [tag|] eqn:Hsel.
  - fold (author_content tag).
    destruct (Aggregation.truthy (author_content tag)) eqn:Ht.
    + apply truthy_nonempty in Ht. destruct Ht as (a & Ea & Hne).
      rewrite Ea. split; [exact Hne|].
      exists [], sel, rest, tag. repeat split; auto.
    + apply Hskip. unfold author_rejected. now rewrite Hsel.
  - apply Hskip. unfold author_rejected. now rewrite Hsel.
Qed.

(** X13. The author is the content of the first of the four author
    selectors whose tag has a non-empty content (the [content] attribute of
    a [meta] tag, the stripped text of any other tag), whatever the
    selectors after it match; it is absent exactly when all four are passed
    over, and it is never the empty string. *)
Theorem X13_author_priority (soup : node) :
  (forall a, extract_meta_author soup = Some a -> a <> [])
  /\ (forall pre sel lower tag a,
         AUTHOR_SELECTORS = pre ++ sel :: lower ->
         Forall (author_rejected soup) pre ->
         select_one soup sel = Some tag ->
         author_content tag = Some a -> a <> [] ->
         extract_meta_author soup = Some a
         /\ forall lower', first_author (pre ++ sel :: lower') soup = Some a)
  /\ (extract_meta_author soup = None
      <-> Forall (author_rejected soup) AUTHOR_SELECTORS).
Proof.
  unfold extract_meta_author.
  pose proof (first_author_spec AUTHOR_SELECTORS soup) as Hspec.
  split; [|split].
  - intros a Ea. rewrite Ea in Hspec. tauto.
  - intros pre sel lower tag a E Hpre Hsel Hc Hne.
    assert (Hgen : forall lower', first_author (pre ++ sel :: lower') soup = Some a).
    { intros lower'. rewrite first_author_skip by assumption.
      simpl. rewrite Hsel. fold (author_content tag). rewrite Hc.
      destruct a; [contradiction | reflexivity]. }
    split; [rewrite E; apply Hgen | exact Hgen].
  - split.
    + intros E. now rewrite E in Hspec.
    + intros Hrej. rewrite <- (app_nil_r AUTHOR_SELECTORS).
      now rewrite first_author_skip.
Qed.

Lemma meta_property_content_spec (soup : node) (property : str) :
  match meta_property_content soup property with
  | Some c =>
      c <> []
      /\ exists tag, find_meta_property soup property = Some tag
                     /\ tag_get tag (py "content") = Some c
  | None =>
      match find_meta_property soup property with
      | Some tag => Aggregation.truthy (tag_get tag (py "content")) = false
      | None => True
      end
  end.
Proof.
  unfold meta_property_content.
  destruct (find_meta_property soup property) as [tag|]; [|exact I].
  destruct (Aggregation.truthy (tag_get tag (py "content"))) eqn:Ht;
    [|reflexivity].
  apply truthy_nonempty in Ht. destruct Ht as (c & Ec & Hne).
  rewrite Ec. split; [exact Hne|]. now exists tag.
Qed.

(** X14. The date is the raw [content] of the [article:published_time]
    tag when it is not empty, and is never the empty string.  The section
    is the [content] of the [article:section] tag when it is not empty;
    otherwise it is the stripped text of the last breadcrumb link when
    there is one, even when that text is empty; otherwise it is absent. *)
Theorem X14_date_and_section (soup : node) :
  (forall d, extract_meta_date soup = Some d ->
             d <> []
             /\ exists tag,
                 find_meta_property soup (py "article:published_time") = Some tag
                 /\ tag_get tag (py "content") = Some d)
  /\ (forall c, meta_property_content soup (py "article:section") = Some c ->
                extract_meta_section soup = Some c /\ c <> [])
  /\ (meta_property_content soup (py "article:section") = None ->
      (forall bc, select_one soup (py "nav.breadcrumbs a:last-of-type") = Some bc ->
                  extract_meta_section soup = Some (get_text bc []))
      /\ (select_one soup (py "nav.breadcrumbs a:last-of-type") = None ->
          extract_meta_section soup = None)).
Proof.
  split; [|split].
  - intros d Ed. unfold extract_meta_date in Ed.
    pose proof (meta_property_content_spec soup (py "article:published_time"))
      as Hspec.
    rewrite Ed in Hspec. exact Hspec.
  - intros c Ec. unfold extract_meta_section. rewrite Ec.
    pose proof (meta_property_content_spec soup (py "article:section")) as Hspec.
    rewrite Ec in Hspec. destruct Hspec as [Hne _].
    destruct c; [contradiction|]. split; [reflexivity | discriminate].
  - intros En. unfold extract_meta_section. rewrite En. simpl.
    split; [intros bc -> | intros ->]; reflexivity.
Qed.

End MetaFields.

Lemma X13_witness :
  extract_meta_author byline_page = Some (py "Jane Roe").
Proof.
  apply (proj1 (proj2 (X13_author_priority byline_page))
           [py "meta[name='author']"] (py "a.byline__name")
           [py "span.byline__name"; py "a[rel='author']"]
           (Tag (py "a") [] (py "Jane Roe") []) (py "Jane Roe"));
    try reflexivity; try discriminate.
  repeat constructor.
Defined.

Lemma X14_witness :
  extract_meta_section byline_page = Some [].
Proof.
  destruct (proj2 (proj2 (X14_date_and_section byline_page))) as [Hbc _];
    [reflexivity|].
  apply (Hbc (Tag (py "a") [] [] [])). reflexivity.
Defined.

End ExtractFacts.

(* ================================================================== *)
(** * More properties of the readability metrics *)

Module MetricsMore.
Import Metrics StrFacts StripFacts MetricsFacts.

Lemma findall_from_class_run cls (w rest cur : str) :
  Forall (fun c => cls c = true) w ->
  findall_from cls (w ++ rest) cur = findall_from cls rest (rev w ++ cur).
Proof.
  intros Hw. revert cur. induction Hw as [|c w Hc _ IH]; intros cur; simpl.
  - reflexivity.
  - rewrite Hc, IH. now rewrite <- app_assoc.
Qed.

Lemma findall_join cls (sep : char) (ws : list str) :
  cls sep = false ->
  Forall (fun w => w <> [] /\ Forall (fun c => cls c = true) w) ws ->
  findall cls (join [sep] ws) = ws.
Proof.
  intros Hsep Hws. unfold findall.
  induction Hws as [|w rest [Hne Hw] Hrest IH]; [reflexivity|].
  assert (Hrev : nonempty (rev w) = true).
  { destruct (rev w) eqn:E; [|reflexivity].
    apply (f_equal (@rev _)) in E. rewrite rev_involutive in E. contradiction. }
  destruct rest as [|q rest].
  - simpl. rewrite <- (app_nil_r w) at 1.
    rewrite findall_from_class_run by assumption. simpl.
    rewrite app_nil_r, Hrev. now rewrite rev_involutive.
  - change (join [sep] (w :: q :: rest)) with (w ++ sep :: join [sep] (q :: rest)).
    rewrite findall_from_class_run by assumption.
    rewrite app_nil_r. cbn [findall_from].
    rewrite Hsep, Hrev, rev_involutive. f_equal. exact IH.
Qed.

Lemma findall_from_count cls (s cur : str) :
  (List.length (findall_from cls s cur)
   <= List.length s + (if nonempty cur then 1 else 0))%nat.
Proof.
  revert cur. induction s as [|c s IH]; intros cur; simpl.
  - destruct (nonempty cur); simpl; lia.
  - destruct (cls c).
    + specialize (IH (c :: cur)). simpl in IH. lia.
    + specialize (IH []). simpl in IH.
      destruct (nonempty cur); simpl; lia.
Qed.

(** X1. The word tokens of a text are non-empty runs of ASCII letters and
    apostrophes; there are at most as many as the text has characters;
    and they are stable: the tokens joined by single spaces tokenize to
    the same list. *)
Theorem X1_tokens_stable (text : str) :
  let words := _tokenize_words text in
  Forall (fun w => w <> [] /\ Forall (fun c => word_char c = true) w) words
  /\ (len words <= len text)%Z
  /\ _tokenize_words (join (py " ") words) = words.
Proof.
  intros words.
  assert (Hruns : Forall (fun w => w <> []
                                  /\ Forall (fun c => word_char c = true) w)
                         words).
  { apply Forall_forall. intros w Hin. now apply (tokens_are_words text). }
  split; [exact Hruns|]. split.
  - unfold words, _tokenize_words, findall, len.
    pose proof (findall_from_count word_char text []) as Hc. simpl in Hc. lia.
  - unfold _tokenize_words. change (py " ") with [32%N].
    now apply findall_join.
Qed.

Lemma strip_pad (left text right : str) :
  Forall (fun c => isspace c = true) left ->
  Forall (fun c => isspace c = true) right ->
  strip (left ++ text ++ right) = strip text.
Proof. intros Hl Hr. rewrite !strip_is_strip_chars. now apply strip_chars_pad. Qed.

(** X2. Whitespace around a text does not change its metrics, on either
    path: [readability_metrics] of a text padded with whitespace on both
    sides is [readability_metrics] of the text, and of the stripped text. *)
Theorem X2_metrics_ignore_padding textstat (left text right : str) :
  Forall (fun c => isspace c = true) left ->
  Forall (fun c => isspace c = true) right ->
  readability_metrics textstat (left ++ text ++ right)
  = readability_metrics textstat text
  /\ readability_metrics textstat (strip text)
     = readability_metrics textstat text.
Proof.
  intros Hl Hr. unfold readability_metrics.
  rewrite strip_pad by assumption. now rewrite strip_idem.
Qed.

Lemma X2_witness :
  readability_metrics None (py "  A short text. " ++ [10%N])
  = readability_metrics None (py "A short text.").
Proof.
  apply (proj1 (@X2_metrics_ignore_padding None (py "  ") (py "A short text.")
                                           (py " " ++ [10%N])
                                           ltac:(repeat constructor)
                                           ltac:(repeat constructor))).
Defined.

Lemma split_from_count cls (s cur : str) (indelim : bool) :
  (List.length (split_from cls s cur indelim)
   <= 1 + List.length (filter cls s))%nat.
Proof.
  revert cur indelim. induction s as [|c s IH]; intros cur indelim; simpl.
  - lia.
  - destruct (cls c); simpl.
    + destruct indelim; simpl.
      * specialize (IH cur true). lia.
      * specialize (IH [] true). lia.
    + apply IH.
Qed.

Lemma count_sentences_bound (text : str) :
  (_count_sentences text <= 1 + len (filter sentence_char text))%Z.
Proof.
  unfold _count_sentences, len, split.
  pose proof (split_from_count sentence_char text [] false) as Hs.
  pose proof (filter_length_le (fun p => nonempty (strip p))
                               (split_from sentence_char text [] false)) as Hf.
  lia.
Qed.

(** X3. On the from-scratch path [num_sentences] is 0 exactly for blank
    text; for any other text it is at least 1 and at most one more than
    the number of [.], [!] and [?] characters, and [num_words] lies
    between 0 and the number of characters of the stripped text. *)
Theorem X3_counts_of_a_row textstat (text : str) :
  from_scratch textstat text ->
  let m := readability_metrics textstat text in
  (num_sentences m = 0%Z <-> strip text = [])
  /\ (strip text <> [] ->
      (1 <= num_sentences m
       <= 1 + len (filter sentence_char (strip text)))%Z)
  /\ (0 <= num_words m <= len (strip text))%Z.
Proof.
  intros Hpath. rewrite (from_scratch_native _ _ Hpath).
  unfold readability_metrics.
  destruct (strip text) as [|c t] eqn:E; simpl negb; cbv iota.
  - simpl. split; [tauto|]. split; [intros Hn; contradiction|].
    unfold len. simpl. lia.
  - assert (Hns : num_sentences (native_metrics (c :: t))
                  = _count_sentences (c :: t)).
    { unfold native_metrics. cbv zeta.
      now destruct (len (_tokenize_words (c :: t)) =? 0)%Z. }
    assert (Hnw : (0 <= num_words (native_metrics (c :: t))
                   <= len (c :: t))%Z).
    { unfold native_metrics. cbv zeta.
      destruct (Z.eqb_spec (len (_tokenize_words (c :: t))) 0) as [E0|E0];
        simpl num_words.
      - split; [lia | apply len_nonneg].
      - split; [apply len_nonneg|].
        pose proof (findall_from_count word_char (c :: t) []) as Hc.
        unfold _tokenize_words, findall, len. simpl in Hc. simpl List.length.
        lia. }
    rewrite Hns.
    pose proof (count_sentences_pos (c :: t)).
    pose proof (count_sentences_bound (c :: t)).
    split; [split; [lia | discriminate]|]. split; [intros _; lia | exact Hnw].
Qed.

Lemma X3_witness :
  (1 <= num_sentences (readability_metrics None (py "No stop here")) <= 1)%Z.
Proof.
  destruct (@X3_counts_of_a_row None (py "No stop here") I) as (_ & Hb & _).
  apply Hb. discriminate.
Defined.

Lemma syllables_in_word_bounds (w : str) :
  (1 <= _count_syllables_in_word w <= Z.max 1 (len w))%Z.
Proof.
  unfold _count_syllables_in_word. cbv zeta.
  set (lw := lower w).
  set (w' := if (2 <? len lw)%Z && endswith lw (py "e")
                && negb (endswith lw (py "le"))
             then removelast lw else lw).
  assert (Hw' : (len w' <= len w)%Z).
  { assert (Hlw : len lw = len w) by apply len_map.
    unfold w'. destruct ((2 <? len lw)%Z && endswith lw (py "e")
                         && negb (endswith lw (py "le"))); [|lia].
    rewrite <- Hlw. unfold len. destruct lw as [|c l]; [simpl; lia|].
    assert (c :: l <> []) as Hne by discriminate.
    pose proof (app_removelast_last c Hne) as E.
    apply (f_equal (@List.length _)) in E. rewrite length_app in E.
    simpl List.length in E. simpl List.length. lia. }
  pose proof (findall_from_count vowel_char w' []) as Hc. simpl in Hc.
  unfold findall, len in *. lia.
Qed.

Lemma syllables_and_complex (words : list str) :
  (len words + 2 * Spec.complex_words words <= Spec.total_syllables words)%Z
  /\ (0 <= Spec.complex_words words <= len words)%Z.
Proof.
  unfold Spec.complex_words, Spec.total_syllables.
  induction words as [|w words [IH1 IH2]]; cbn [map fold_right filter].
  - unfold len. simpl. lia.
  - pose proof (syllables_in_word_bounds w) as [Hw _].
    destruct (Z.leb_spec 3 (_count_syllables_in_word w));
      unfold len in *; cbn [List.length]; rewrite ?Nat2Z.inj_succ; lia.
Qed.

(** X4. Every word has at least one syllable and at most as many as it has
    characters.  Over a list of words the syllable total is at least the
    number of words plus twice the number of complex words, and the
    complex words are at most as many as the words. *)
Theorem X4_syllable_bounds :
  (forall w, (1 <= _count_syllables_in_word w <= Z.max 1 (len w))%Z)
  /\ (forall words,
         (len words + 2 * _count_complex_words words
          <= _count_syllables words)%Z
         /\ (0 <= _count_complex_words words <= len words)%Z).
Proof.
  split; [exact syllables_in_word_bounds|].
  intros words. rewrite count_syllables_total, count_complex_words_filter.
  apply syllables_and_complex.
Qed.

Lemma len_filter_le {A} (p : A -> bool) (l : list A) :
  (0 <= len (filter p l) <= len l)%Z.
Proof. unfold len. pose proof (filter_length_le p l). lia. Qed.

Lemma ratio_pos (a b : Z) :
  (0 < a)%Z -> (0 < b)%Z -> 0 < inject_Z a / inject_Z b.
Proof.
  intros Ha Hb. apply Qlt_shift_div_l.
  - change (inject_Z 0 < inject_Z b). rewrite <- Zlt_Qlt. exact Hb.
  - rewrite Qmult_0_l. change (inject_Z 0 < inject_Z a).
    rewrite <- Zlt_Qlt. exact Ha.
Qed.

Lemma ratio_le (a b k : Z) :
  (0 < b)%Z -> (a <= k * b)%Z -> inject_Z a / inject_Z b <= inject_Z k.
Proof.
  intros Hb Hab. apply Qle_shift_div_r.
  - change (inject_Z 0 < inject_Z b). rewrite <- Zlt_Qlt. exact Hb.
  - rewrite <- inject_Z_mult, <- Zle_Qle. exact Hab.
Qed.

Lemma ratio_ge (a b k : Z) :
  (0 < b)%Z -> (k * b <= a)%Z -> inject_Z k <= inject_Z a / inject_Z b.
Proof.
  intros Hb Hab. apply Qle_shift_div_l.
  - change (inject_Z 0 < inject_Z b). rewrite <- Zlt_Qlt. exact Hb.
  - rewrite <- inject_Z_mult, <- Zle_Qle. exact Hab.
Qed.

(** X5. On the from-scratch path the scores of a text with at least one
    word are bounded: Flesch reading ease is below 122.235; Gunning Fog is
    positive and at most [0.4 * (num_words + 100)]; the approximate
    Dale-Chall score is positive and at most
    [0.0496 * num_words + 19.4265]. *)
Theorem X5_score_bounds textstat (text : str) :
  from_scratch textstat text ->
  _tokenize_words text <> [] ->
  let m := readability_metrics textstat text in
  exists g d f,
    gunning_fog m = Some g /\ dale_chall m = Some d
    /\ flesch_reading_ease m = Some f
    /\ f < 122.235
    /\ 0 < g /\ g <= 0.4 * (inject_Z (num_words m) + 100)
    /\ 0 < d /\ d <= 0.0496 * inject_Z (num_words m) + 19.4265.
Proof.
  intros Hpath Hwords. rewrite (from_scratch_native _ _ Hpath).
  unfold readability_metrics.
  assert (Hstrip : strip text <> []).
  { intros E. apply Hwords. rewrite <- tokenize_strip, E. reflexivity. }
  destruct (strip text) as [|c t] eqn:E; [contradiction|].
  simpl negb. cbv iota. rewrite <- E. clear E c t Hstrip.
  unfold native_metrics. rewrite tokenize_strip.
  rewrite count_syllables_total, count_complex_words_filter.
  set (words := _tokenize_words text) in *.
  assert (Hlen : (1 <= len words)%Z).
  { pose proof (len_nonneg words) as Hnn.
    destruct (Z.eq_dec (len words) 0) as [E0|E0]; [|lia].
    apply len_nil_iff in E0. contradiction. }
  destruct (Z.eqb_spec (len words) 0) as [E0|_]; [lia|].
  pose proof (count_sentences_pos (strip text)) as Hs.
  rewrite (Z.max_r 1 (_count_sentences (strip text)) Hs).
  cbv zeta. simpl num_words. simpl gunning_fog. simpl dale_chall.
  simpl flesch_reading_ease.
  destruct (syllables_and_complex words) as [Hsyl [Hc0 Hc1]].
  set (difficult := len (filter (fun w => (3 <? len w)%Z) words)).
  assert (Hd : (0 <= difficult <= len words)%Z).
  { apply len_filter_le. }
  assert (Hasl : 0 < inject_Z (len words)
                     / inject_Z (_count_sentences (strip text)))
    by (apply ratio_pos; lia).
  assert (Hasl' : inject_Z (len words)
                  / inject_Z (_count_sentences (strip text))
                  <= inject_Z (len words)).
  { apply ratio_le; [lia|]. nia. }
  assert (Hasw : inject_Z 1 <= inject_Z (Spec.total_syllables words)
                               / inject_Z (len words))
    by (apply ratio_ge; lia).
  assert (Hcq0 : inject_Z 0 <= inject_Z (Spec.complex_words words)
                               / inject_Z (len words))
    by (apply ratio_ge; lia).
  assert (Hcq1 : inject_Z (Spec.complex_words words) / inject_Z (len words)
                 <= inject_Z 1)
    by (apply ratio_le; lia).
  assert (Hdq0 : inject_Z 0 <= inject_Z difficult / inject_Z (len words))
    by (apply ratio_ge; lia).
  assert (Hdq1 : inject_Z difficult / inject_Z (len words) <= inject_Z 1)
    by (apply ratio_le; lia).
  change (inject_Z 1) with 1 in *. change (inject_Z 0) with 0 in *.
  set (asl := inject_Z (len words)
              / inject_Z (_count_sentences (strip text))) in *.
  set (sq := inject_Z (Spec.total_syllables words) / inject_Z (len words)) in *.
  set (cq := inject_Z (Spec.complex_words words) / inject_Z (len words)) in *.
  set (dq := inject_Z difficult / inject_Z (len words)) in *.
  set (nw := inject_Z (len words)) in *.
  clearbody asl sq cq dq nw.
  do 3 eexists. repeat (split; [reflexivity|]).
  split; [lra|]. split; [lra|]. split; [lra|].
  destruct (Qle_bool (dq * 100) 5); simpl negb; cbv iota; split; lra.
Qed.

Lemma X5_witness :
  exists f,
    flesch_reading_ease (readability_metrics None (py "The cat sat.")) = Some f
    /\ f < 122.235.
Proof.
  destruct (@X5_score_bounds None (py "The cat sat.") I)
    as (g & d & f & _ & _ & Hf & Hb & _); [discriminate|].
  exists f. split; assumption.
Defined.

End MetricsMore.

(* ================================================================== *)
(** * More properties of the means *)

Module MeanMore.
Import Aggregation AggSpec AggMore StrFacts MeanFacts.

Lemma inject_len_cons {A} (x : A) (l : list A) :
  inject_Z (len (x :: l)) == inject_Z (len l) + 1.
Proof.
  unfold len. cbn [List.length]. rewrite Nat2Z.inj_succ.
  unfold Z.succ. rewrite inject_Z_plus. reflexivity.
Qed.

Lemma sum_within (lo hi : Q) (vals : list Q) :
  Forall (fun v => lo <= v <= hi) vals ->
  lo * inject_Z (len vals) <= fold_right Qplus 0 vals
  /\ fold_right Qplus 0 vals <= hi * inject_Z (len vals).
Proof.
  induction 1 as [|v vals [Hlo Hhi] _ [IH1 IH2]].
  - simpl. change (inject_Z (len [])) with 0. split; lra.
  - cbn [fold_right]. rewrite inject_len_cons. split; lra.
Qed.

Lemma weighted_sum_within (lo hi : Q) (q : list (Q * Z)) :
  Forall (fun e => lo <= fst e <= hi /\ (0 < snd e)%Z) q ->
  lo * inject_Z (Spec.weight_total q) <= Spec.weighted_sum q
  /\ Spec.weighted_sum q <= hi * inject_Z (Spec.weight_total q).
Proof.
  induction 1 as [|[v w] q [[Hlo Hhi] Hw] _ [IH1 IH2]].
  - simpl. change (inject_Z 0) with 0. split; lra.
  - cbn [Spec.weighted_sum Spec.weight_total fold_right fst snd] in *.
    fold (Spec.weighted_sum q) (Spec.weight_total q).
    rewrite inject_Z_plus.
    assert (Hwq : 0 <= inject_Z w).
    { change (inject_Z 0 <= inject_Z w). rewrite <- Zle_Qle. lia. }
    pose proof (Qmult_le_compat_r _ _ _ Hlo Hwq) as H1.
    pose proof (Qmult_le_compat_r _ _ _ Hhi Hwq) as H2.
    split; lra.
Qed.

Lemma len_pos_Q {A} (l : list A) : l <> [] -> 0 < inject_Z (len l).
Proof.
  intros Hne. change (inject_Z 0 < inject_Z (len l)). rewrite <- Zlt_Qlt.
  destruct l; [contradiction|]. unfold len. simpl. lia.
Qed.

(** X6. Both means lie within the range of the values they average: when
    every present value (for the weighted mean, every value that
    qualifies) is between [lo] and [hi], so is the mean. *)
Theorem X6_means_within_range (lo hi : Q) :
  (forall values m,
      Forall (fun v => lo <= v <= hi) (present values) ->
      _mean values = Some m -> lo <= m <= hi)
  /\ (forall entries m,
         Forall (fun e => lo <= fst e <= hi) (Spec.qualifying entries) ->
         _weighted_mean entries = Some m -> lo <= m <= hi).
Proof.
  split.
  - intros values m Hall Hm.
    assert (Hne : present values <> []).
    { intros E. apply mean_absent_iff in E. congruence. }
    destruct (mean_arithmetic values Hne) as (m' & Hm' & Em).
    rewrite Hm in Hm'. injection Hm' as <-.
    rewrite Em. unfold Spec.arithmetic_mean.
    destruct (sum_within Hall) as [H1 H2].
    pose proof (len_pos_Q Hne) as Hn.
    split; [now apply Qle_shift_div_l | now apply Qle_shift_div_r].
  - intros entries m Hall Hm.
    assert (Hne : Spec.qualifying entries <> []).
    { intros E. apply weighted_mean_absent_iff in E. congruence. }
    destruct (weighted_mean_formula entries Hne) as (m' & Hm' & Hpos & Em).
    rewrite Hm in Hm'. injection Hm' as <-.
    rewrite Em.
    assert (Hall' : Forall (fun e => lo <= fst e <= hi /\ (0 < snd e)%Z)
                           (Spec.qualifying entries)).
    { pose proof (qualifying_positive entries) as Hp.
      rewrite Forall_forall in *. intros e He. split; auto. }
    destruct (weighted_sum_within Hall') as [H1 H2].
    assert (Hn : 0 < inject_Z (Spec.weight_total (Spec.qualifying entries))).
    { change (inject_Z 0 < inject_Z (Spec.weight_total (Spec.qualifying entries))).
      now rewrite <- Zlt_Qlt. }
    split; [now apply Qle_shift_div_l | now apply Qle_shift_div_r].
Qed.

Lemma X6_witness :
  forall m, _mean [Some 5; None; Some 15] = Some m -> 5 <= m <= 15.
Proof.
  intros m. apply (proj1 (X6_means_within_range 5 15)).
  repeat constructor; simpl; lra.
Defined.

Lemma qualifying_constant_weight (w : Z) (values : list (option Q)) :
  (0 < w)%Z ->
  Spec.qualifying (map (fun v => (v, w)) values)
  = map (fun v => (v, w)) (present values).
Proof.
  intros Hw. apply Z.ltb_lt in Hw.
  induction values as [|[v|] values IH]; simpl; [reflexivity| |exact IH].
  now rewrite Hw, IH.
Qed.

Lemma constant_weight_sums (w : Z) (vals : list Q) :
  Spec.weighted_sum (map (fun v => (v, w)) vals)
  == inject_Z w * fold_right Qplus 0 vals
  /\ inject_Z (Spec.weight_total (map (fun v => (v, w)) vals))
     == inject_Z w * inject_Z (len vals).
Proof.
  induction vals as [|v vals [IH1 IH2]].
  - simpl. change (inject_Z (len [])) with 0. change (inject_Z 0) with 0.
    split; ring.
  - cbn [map Spec.weighted_sum Spec.weight_total fold_right fst snd] in *.
    fold (Spec.weighted_sum (map (fun v => (v, w)) vals)).
    fold (Spec.weight_total (map (fun v => (v, w)) vals)).
    rewrite inject_Z_plus, inject_len_cons, IH1, IH2. split; ring.
Qed.

(** X7. With the same positive weight on every entry the weighted mean is
    the unweighted mean: both absent, or equal.  So the two means of an
    issue whose articles all have the same number of words agree. *)
Theorem X7_equal_weights (w : Z) :
  (0 < w)%Z ->
  (forall values,
      same_value (_weighted_mean (map (fun v => (v, w)) values))
                 (_mean values))
  /\ (forall key items,
         Forall (fun r => num_words r = w) items ->
         let row := issue_row (key, items) in
         same_value (gunning_fog_weighted_mean row) (gunning_fog_mean row)
         /\ same_value (dale_chall_weighted_mean row) (dale_chall_mean row)
         /\ same_value (flesch_reading_ease_weighted_mean row)
                       (flesch_reading_ease_mean row)).
Proof.
  intros Hw.
  assert (Hgen : forall values,
             same_value (_weighted_mean (map (fun v => (v, w)) values))
                        (_mean values)).
  { intros values.
    destruct (present values) as [|v0 vals] eqn:Ep.
    - assert (E1 : _mean values = None) by now apply mean_absent_iff.
      assert (E2 : _weighted_mean (map (fun v => (v, w)) values) = None).
      { apply weighted_mean_absent_iff.
        rewrite qualifying_constant_weight by assumption. now rewrite Ep. }
      rewrite E1, E2. exact I.
    - assert (Hne : present values <> []) by (rewrite Ep; discriminate).
      destruct (mean_arithmetic values Hne) as (m & Hm & Em).
      assert (Hq : Spec.qualifying (map (fun v => (v, w)) values) <> []).
      { rewrite qualifying_constant_weight by assumption.
        rewrite Ep. discriminate. }
      destruct (weighted_mean_formula _ Hq) as (mw & Hmw & Hpos & Emw).
      rewrite Hm, Hmw. simpl. rewrite Emw, Em.
      rewrite qualifying_constant_weight by assumption.
      destruct (constant_weight_sums w (present values)) as [E1 E2].
      rewrite E1, E2. unfold Spec.arithmetic_mean.
      pose proof (len_pos_Q Hne) as Hn.
      assert (Hwq : 0 < inject_Z w).
      { change (inject_Z 0 < inject_Z w). now rewrite <- Zlt_Qlt. }
      field. split; intros E0; rewrite E0 in *; lra. }
  split; [exact Hgen|].
  intros [date src] items Hall. simpl.
  assert (Hmap : forall metric : ArticleRow -> option Q,
             map (fun r => (metric r, num_words r)) items
             = map (fun v => (v, w)) (map metric items)).
  { intros metric. rewrite map_map. apply map_ext_in. intros r Hin.
    rewrite Forall_forall in Hall. now rewrite (Hall r Hin). }
  rewrite !Hmap. repeat split; apply Hgen.
Qed.

Lemma X7_witness :
  same_value (_weighted_mean [(Some 5, 40%Z); (None, 40%Z); (Some 15, 40%Z)])
             (_mean [Some 5; None; Some 15]).
Proof.
  apply (proj1 (@X7_equal_weights 40 ltac:(lia)) [Some 5; None; Some 15]).
Defined.

End MeanMore.

(* ================================================================== *)
(** * More properties of the aggregation *)

Module AggregationMore.
Import Aggregation AggSpec AggMore StrFacts DictFacts MeanFacts AggregationFacts.

(** ** The issue table *)

Lemma issue_row_articles (k : str * str) (items : list ArticleRow) :
  num_articles (issue_row (k, items)) = len items.
Proof. now destruct k. Qed.

Lemma aggregate_per_issue_keys (rows : list ArticleRow) :
  map issue_row_key (aggregate_per_issue rows)
  = keys (sorted_items key2_leb (by_issue rows)).
Proof.
  unfold aggregate_per_issue. rewrite map_map. unfold keys.
  apply map_ext. intros [k items]. apply issue_row_key_eq.
Qed.

Lemma issue_table_keys (rows : list ArticleRow) (date src : str) :
  In (date, src) (map issue_row_key (aggregate_per_issue rows))
  <-> exists r, In r rows /\ key_date r = Some date /\ source r = src.
Proof.
  destruct (by_issue_grouped rows) as (Hnd & Hmem & Hkeys).
  rewrite aggregate_per_issue_keys. split.
  - intros Hin. unfold keys in Hin. apply in_map_iff in Hin.
    destruct Hin as ([k items] & Ek & Hin). simpl in Ek. subst k.
    apply sorted_items_In in Hin.
    destruct (Hmem _ _ Hin) as [Eitems Hne]. rewrite Eitems in Hne.
    apply (members_nonempty key2_eqb key2_eqb_eq) in Hne.
    destruct Hne as (r & Hr & Hk). exists r. split; [exact Hr|].
    unfold issue_key in Hk. destruct (key_date r) as [d|]; [|discriminate].
    destruct (nonempty d); [|discriminate].
    injection Hk as -> ->. auto.
  - intros (r & Hr & Hk & Hs).
    assert (Hin : In (date, src) (keys (by_issue rows))).
    { apply Hkeys. apply (members_nonempty key2_eqb key2_eqb_eq).
      exists r. split; [exact Hr|]. rewrite <- Hs. now apply issue_key_some. }
    unfold keys in *. apply in_map_iff in Hin.
    destruct Hin as (x & Ex & Hin). apply in_map_iff.
    exists x. split; [assumption | now apply sorted_items_In].
Qed.

(** X8. The issue table has one line per (issue date, source) under which
    some row is filed, in ascending order of (issue date, source); every
    line counts at least one article. *)
Theorem X8_issue_table_sorted (rows : list ArticleRow) :
  let out := aggregate_per_issue rows in
  StronglySorted (fun a b => key2_le (issue_row_key a) (issue_row_key b)) out
  /\ NoDup (map issue_row_key out)
  /\ (forall date src,
         In (date, src) (map issue_row_key out)
         <-> exists r, In r rows /\ key_date r = Some date /\ source r = src)
  /\ (forall o, In o out -> (1 <= num_articles o)%Z).
Proof.
  intros out. destruct (by_issue_grouped rows) as (Hnd & Hmem & Hkeys).
  split; [|split; [|split]].
  - unfold out, aggregate_per_issue.
    apply StronglySorted_map_impl
      with (R := item_le (V := ArticleRow) key2_leb).
    + intros [k1 i1] [k2 i2] Hle. rewrite !issue_row_key_eq.
      now apply key2_leb_le.
    + apply sorted_items_sorted; [exact key2_leb_total | exact key2_leb_trans].
  - unfold out. rewrite aggregate_per_issue_keys. now apply sorted_items_NoDup.
  - intros date src. apply issue_table_keys.
  - intros o Hin. unfold out, aggregate_per_issue in Hin.
    apply in_map_iff in Hin. destruct Hin as ([k items] & <- & Hin).
    apply sorted_items_In in Hin. destruct (Hmem _ _ Hin) as [_ Hne].
    rewrite issue_row_articles. destruct items; [contradiction|].
    unfold len. simpl. lia.
Qed.

Lemma zsum_app (a b : list Z) : zsum (a ++ b) = (zsum a + zsum b)%Z.
Proof. unfold zsum. induction a as [|x a IH]; simpl; lia. Qed.

Lemma zsum_perm (a b : list Z) : Permutation a b -> zsum a = zsum b.
Proof. unfold zsum. induction 1; simpl; lia. Qed.

Lemma dict_sum_append {K V} (keqb : K -> K -> bool) (f : V -> Z)
      (k : K) (v : V) (d : dict K V) :
  dict_sum f (dict_append keqb k v d) = (dict_sum f d + f v)%Z.
Proof.
  unfold dict_sum. induction d as [|[k' vs] d IH]; simpl.
  - unfold zsum. simpl. lia.
  - destruct (keqb k k'); simpl.
    + rewrite map_app, zsum_app. unfold zsum. simpl. lia.
    + fold (zsum (map (fun kv => zsum (map f (snd kv)))
                     (dict_append keqb k v d))).
      rewrite IH. unfold zsum at 1 3. simpl. unfold zsum. lia.
Qed.

Lemma dict_sum_fold {A K V} (keqb : K -> K -> bool) (kf : A -> option K)
      (vf : A -> V) (f : V -> Z) (l : list A) (d : dict K V) :
  dict_sum f (fold_left (group_step keqb kf vf) l d)
  = (dict_sum f d
     + zsum (map (fun x => f (vf x))
                 (filter (fun x => match kf x with
                                   | Some _ => true
                                   | None => false
                                   end) l)))%Z.
Proof.
  revert d. induction l as [|x l IH]; intros d; simpl.
  - unfold zsum. simpl. lia.
  - rewrite IH. unfold group_step.
    destruct (kf x); simpl; [|reflexivity].
    rewrite dict_sum_append. unfold zsum. simpl. lia.
Qed.

Lemma dict_sum_sorted {K V} (kleb : K -> K -> bool) (f : V -> Z)
      (d : dict K V) :
  dict_sum f (sorted_items kleb d) = dict_sum f d.
Proof.
  unfold dict_sum. apply zsum_perm, Permutation_map, sorted_items_perm.
Qed.

Lemma len_zsum {A} (l : list A) : len l = zsum (map (fun _ => 1%Z) l).
Proof.
  unfold len, zsum. induction l as [|x l IH]; [reflexivity|].
  cbn [List.length map fold_right]. rewrite <- IH. lia.
Qed.

Lemma fold_left_add_zsum (l : list Z) (a : Z) :
  fold_left Z.add l a = (a + zsum l)%Z.
Proof.
  unfold zsum. revert a. induction l as [|x l IH]; intros a; simpl; [lia|].
  rewrite IH. lia.
Qed.

Lemma issue_row_words (k : str * str) (items : list ArticleRow) :
  total_words (issue_row (k, items)) = zsum (map num_words items).
Proof. destruct k. simpl. now rewrite fold_left_add_zsum. Qed.

Lemma issue_table_conserves (rows : list ArticleRow) :
  let out := aggregate_per_issue rows in
  zsum (map num_articles out) = len (filter dated rows)
  /\ zsum (map total_words out) = zsum (map num_words (filter dated rows)).
Proof.
  intros out. unfold out, aggregate_per_issue. rewrite !map_map.
  assert (E1 : map (fun x => num_articles (issue_row x))
                   (sorted_items key2_leb (by_issue rows))
               = map (fun kv => zsum (map (fun _ => 1%Z) (snd kv)))
                     (sorted_items key2_leb (by_issue rows))).
  { apply map_ext. intros [k items]. rewrite issue_row_articles. apply len_zsum. }
  assert (E2 : map (fun x => total_words (issue_row x))
                   (sorted_items key2_leb (by_issue rows))
               = map (fun kv => zsum (map num_words (snd kv)))
                     (sorted_items key2_leb (by_issue rows))).
  { apply map_ext. intros [k items]. apply issue_row_words. }
  rewrite E1, E2.
  fold (dict_sum (fun _ : ArticleRow => 1%Z)
                 (sorted_items key2_leb (by_issue rows))).
  fold (dict_sum num_words (sorted_items key2_leb (by_issue rows))).
  rewrite !dict_sum_sorted, by_issue_fold, !dict_sum_fold.
  fold dated. change (fun x => match issue_key x with
                               | Some _ => true
                               | None => false
                               end) with dated.
  split.
  - rewrite len_zsum. unfold dict_sum, zsum. simpl. reflexivity.
  - unfold dict_sum, zsum. simpl. reflexivity.
Qed.

(** X9. The issue table accounts for every dated row exactly once: its
    article counts add up to the number of rows that have a grouping key,
    and its word totals add up to the words of those rows. *)
Theorem X9_issue_table_conserves (rows : list ArticleRow) :
  let out := aggregate_per_issue rows in
  zsum (map num_articles out) = len (filter dated rows)
  /\ zsum (map total_words out) = zsum (map num_words (filter dated rows)).
Proof. apply issue_table_conserves. Qed.

(** ** The year table *)

Lemma aggregate_per_year_fails (strptime_year : str -> option Z)
      (per_issue : list IssueRow) :
  aggregate_per_year strptime_year per_issue = None
  <-> exists row, In row per_issue /\ strptime_year (i_issue_date row) = None.
Proof.
  unfold aggregate_per_year. split.
  - intros Hnone.
    destruct (Exists_dec (fun row => strptime_year (i_issue_date row) = None)
                         per_issue) as [Hex|Hall].
    + intros row. destruct (strptime_year (i_issue_date row));
        [right; discriminate | left; reflexivity].
    + apply Exists_exists in Hex. exact Hex.
    + exfalso. rewrite by_year_from_fold in Hnone; [discriminate|].
      intros row Hin E. apply Hall. apply Exists_exists. now exists row.
  - intros (row & Hin & E). now rewrite (by_year_from_raises _ _ [] _ Hin E).
Qed.

Lemma year_after_issue_fails (strptime_year : str -> option Z)
      (rows : list ArticleRow) :
  aggregate_per_year strptime_year (aggregate_per_issue rows) = None
  <-> exists r date, In r rows /\ key_date r = Some date
                     /\ strptime_year date = None.
Proof.
  rewrite aggregate_per_year_fails.
  pose proof (issue_table_keys rows) as Hkeys.
  split.
  - intros (o & Hin & E).
    assert (Hk : In (i_issue_date o, i_source o)
                    (map issue_row_key (aggregate_per_issue rows))).
    { apply in_map_iff. exists o. split; [reflexivity | exact Hin]. }
    apply Hkeys in Hk. destruct Hk as (r & Hr & Hd & _).
    exists r, (i_issue_date o). auto.
  - intros (r & date & Hr & Hd & E).
    assert (Hk : In (date, source r)
                    (map issue_row_key (aggregate_per_issue rows))).
    { apply Hkeys. exists r. auto. }
    apply in_map_iff in Hk. destruct Hk as (o & Eo & Hin).
    exists o. split; [exact Hin|]. unfold issue_row_key in Eo.
    injection Eo as -> _. exact E.
Qed.


(** X10. [aggregate_per_year] fails exactly when the date of some issue
    line does not parse; run after [aggregate_per_issue], it fails exactly
    when the grouping key of some row is not a date that [strptime]
    accepts, and a row without a key never makes it fail. *)
Theorem X10_year_table_fails (strptime_year : str -> option Z) :
  (forall per_issue,
      aggregate_per_year strptime_year per_issue = None
      <-> exists row, In row per_issue
                      /\ strptime_year (i_issue_date row) = None)
  /\ (forall rows,
         aggregate_per_year strptime_year (aggregate_per_issue rows) = None
         <-> exists r date, In r rows /\ key_date r = Some date
                            /\ strptime_year date = None).
Proof.
  split; [apply aggregate_per_year_fails | apply year_after_issue_fails].
Qed.

(** ** The per-article table and the pipeline *)

Lemma py_or_none_normalised (o : option str) : normalised (py_or o None).
Proof.
  unfold normalised, py_or, truthy.
  destruct o as [[|c s]|]; simpl; discriminate.
Qed.

Lemma py_or_none_truthy (o : option str) : truthy (py_or o None) = truthy o.
Proof. unfold py_or. destruct (truthy o) eqn:E; [exact E | reflexivity]. Qed.

Lemma py_or_none_absorb (a b : option str) :
  py_or (py_or a None) b = py_or a b.
Proof.
  unfold py_or. destruct (truthy a) eqn:E; [now rewrite E | reflexivity].
Qed.

Lemma article_row_key textstat (src : str) (data : Extracted) :
  key_date (article_row textstat src data) = artifact_key data.
Proof.
  unfold key_date, artifact_key, article_row. simpl.
  now rewrite !py_or_none_absorb.
Qed.

Lemma artifact_key_dated (data : Extracted) :
  artifact_dated data = true <-> artifact_key data <> None.
Proof.
  unfold artifact_dated, artifact_key, py_or.
  destruct (truthy (ex_issue_date data)) eqn:Ei; simpl.
  - split; [|reflexivity]. intros _ E. rewrite E in Ei. discriminate.
  - destruct (truthy (ex_published data)) eqn:Ep; simpl.
    + split; [|reflexivity]. intros _ E. rewrite E in Ep. discriminate.
    + split; [discriminate | intros Hn; now contradiction Hn].
Qed.

Lemma article_row_dated textstat (src : str) (data : Extracted) :
  dated (article_row textstat src data) = artifact_dated data.
Proof.
  unfold dated, issue_key. rewrite article_row_key.
  pose proof (artifact_key_dated data) as Hd.
  destruct (artifact_key data) as [d|] eqn:E.
  - assert (Hne : nonempty d = true).
    { apply (key_date_nonempty (article_row textstat src data)).
      now rewrite article_row_key. }
    rewrite Hne. symmetry. apply Hd. discriminate.
  - destruct (artifact_dated data); [|reflexivity].
    exfalso. now apply (proj1 Hd).
Qed.

Lemma filter_dated_rows textstat (src : str) (l : list Extracted) :
  filter dated (map (article_row textstat src) l)
  = map (article_row textstat src) (filter artifact_dated l).
Proof.
  induction l as [|data l IH]; simpl; [reflexivity|].
  rewrite article_row_dated. destruct (artifact_dated data); simpl;
    now rewrite IH.
Qed.

Lemma compute_per_article_unfold textstat (extracted : str -> list Extracted) :
  compute_per_article textstat extracted
  = map (article_row textstat (py "magazine")) (extracted (py "magazine"))
    ++ map (article_row textstat (py "web")) (extracted (py "web")).
Proof. unfold compute_per_article. simpl. now rewrite app_nil_r. Qed.

(** X11. [compute_per_article] returns one row per artifact, the magazine
    artifacts first and the web artifacts after them, each with the
    source under which it was read.  The optional fields of a row are
    never the empty string, so a row has no grouping key exactly when its
    [issue_date] and [published] are both [None]. *)
Theorem X11_rows_of_artifacts textstat (extracted : str -> list Extracted) :
  let rows := compute_per_article textstat extracted in
  rows = map (article_row textstat (py "magazine")) (extracted (py "magazine"))
         ++ map (article_row textstat (py "web")) (extracted (py "web"))
  /\ len rows = len (artifacts extracted)
  /\ len (write_per_article_csv rows) = len (artifacts extracted)
  /\ Forall (fun r =>
               (source r = py "magazine" \/ source r = py "web")
               /\ normalised (title r) /\ normalised (author r)
               /\ normalised (section r) /\ normalised (published r)
               /\ normalised (issue_date r)
               /\ (key_date r = None
                   <-> issue_date r = None /\ published r = None))
            rows.
Proof.
  intros rows. unfold rows. rewrite compute_per_article_unfold.
  split; [reflexivity|].
  assert (Hlen : len (map (article_row textstat (py "magazine"))
                          (extracted (py "magazine"))
                      ++ map (article_row textstat (py "web"))
                             (extracted (py "web")))
                 = len (artifacts extracted)).
  { unfold len, artifacts. now rewrite !length_app, !length_map. }
  split; [exact Hlen|]. split.
  - unfold write_per_article_csv. now rewrite len_map.
  - assert (Hrow : forall src data,
               src = py "magazine" \/ src = py "web" ->
               let r := article_row textstat src data in
               (source r = py "magazine" \/ source r = py "web")
               /\ normalised (title r) /\ normalised (author r)
               /\ normalised (section r) /\ normalised (published r)
               /\ normalised (issue_date r)
               /\ (key_date r = None
                   <-> issue_date r = None /\ published r = None)).
    { intros src data Hsrc r.
      split; [exact Hsrc|]. repeat (split; [apply py_or_none_normalised|]).
      destruct (key_date_cases r) as (_ & _ & Hnone). rewrite Hnone.
      rewrite <- !not_present_truthy. unfold r, article_row. simpl.
      rewrite !py_or_none_truthy. unfold py_or.
      destruct (truthy (ex_issue_date data)) eqn:Ei,
               (truthy (ex_published data)) eqn:Ep;
        split; intros [H1 H2]; try discriminate; try (split; reflexivity);
        try (rewrite H1 in Ei; discriminate);
        try (rewrite H2 in Ep; discriminate); auto. }
    apply Forall_app. split; apply Forall_map, Forall_forall; intros data _;
      apply Hrow; auto.
Qed.

(** X21. One run of the [aggregate] command: the per-article table has a
    line for every artifact; the article counts of the issue table add up
    to the number of artifacts with a date; and the year table is missing
    (the command stops on the exception) exactly when the grouping key of
    some artifact is not a date that [strptime] accepts. *)
Theorem X21_aggregate_command textstat (strptime_year : str -> option Z)
        (extracted : str -> list Extracted) :
  let '(per_article, per_issue, per_year) :=
    cmd_aggregate textstat strptime_year extracted in
  len per_article = len (artifacts extracted)
  /\ zsum (map num_articles per_issue)
     = len (filter artifact_dated (artifacts extracted))
  /\ (per_year = None
      <-> exists data date,
          In data (artifacts extracted)
          /\ artifact_key data = Some date /\ strptime_year date = None).
Proof.
  unfold cmd_aggregate. cbv zeta.
  split; [|split].
  - unfold write_per_article_csv. rewrite len_map, compute_per_article_unfold.
    unfold len, artifacts. now rewrite !length_app, !length_map.
  - destruct (issue_table_conserves (compute_per_article textstat extracted))
      as [E _].
    cbv zeta in E. rewrite E, compute_per_article_unfold.
    rewrite filter_app, !filter_dated_rows. unfold artifacts.
    rewrite filter_app. unfold len. now rewrite !length_app, !length_map.
  - rewrite year_after_issue_fails, compute_per_article_unfold. split.
    + intros (r & date & Hin & Hk & E).
      apply in_app_or in Hin.
      destruct Hin as [Hin|Hin]; apply in_map_iff in Hin;
        destruct Hin as (data & <- & Hin); rewrite article_row_key in Hk;
        exists data, date; (split; [|auto]); unfold artifacts;
        apply in_or_app; auto.
    + intros (data & date & Hin & Hk & E). unfold artifacts in Hin.
      apply in_app_or in Hin. destruct Hin as [Hin|Hin].
      * exists (article_row textstat (py "magazine") data), date.
        split; [apply in_or_app; left; now apply in_map|].
        now rewrite article_row_key.
      * exists (article_row textstat (py "web") data), date.
        split; [apply in_or_app; right; now apply in_map|].
        now rewrite article_row_key.
Qed.

End AggregationMore.

(* ================================================================== *)
(** * Properties of the cache and of the HTTP client *)

Module HttpFacts.
Import Http StrFacts.

Section Client.
Variable sha1_hex : str -> str.

#[local] Abbreviation cache_get := (cache_get sha1_hex).
#[local] Abbreviation cache_set := (cache_set sha1_hex).
#[local] Abbreviation retry := (retry sha1_hex).
#[local] Abbreviation get := (get sha1_hex).

Lemma eqb_refl (a : str) : PyStr.eqb a a = true.
Proof. now apply eqb_eq. Qed.

Lemma cache_get_set (s : store) (key : str) (value : bytes) :
  cache_get (cache_set s key value) key = Some value.
Proof. unfold Http.cache_get, Http.cache_set. now rewrite eqb_refl. Qed.

Lemma cache_get_set_other (s : store) (key key' : str) (value : bytes) :
  sha1_hex key' <> sha1_hex key ->
  cache_get (cache_set s key value) key' = cache_get s key'.
Proof.
  intros Hne. unfold Http.cache_get, Http.cache_set.
  destruct (PyStr.eqb (sha1_hex key') (sha1_hex key)) eqn:E; [|reflexivity].
  apply eqb_eq in E. contradiction.
Qed.

(** X22. What is stored under a key is what the cache returns for it, and
    storing under one key leaves every key with another digest as it was;
    two keys with the same digest share one entry. *)
Theorem X22_cache_round_trip (s : store) (key : str) (value : bytes) :
  cache_get (cache_set s key value) key = Some value
  /\ (forall key', sha1_hex key' <> sha1_hex key ->
                   cache_get (cache_set s key value) key' = cache_get s key')
  /\ (forall key', sha1_hex key' = sha1_hex key ->
                   cache_get (cache_set s key value) key' = Some value).
Proof.
  split; [apply cache_get_set|]. split; [intros; now apply cache_get_set_other|].
  intros key' E. unfold Http.cache_get, Http.cache_set.
  now rewrite E, eqb_refl.
Qed.

Lemma retry_spec (net : nat -> outcome) (use_cache : bool) (url : str)
      (remaining done : nat) (s : store) (last_exc : option error) :
  let a := retry net use_cache url remaining done s last_exc in
  (done <= calls a <= done + remaining)%nat
  /\ match res a with
     | Returned r =>
         cache_hit r = false
         /\ (1 <= calls a)%nat
         /\ net (calls a - 1)%nat = Responds (status_code r) (content r)
         /\ soft_block (status_code r) = false
         /\ (status_code r = 200%Z \/ raises_for_status (status_code r) = false)
         /\ (status_code r = 200%Z -> use_cache = true ->
             cache_get (cache a) url = Some (content r))
         /\ (status_code r <> 200%Z \/ use_cache = false -> cache a = s)
     | Raised e =>
         cache a = s
         /\ calls a = (done + remaining)%nat
         /\ (e = RuntimeError -> last_exc = None \/ last_exc = Some RuntimeError)
     end.
Proof.
  revert done s last_exc.
  induction remaining as [|n IH]; intros done s last_exc; simpl.
  - destruct last_exc as [e|]; simpl.
    + split; [lia|]. split; [reflexivity|]. split; [lia|].
      intros ->. now right.
    + split; [lia|]. split; [reflexivity|]. split; [lia|]. now left.
  - destruct (net done) as [status body|e] eqn:Hnet.
    + destruct (Z.eqb_spec status 200) as [E200|N200].
      * simpl. split; [lia|]. split; [reflexivity|]. split; [lia|].
        rewrite Nat.sub_0_r.
        split; [exact Hnet|]. subst status.
        split; [reflexivity|]. split; [now left|]. split.
        -- intros _ ->. apply cache_get_set.
        -- intros [H| ->]; [contradiction | reflexivity].
      * destruct (soft_block status) eqn:Hsoft.
        -- specialize (IH (S done) s last_exc). cbv zeta in IH.
           destruct IH as [Hc Hr]. split; [lia|].
           destruct (res (retry net use_cache url n (S done) s last_exc));
             [exact Hr|].
           destruct Hr as (H1 & H2 & H3). repeat split; auto. lia.
        -- destruct (raises_for_status status) eqn:Hraise.
           ++ specialize (IH (S done) s (Some (HTTPError status))).
              cbv zeta in IH. destruct IH as [Hc Hr]. split; [lia|].
              destruct (res (retry net use_cache url n (S done) s
                                   (Some (HTTPError status))));
                [exact Hr|].
              destruct Hr as (H1 & H2 & H3). split; [exact H1|].
              split; [lia|]. intros E. destruct (H3 E); discriminate.
           ++ simpl. split; [lia|]. split; [reflexivity|]. split; [lia|].
              rewrite Nat.sub_0_r.
              split; [exact Hnet|]. split; [exact Hsoft|].
              split; [now right|]. split; [intros; contradiction|].
              reflexivity.
    + specialize (IH (S done) s (Some (Exc e))). cbv zeta in IH.
      destruct IH as [Hc Hr]. split; [lia|].
      destruct (res (retry net use_cache url n (S done) s (Some (Exc e))));
        [exact Hr|].
      destruct Hr as (H1 & H2 & H3). split; [exact H1|].
      split; [lia|]. intros E. destruct (H3 E); discriminate.
Qed.

Lemma retry_soft_blocks (net : nat -> outcome) (use_cache : bool) (url : str)
      (remaining done : nat) (s : store) :
  (forall n, (done <= n < done + remaining)%nat ->
             exists status body, net n = Responds status body
                                 /\ soft_block status = true) ->
  res (retry net use_cache url remaining done s None) = Raised RuntimeError.
Proof.
  revert done. induction remaining as [|n IH]; intros done Hall; simpl.
  - reflexivity.
  - destruct (Hall done) as (status & body & Hnet & Hsoft); [lia|].
    rewrite Hnet.
    destruct (Z.eqb_spec status 200) as [->|_]; [discriminate|].
    rewrite Hsoft. apply IH. intros k Hk. apply Hall. lia.
Qed.

(** X23. [HttpClient.get] makes at most [max_retries] calls of
    [session.get].  On a cache hit it makes none, returns the cached
    content with status 200 and leaves the cache as it is.  A response
    with status 200 fetched with the cache on is stored, so the next
    [get] of the same URL returns the same content without any call.  The
    cache changes in no other case.  When every attempt is answered by a
    soft block (403, 429 or 503) the call ends with the [RuntimeError]
    and not with an HTTP error. *)
Theorem X23_get_and_cache (max_retries : Z) (net : nat -> outcome)
        (s : store) (url : str) (use_cache : bool) :
  let a := get max_retries net s url use_cache in
  (Z.of_nat (calls a) <= Z.max 0 max_retries)%Z
  /\ (forall cached,
         use_cache = true -> cache_get s url = Some cached ->
         a = mkAfter (Returned (mkResponse 200 cached true)) s O)
  /\ (forall r,
         res a = Returned r -> status_code r = 200%Z -> use_cache = true ->
         forall net',
           get max_retries net' (cache a) url true
           = mkAfter (Returned (mkResponse 200 (content r) true)) (cache a) O)
  /\ (forall r, res a = Returned r ->
                status_code r <> 200%Z \/ use_cache = false -> cache a = s)
  /\ (forall e, res a = Raised e -> cache a = s)
  /\ ((use_cache = false \/ cache_get s url = None) ->
      (forall n, (n < Z.to_nat max_retries)%nat ->
                 exists status body, net n = Responds status body
                                     /\ soft_block status = true) ->
      res a = Raised RuntimeError).
Proof.
  intros a. unfold a, Http.get.
  destruct (if use_cache then cache_get s url else None) as [cached|] eqn:Hc.
  - assert (Huse : use_cache = true) by (destruct use_cache; [auto | discriminate]).
    subst use_cache. simpl.
    split; [lia|]. split; [|split; [|split; [|split]]].
    + intros cached' _ E. rewrite Hc in E. now injection E as ->.
    + intros r [= <-] _ _ net'. simpl. now rewrite Hc.
    + reflexivity.
    + discriminate.
    + intros [E|E]; [discriminate | rewrite Hc in E; discriminate].
  - pose proof (retry_spec net use_cache url (Z.to_nat max_retries) O s None)
      as [Hcalls Hres].
    cbv zeta in Hcalls, Hres.
    set (a' := retry net use_cache url (Z.to_nat max_retries) O s None) in *.
    split; [lia|]. split; [|split; [|split; [|split]]].
    + intros cached -> E. rewrite Hc in E. discriminate.
    + intros r Er E200 Huse net'. rewrite Er in Hres.
      destruct Hres as (_ & _ & _ & _ & _ & Hstored & _).
      simpl. now rewrite (Hstored E200 Huse).
    + intros r Er Hcase. rewrite Er in Hres.
      destruct Hres as (_ & _ & _ & _ & _ & _ & Hsame). now apply Hsame.
    + intros e Er. rewrite Er in Hres. tauto.
    + intros _ Hall. apply retry_soft_blocks. intros n Hn. apply Hall. lia.
Qed.

End Client.

Lemma X23_witness :
  let sha1 (key : str) := key in
  let net (n : nat) :=
    match n with
    | O => Responds 503 []
    | _ => Responds 200 [104%N; 105%N]
    end in
  let a := Http.get sha1 3 net (fun _ => None) (py "https://example.org/a") true in
  calls a = 2%nat
  /\ Http.get sha1 3 (fun _ => Fails (py "down")) (cache a)
              (py "https://example.org/a") true
     = mkAfter (Returned (mkResponse 200 [104%N; 105%N] true)) (cache a) O.
Proof.
  intros sha1 net a. split; [reflexivity|].
  apply (proj1 (proj2 (proj2 (X23_get_and_cache sha1 3 net (fun _ => None)
                                                (py "https://example.org/a") true)))
               (mkResponse 200 [104%N; 105%N] false));
    reflexivity.
Defined.

End HttpFacts.

(* ================================================================== *)
(** * Properties of the link lists *)

Module LinksFacts.
Import Utils Scraper Links StrFacts StripFacts.

Lemma date_leb_total (a b : Z * Z * Z) :
  date_leb a b = false -> date_leb b a = true.
Proof.
  destruct a as [[y1 m1] d1], b as [[y2 m2] d2]. unfold date_leb.
  destruct (Z.ltb_spec y1 y2), (Z.ltb_spec y2 y1), (Z.eqb_spec y1 y2),
    (Z.eqb_spec y2 y1), (Z.ltb_spec m1 m2), (Z.ltb_spec m2 m1),
    (Z.eqb_spec m1 m2), (Z.eqb_spec m2 m1), (Z.leb_spec d1 d2),
    (Z.leb_spec d2 d1); simpl; intros; try reflexivity; try discriminate; lia.
Qed.

Lemma date_leb_iff (a b : Z * Z * Z) :
  date_leb a b = true
  <-> let '(y1, m1, d1) := a in
      let '(y2, m2, d2) := b in
      (y1 < y2 \/ (y1 = y2 /\ (m1 < m2 \/ (m1 = m2 /\ d1 <= d2))))%Z.
Proof.
  destruct a as [[y1 m1] d1], b as [[y2 m2] d2]. unfold date_leb.
  rewrite orb_true_iff, andb_true_iff, orb_true_iff, andb_true_iff.
  rewrite !Z.ltb_lt, !Z.eqb_eq, Z.leb_le. reflexivity.
Qed.

Lemma date_leb_trans (a b c : Z * Z * Z) :
  date_leb a b = true -> date_leb b c = true -> date_leb a c = true.
Proof.
  rewrite !date_leb_iff.
  destruct a as [[y1 m1] d1], b as [[y2 m2] d2], c as [[y3 m3] d3]. lia.
Qed.

Lemma insert_issue_perm (x : Issue) (l : list Issue) :
  Permutation (insert_issue x l) (x :: l).
Proof.
  induction l as [|y l IH]; simpl; [reflexivity|].
  destruct (date_leb (date x) (date y)); [reflexivity|].
  rewrite IH. apply perm_swap.
Qed.

Lemma sorted_by_date_perm (l : list Issue) : Permutation (sorted_by_date l) l.
Proof.
  induction l as [|x l IH]; simpl; [reflexivity|].
  rewrite insert_issue_perm. now constructor.
Qed.

Lemma insert_issue_sorted (x : Issue) (l : list Issue) :
  Sorted (fun a b => date_leb (date a) (date b) = true) l ->
  Sorted (fun a b => date_leb (date a) (date b) = true) (insert_issue x l).
Proof.
  induction 1 as [|y l Hs IH Hhd]; simpl.
  - repeat constructor.
  - destruct (date_leb (date x) (date y)) eqn:E.
    + constructor; [now constructor | now constructor].
    + constructor; [assumption|].
      destruct l as [|z l]; simpl.
      * constructor. now apply date_leb_total.
      * destruct (date_leb (date x) (date z)) eqn:E'.
        -- constructor. now apply date_leb_total.
        -- constructor. now inversion Hhd.
Qed.

Lemma sorted_by_date_sorted (l : list Issue) :
  StronglySorted (fun a b => date_leb (date a) (date b) = true)
                 (sorted_by_date l).
Proof.
  apply Sorted_StronglySorted.
  - intros a b c. apply date_leb_trans.
  - induction l as [|x l IH]; simpl; [constructor|].
    now apply insert_issue_sorted.
Qed.

Lemma dict_set_keys {V} (k : str) (v : V) (d : list (str * V)) (k' : str) :
  In k' (map fst (dict_set k v d)) <-> k' = k \/ In k' (map fst d).
Proof.
  induction d as [|[k0 v0] d IH]; simpl.
  - intuition congruence.
  - destruct (PyStr.eqb k k0) eqn:E; simpl.
    + apply eqb_eq in E. subst k0. intuition congruence.
    + rewrite IH. tauto.
Qed.

Lemma dict_set_NoDup {V} (k : str) (v : V) (d : list (str * V)) :
  NoDup (map fst d) -> NoDup (map fst (dict_set k v d)).
Proof.
  induction d as [|[k0 v0] d IH]; simpl; intros Hnd.
  - constructor; [tauto | constructor].
  - inversion Hnd as [|? ? Hnotin Hnd']; subst.
    destruct (PyStr.eqb k k0) eqn:E; simpl.
    + now constructor.
    + constructor; [|now apply IH].
      intros Hin. apply dict_set_keys in Hin.
      destruct Hin as [->|Hin]; [|contradiction].
      assert (PyStr.eqb k k = true) by now apply eqb_eq. congruence.
Qed.

Lemma dict_set_In {V} (k : str) (v : V) (d : list (str * V)) (k' : str) (v' : V) :
  In (k', v') (dict_set k v d) -> (k' = k /\ v' = v) \/ In (k', v') d.
Proof.
  induction d as [|[k0 v0] d IH]; simpl.
  - intros [[= <- <-]|[]]. now left.
  - destruct (PyStr.eqb k k0) eqn:E; simpl.
    + apply eqb_eq in E. subst k0. intros [[= <- <-]|Hin]; [now left|].
      right. now right.
    + intros [E'|Hin]; [right; now left|].
      destruct (IH Hin); [now left | right; now right].
Qed.

(** What the dict of [get_issues_for_year] holds after the links [seen]. *)
Lemma issues_fold (base_url : str) (hrefs seen : list str)
      (d : list (str * Issue)) :
  (NoDup (map fst d)
   /\ (forall k i, In (k, i) d ->
                   url i = k
                   /\ exists href, In href seen
                                   /\ issue_link_match href = Some (date i)
                                   /\ valid_date (fst (fst (date i)))
                                                 (snd (fst (date i)))
                                                 (snd (date i)) = true
                                   /\ k = _abs base_url href)
   /\ (forall href y m dd,
          In href seen -> issue_link_match href = Some (y, m, dd) ->
          valid_date y m dd = true ->
          In (_abs base_url href) (map fst d))) ->
  let d' := fold_left (issues_step base_url) hrefs d in
  NoDup (map fst d')
  /\ (forall k i, In (k, i) d' ->
                  url i = k
                  /\ exists href, In href (seen ++ hrefs)
                                  /\ issue_link_match href = Some (date i)
                                  /\ valid_date (fst (fst (date i)))
                                                (snd (fst (date i)))
                                                (snd (date i)) = true
                                  /\ k = _abs base_url href)
  /\ (forall href y m dd,
         In href (seen ++ hrefs) -> issue_link_match href = Some (y, m, dd) ->
         valid_date y m dd = true ->
         In (_abs base_url href) (map fst d')).
Proof.
  revert seen d. induction hrefs as [|h hrefs IH]; intros seen d Hinv.
  - simpl. now rewrite app_nil_r.
  - simpl. replace (seen ++ h :: hrefs) with ((seen ++ [h]) ++ hrefs)
      by now rewrite <- app_assoc.
    apply IH. clear IH. destruct Hinv as (Hnd & Hsound & Hcomplete).
    unfold issues_step.
    destruct (issue_link_match h) as [[[y m] dd]|] eqn:Hm.
    + destruct (valid_date y m dd) eqn:Hv.
      * split; [now apply dict_set_NoDup|]. split.
        -- intros k i Hin. apply dict_set_In in Hin.
           destruct Hin as [[-> ->]|Hin].
           ++ simpl. split; [reflexivity|]. exists h.
              split; [apply in_or_app; right; now left|]. auto.
           ++ destruct (Hsound _ _ Hin) as (Hu & href & Hhin & Hrest).
              split; [exact Hu|]. exists href.
              split; [apply in_or_app; now left | exact Hrest].
        -- intros href y' m' d' Hin Hm' Hv'. apply dict_set_keys.
           apply in_app_or in Hin. destruct Hin as [Hin|[<-|[]]].
           ++ right. eapply Hcomplete; eassumption.
           ++ now left.
      * split; [exact Hnd|]. split.
        -- intros k i Hin.
           destruct (Hsound _ _ Hin) as (Hu & href & Hhin & Hrest).
           split; [exact Hu|]. exists href.
           split; [apply in_or_app; now left | exact Hrest].
        -- intros href y' m' d' Hin Hm' Hv'.
           apply in_app_or in Hin. destruct Hin as [Hin|[<-|[]]].
           ++ eapply Hcomplete; eassumption.
           ++ rewrite Hm in Hm'. injection Hm' as -> -> ->. congruence.
    + split; [exact Hnd|]. split.
      * intros k i Hin.
        destruct (Hsound _ _ Hin) as (Hu & href & Hhin & Hrest).
        split; [exact Hu|]. exists href.
        split; [apply in_or_app; now left | exact Hrest].
      * intros href y' m' d' Hin Hm' Hv'.
        apply in_app_or in Hin. destruct Hin as [Hin|[<-|[]]].
        -- eapply Hcomplete; eassumption.
        -- rewrite Hm in Hm'. discriminate.
Qed.

(** X24. [get_issues_for_year] returns the issues in ascending order of
    date, with pairwise distinct URLs.  Every issue comes from a link whose
    [href] matches the issue pattern with a valid calendar date, its URL
    being [_abs] of that [href]; and every such link has its issue in the
    list. *)
Theorem X24_issues_of_index (base_url : str) (hrefs : list str) :
  Forall (Forall (fun c => is_ascii c = true)) hrefs ->
  let out := get_issues_for_year base_url hrefs in
  StronglySorted (fun a b => date_leb (date a) (date b) = true) out
  /\ NoDup (map url out)
  /\ (forall i, In i out ->
                exists href y m d,
                  In href hrefs /\ issue_link_match href = Some (y, m, d)
                  /\ valid_date y m d = true
                  /\ date i = (y, m, d) /\ url i = _abs base_url href)
  /\ (forall href y m d,
         In href hrefs -> issue_link_match href = Some (y, m, d) ->
         valid_date y m d = true ->
         exists i, In i out /\ url i = _abs base_url href).
Proof.
  intros _ out. unfold out, get_issues_for_year.
  destruct (issues_fold base_url hrefs [] [])
    as (Hnd & Hsound & Hcomplete).
  { split; [constructor|]. split; [intros k i []|intros href y m dd []]. }
  cbv zeta in Hnd, Hsound, Hcomplete. simpl app in Hsound, Hcomplete.
  set (d := fold_left (issues_step base_url) hrefs []) in *.
  assert (Hurl : map url (map snd d) = map fst d).
  { rewrite map_map. apply map_ext_in. intros [k i] Hin. simpl.
    now destruct (Hsound _ _ Hin). }
  split; [apply sorted_by_date_sorted|]. split; [|split].
  - apply (Permutation_NoDup (l := map url (map snd d))).
    + apply Permutation_map. symmetry. apply sorted_by_date_perm.
    + now rewrite Hurl.
  - intros i Hin.
    apply (Permutation_in _ (sorted_by_date_perm (map snd d))) in Hin.
    apply in_map_iff in Hin. destruct Hin as ([k i'] & Ei & Hin).
    simpl in Ei. subst i'.
    destruct (Hsound _ _ Hin) as (Hu & href & Hhin & Hm & Hv & Hk).
    destruct (date i) as [[y m] dd] eqn:Ed.
    exists href, y, m, dd. simpl in Hv. repeat split; auto. congruence.
  - intros href y m dd Hin Hm Hv.
    pose proof (Hcomplete href y m dd Hin Hm Hv) as Hk.
    apply in_map_iff in Hk. destruct Hk as ([k i] & Ek & Hki).
    simpl in Ek. subst k. exists i. split.
    + apply (Permutation_in _ (Permutation_sym
                                 (sorted_by_date_perm (map snd d)))).
      apply in_map_iff. now exists (_abs base_url href, i).
    + now destruct (Hsound _ _ Hki).
Qed.

Lemma X24_witness :
  map date (get_issues_for_year (py "https://www.newyorker.com")
              [py "/magazine/2024/02/05"; py "/magazine/2024/01/01";
               py "/magazine/2024/02/30"; py "/magazine/2024/01/01"])
  = [(2024, 1, 1); (2024, 2, 5)]%Z
  /\ NoDup (map url (get_issues_for_year (py "https://www.newyorker.com")
              [py "/magazine/2024/02/05"; py "/magazine/2024/01/01";
               py "/magazine/2024/02/30"; py "/magazine/2024/01/01"])).
Proof.
  split; [reflexivity|].
  apply (@X24_issues_of_index (py "https://www.newyorker.com")
           [py "/magazine/2024/02/05"; py "/magazine/2024/01/01";
            py "/magazine/2024/02/30"; py "/magazine/2024/01/01"]).
  repeat constructor.
Defined.

Lemma insert_unique_In (x : str) (l : list str) (y : str) :
  In y (insert_unique x l) <-> y = x \/ In y l.
Proof.
  induction l as [|z l IH]; simpl; [intuition congruence|].
  destruct (PyStr.compare x z) eqn:E; simpl.
  - apply compare_eq_iff in E. subst z. intuition congruence.
  - intuition congruence.
  - rewrite IH. intuition congruence.
Qed.

Lemma sorted_set_In (l : list str) (y : str) : In y (sorted_set l) <-> In y l.
Proof.
  induction l as [|x l IH]; simpl; [tauto|].
  rewrite insert_unique_In, IH. intuition congruence.
Qed.

Lemma compare_gt_lt (a b : str) :
  PyStr.compare a b = Gt -> PyStr.compare b a = Lt.
Proof. intros E. now rewrite (compare_antisym a b), E. Qed.

Lemma insert_unique_sorted (x : str) (l : list str) :
  Sorted str_lt l -> Sorted str_lt (insert_unique x l).
Proof.
  induction 1 as [|y l Hs IH Hhd]; simpl.
  - repeat constructor.
  - destruct (PyStr.compare x y) eqn:E.
    + now constructor.
    + constructor; [now constructor | now constructor].
    + constructor; [assumption|].
      destruct l as [|z l]; simpl.
      * constructor. now apply compare_gt_lt.
      * destruct (PyStr.compare x z) eqn:E'.
        -- exact Hhd.
        -- constructor. now apply compare_gt_lt.
        -- constructor. now inversion Hhd.
Qed.

Lemma sorted_set_sorted (l : list str) : StronglySorted str_lt (sorted_set l).
Proof.
  apply Sorted_StronglySorted.
  - intros a b c. apply compare_trans_lt.
  - induction l as [|x l IH]; simpl; [constructor|].
    now apply insert_unique_sorted.
Qed.

(** X25. [get_issue_articles] returns the article URLs in strictly
    ascending order, hence without duplicates: exactly the URLs [_abs] of
    the [href] values that match the article pattern. *)
Theorem X25_articles_of_issue (base_url : str) (hrefs : list str) :
  Forall (Forall (fun c => is_ascii c = true)) hrefs ->
  let out := get_issue_articles base_url hrefs in
  StronglySorted str_lt out
  /\ NoDup out
  /\ (forall u, In u out
                <-> exists href, In href hrefs /\ mag_article_match href = true
                                 /\ u = _abs base_url href).
Proof.
  intros _ out. unfold out, get_issue_articles.
  pose proof (sorted_set_sorted
                (map (_abs base_url) (filter mag_article_match hrefs)))
    as Hs.
  split; [exact Hs|]. split.
  - clear out. induction Hs as [|x l Hs IH Hall]; constructor; [|exact IH].
    intros Hin. rewrite Forall_forall in Hall. specialize (Hall x Hin).
    unfold str_lt in Hall.
    assert (PyStr.compare x x = Eq) by now apply compare_eq_iff.
    congruence.
  - intros u. rewrite sorted_set_In, in_map_iff. split.
    + intros (href & <- & Hin). apply filter_In in Hin.
      exists href. tauto.
    + intros (href & Hin & Hm & ->). exists href.
      split; [reflexivity|]. apply filter_In. tauto.
Qed.

Lemma X25_witness :
  get_issue_articles (py "https://www.newyorker.com")
    [py "/magazine/2024/01/01/an-article-slug";
     py "/magazine/2024/01/01/another-article";
     py "/news/something-else";
     py "/magazine/2024/01/01/an-article-slug"]
  = [py "https://www.newyorker.com/magazine/2024/01/01/an-article-slug";
     py "https://www.newyorker.com/magazine/2024/01/01/another-article"]
  /\ NoDup (get_issue_articles (py "https://www.newyorker.com")
              [py "/magazine/2024/01/01/an-article-slug";
               py "/magazine/2024/01/01/another-article";
               py "/news/something-else";
               py "/magazine/2024/01/01/an-article-slug"]).
Proof.
  split; [reflexivity|].
  apply (@X25_articles_of_issue (py "https://www.newyorker.com")
           [py "/magazine/2024/01/01/an-article-slug";
            py "/magazine/2024/01/01/another-article";
            py "/news/something-else";
            py "/magazine/2024/01/01/an-article-slug"]).
  repeat constructor.
Defined.

End LinksFacts.
